(** * Midrai terminal: virtual filesystem, command dispatcher and line editor

    A shallow embedding of the TypeScript sources of the simulated terminal
    (the [VFS] class, the [CLI] class and the [FakeShell] class) together
    with the properties proved about them.

    Conventions of the embedding.
    - A JavaScript string is a [string]: a sequence of code units, here the
      code units below 256.  Character classes of regular expressions
      ([\s], [\S], [.]) and of [trim] are the JavaScript ones restricted to
      that range.
    - Numbers that may be negative ([lastIndexOf], [historyIndex], the
      arguments of [slice] and [substring]) are [Z].
    - A JavaScript [Map] is an insertion-ordered association list with
      unique keys ([Js.map_set] replaces in place or appends).
    - The environment object ([Record<string, string>]) is a
      [gmap string string].
    - Objects that the source mutates in place are threaded explicitly:
      every operation returns the new state next to its result. *)

From Stdlib Require Import ZArith List String Ascii Bool Lia.
From stdpp Require Import base strings gmap.
Import ListNotations.

Set Warnings "-register-all".

(* ================================================================== *)
(** * Part I: definitions *)
(* ================================================================== *)

(** ** JavaScript string and Map primitives used by the sources *)

Module Js.

(** [WhiteSpace] and [LineTerminator] code points below 256: TAB, LF, VT,
    FF, CR, SPACE and NBSP.  This is the class of [\s] and of [trim]. *)
Definition isWhiteSpace (c : ascii) : bool :=
  let n := nat_of_ascii c in
  ((9 <=? n)%nat && (n <=? 13)%nat) || (n =? 32)%nat || (n =? 160)%nat.

(** Line terminators below 256 (LF, CR): the characters [.] refuses. *)
Definition isLineTerminator (c : ascii) : bool :=
  let n := nat_of_ascii c in (n =? 10)%nat || (n =? 13)%nat.

(** [[A-Za-z_]] *)
Definition isIdentStart (c : ascii) : bool :=
  let n := nat_of_ascii c in
  ((65 <=? n)%nat && (n <=? 90)%nat)
  || ((97 <=? n)%nat && (n <=? 122)%nat)
  || (n =? 95)%nat.

(** [[A-Za-z0-9_]] *)
Definition isIdentChar (c : ascii) : bool :=
  let n := nat_of_ascii c in
  isIdentStart c || ((48 <=? n)%nat && (n <=? 57)%nat).

(** A string is truthy when it is not empty. *)
Definition truthy (s : string) : bool := negb (String.eqb s EmptyString).

(** [a || b] on strings. *)
Definition orElse (a b : string) : string := if truthy a then a else b.

Fixpoint trimStart (s : string) : string :=
  match s with
  | EmptyString => EmptyString
  | String c r => if isWhiteSpace c then trimStart r else s
  end.

Fixpoint trimEnd (s : string) : string :=
  match s with
  | EmptyString => EmptyString
  | String c r =>
      let r' := trimEnd r in
      if isWhiteSpace c && negb (truthy r') then EmptyString
      else String c r'
  end.

(** [String.prototype.trim] *)
Definition trim (s : string) : string := trimEnd (trimStart s).

(** [s.split(sep)] for a one-character separator: never the empty list. *)
Fixpoint split (sep : ascii) (s : string) : list string :=
  match s with
  | EmptyString => [EmptyString]
  | String c r =>
      if Ascii.eqb c sep then EmptyString :: split sep r
      else match split sep r with
           | h :: t => String c h :: t
           | [] => [String c EmptyString]
           end
  end.

(** [parts.join(sep)] *)
Definition join (sep : string) (parts : list string) : string :=
  String.concat sep parts.

(** [s.startsWith(p)] *)
Definition startsWith (p s : string) : bool := String.prefix p s.

(** [s.endsWith(' ')] and the like, for a one-character suffix. *)
Fixpoint endsWithChar (c : ascii) (s : string) : bool :=
  match s with
  | EmptyString => false
  | String a EmptyString => Ascii.eqb a c
  | String _ r => endsWithChar c r
  end.

(** [s.includes(c)] for a one-character needle. *)
Fixpoint includes (c : ascii) (s : string) : bool :=
  match s with
  | EmptyString => false
  | String a r => Ascii.eqb a c || includes c r
  end.

(** [s.lastIndexOf(c)] for a one-character needle: the greatest index
    holding [c], or [-1]. *)
Fixpoint lastIndexOf (c : ascii) (s : string) : Z :=
  match s with
  | EmptyString => (-1)%Z
  | String a r =>
      let i := lastIndexOf c r in
      if (0 <=? i)%Z then (i + 1)%Z
      else if Ascii.eqb a c then 0%Z else (-1)%Z
  end.

Definition len (s : string) : Z := Z.of_nat (String.length s).

Definition clamp (i : Z) (s : string) : Z := Z.max 0 (Z.min i (len s)).

(** [s.substring(a, b)]: both ends clamped to [0, length], swapped when
    out of order. *)
Definition substring (a b : Z) (s : string) : string :=
  let a' := clamp a s in
  let b' := clamp b s in
  let lo := Z.min a' b' in
  let hi := Z.max a' b' in
  String.substring (Z.to_nat lo) (Z.to_nat (hi - lo)) s.

(** [s.substring(a)] *)
Definition substringFrom (a : Z) (s : string) : string :=
  substring a (len s) s.

(** A relative index of [slice]: negative counts from the end. *)
Definition relIndex (i : Z) (s : string) : Z :=
  if (i <? 0)%Z then Z.max (len s + i) 0 else Z.min i (len s).

(** [s.slice(a, b)] *)
Definition slice (a b : Z) (s : string) : string :=
  let from := relIndex a s in
  let to := relIndex b s in
  String.substring (Z.to_nat from) (Z.to_nat (Z.max (to - from) 0)) s.

(** [s.slice(a)] *)
Definition sliceFrom (a : Z) (s : string) : string :=
  slice a (len s) s.

(** [s.charCodeAt(0)]: [None] stands for [NaN]. *)
Definition charCodeAt0 (s : string) : option Z :=
  match s with
  | EmptyString => None
  | String c _ => Some (Z.of_nat (nat_of_ascii c))
  end.

(** The characters of a string, as one-character strings ([token[j]]). *)
Fixpoint chars (s : string) : list string :=
  match s with
  | EmptyString => []
  | String c r => String c EmptyString :: chars r
  end.

(** Longest prefix whose characters satisfy [p], and the rest. *)
Fixpoint span (p : ascii -> bool) (s : string) : string * string :=
  match s with
  | EmptyString => (EmptyString, EmptyString)
  | String c r =>
      if p c then let '(a, b) := span p r in (String c a, b)
      else (EmptyString, s)
  end.

Fixpoint forallb (p : ascii -> bool) (s : string) : bool :=
  match s with
  | EmptyString => true
  | String c r => p c && forallb p r
  end.

Fixpoint filter (p : ascii -> bool) (s : string) : string :=
  match s with
  | EmptyString => EmptyString
  | String c r => if p c then String c (filter p r) else filter p r
  end.

Fixpoint lastChar (s : string) : string :=
  match s with
  | EmptyString => EmptyString
  | String c EmptyString => s
  | String _ r => lastChar r
  end.

(** *** [Map<string, V>]: insertion-ordered, keys unique *)

Section MapOps.
Context {V : Type}.

Fixpoint map_get (k : string) (m : list (string * V)) : option V :=
  match m with
  | [] => None
  | (k', v) :: r => if String.eqb k k' then Some v else map_get k r
  end.

Definition map_has (k : string) (m : list (string * V)) : bool :=
  match map_get k m with Some _ => true | None => false end.

Fixpoint map_set (k : string) (v : V) (m : list (string * V))
  : list (string * V) :=
  match m with
  | [] => [(k, v)]
  | (k', v') :: r =>
      if String.eqb k k' then (k, v) :: r else (k', v') :: map_set k v r
  end.

(** [delete] leaves no binding of the key. *)
Fixpoint map_delete (k : string) (m : list (string * V))
  : list (string * V) :=
  match m with
  | [] => []
  | (k', v') :: r =>
      if String.eqb k k' then map_delete k r else (k', v') :: map_delete k r
  end.

Definition map_keys (m : list (string * V)) : list string := map fst m.
Definition map_values (m : list (string * V)) : list V := map snd m.
Definition map_size (m : list (string * V)) : nat := List.length m.
End MapOps.

(** *** [Set<string>]: insertion-ordered, no duplicates *)

Definition set_has (x : string) (s : list string) : bool :=
  existsb (String.eqb x) s.

Definition set_add (x : string) (s : list string) : list string :=
  if set_has x s then s else s ++ [x].

End Js.

(** ** The virtual filesystem (class [VFS]) *)

Module VFS.
Import Js.

Definition slash : ascii := Eval vm_compute in Ascii.ascii_of_nat 47.

Inductive FileType : Type := file | directory.

Definition FileType_eqb (a b : FileType) : bool :=
  match a, b with
  | file, file | directory, directory => true
  | _, _ => false
  end.

(** [FileNode].  The [parent] back-reference of the source is written by
    [createNode] and read by no operation; in a tree of values the parent
    of a node is the node above it, so the field is not stored.  Dates are
    integers (milliseconds). *)
Inductive FileNode : Type := mkFileNode {
  type : FileType;
  name : string;
  content : string;
  children : list (string * FileNode);
  createdAt : Z;
  modifiedAt : Z;
  permissions : string;
  owner : string;
  group : string
}.

Definition set_children (ch : list (string * FileNode)) (n : FileNode)
  : FileNode :=
  mkFileNode (type n) (name n) (content n) ch (createdAt n) (modifiedAt n)
             (permissions n) (owner n) (group n).

Definition set_content (c : string) (n : FileNode) : FileNode :=
  mkFileNode (type n) (name n) c (children n) (createdAt n) (modifiedAt n)
             (permissions n) (owner n) (group n).

Definition set_modifiedAt (d : Z) (n : FileNode) : FileNode :=
  mkFileNode (type n) (name n) (content n) (children n) (createdAt n) d
             (permissions n) (owner n) (group n).

(** The state of a [VFS] object. *)
Record t : Type := mkVFS {
  root : FileNode;
  _currentPath : string
}.

Definition set_root (r : FileNode) (vfs : t) : t :=
  mkVFS r (_currentPath vfs).

(** [createNode(type, name, parent, content)]; [now] is [new Date()]. *)
Definition createNode (now : Z) (ty : FileType) (nm : string)
    (cont : string) : FileNode :=
  mkFileNode ty nm cont [] now now
    (match ty with directory => "drwxr-xr-x" | file => "-rw-r--r--" end)
    "root" "root".

(** [normalizePath]: the [for] loop over the filtered parts, [pop] on an
    empty array being a no-op. *)
Definition normalizeStep (result : list string) (part : string)
  : list string :=
  if String.eqb part ".." then removelast result else result ++ [part].

(** The array [result] of [normalizePath] when its loop ends. *)
Definition normalizeResult (path : string) : list string :=
  let parts :=
    List.filter (fun p => truthy p && negb (String.eqb p "."))
                (split slash path) in
  fold_left normalizeStep parts [].

(** [normalizePath(path)] *)
Definition normalizePath (path : string) : string :=
  "/" +:+ join "/" (normalizeResult path).

(** [resolvePath(path)], as a function of [this._currentPath]. *)
Definition resolvePathFrom (currentPath path : string) : string :=
  if negb (truthy path) || String.eqb path "~" then "/home/guest"
  else if startsWith "/" path then normalizePath path
  else normalizePath (currentPath +:+ "/" +:+ path).

Definition resolvePath (vfs : t) (path : string) : string :=
  resolvePathFrom (_currentPath vfs) path.

(** [resolvedPath.split('/').filter(Boolean)] *)
Definition pathParts (resolvedPath : string) : list string :=
  List.filter truthy (split slash resolvedPath).

(** The [for] loop of [getNode]. *)
Fixpoint walk (parts : list string) (current : FileNode)
  : option FileNode :=
  match parts with
  | [] => Some current
  | part :: rest =>
      match map_get part (children current) with
      | None => None
      | Some child => walk rest child
      end
  end.

(** [getNode(path)]: [None] is [null]. *)
Definition getNode (vfs : t) (path : string) : option FileNode :=
  let resolvedPath := resolvePath vfs path in
  if String.eqb resolvedPath "/" then Some (root vfs)
  else walk (pathParts resolvedPath) (root vfs).

(** The object reference [getNode] returns is, in a tree of values, the
    list of keys followed from the root. *)
Definition nodeAddress (vfs : t) (path : string) : list string :=
  let resolvedPath := resolvePath vfs path in
  if String.eqb resolvedPath "/" then []
  else pathParts resolvedPath.

(** The segments of the resolved path: [resolvePath] is ["/"] followed by
    these, joined by ["/"] (lemma [resolvePathFrom_parts]). *)
Definition resolvedParts (currentPath path : string) : list string :=
  if negb (truthy path) || String.eqb path "~" then ["home"; "guest"]
  else if startsWith "/" path then normalizeResult path
  else normalizeResult (currentPath +:+ "/" +:+ path).

(** A segment of a normalized path: not empty, neither ["."] nor [".."],
    and free of ["/"]. *)
Definition cleanSegment (p : string) : Prop :=
  p <> EmptyString /\ p <> "." /\ p <> ".." /\ includes slash p = false.

(** The text of a list of segments, each behind a ["/"]. *)
Fixpoint rooted (parts : list string) : string :=
  match parts with
  | [] => EmptyString
  | p :: ps => "/" +:+ p +:+ rooted ps
  end.

(** In-place mutation of the node at an address. *)
Fixpoint modifyAt (addr : list string) (f : FileNode -> FileNode)
    (n : FileNode) : FileNode :=
  match addr with
  | [] => f n
  | k :: rest =>
      match map_get k (children n) with
      | None => n
      | Some c => set_children (map_set k (modifyAt rest f c) (children n)) n
      end
  end.

(** [resolvedPath.substring(0, resolvedPath.lastIndexOf('/')) || '/'] *)
Definition parentPathOf (resolvedPath : string) : string :=
  orElse (substring 0 (lastIndexOf slash resolvedPath) resolvedPath) "/".

(** [resolvedPath.substring(resolvedPath.lastIndexOf('/') + 1)] *)
Definition baseNameOf (resolvedPath : string) : string :=
  substringFrom (lastIndexOf slash resolvedPath + 1) resolvedPath.

(** How a mutator finds a path whose segments are [init] followed by [l]:
    the parent at address [init], the name [l], the node one key further. *)
Record Located (vfs : t) (p : string) (init : list string) (l : string)
  : Prop := mkLocated {
  located_parent :
    getNode vfs (parentPathOf (resolvePath vfs p)) = walk init (root vfs);
  located_address :
    nodeAddress vfs (parentPathOf (resolvePath vfs p)) = init;
  located_name : baseNameOf (resolvePath vfs p) = l;
  located_node :
    getNode vfs (resolvePath vfs p) = walk (init ++ [l]) (root vfs);
  located_path : getNode vfs p = walk (init ++ [l]) (root vfs)
}.

(** [mkdir(path)]: the result and the filesystem afterwards.  Both reads
    of the clock in one call are the instant [now]. *)
Definition mkdir (now : Z) (vfs : t) (path : string) : bool * t :=
  let resolvedPath := resolvePath vfs path in
  let parentPath := parentPathOf resolvedPath in
  let dirName := baseNameOf resolvedPath in
  match getNode vfs parentPath with
  | None => (false, vfs)
  | Some parent =>
      if negb (FileType_eqb (type parent) directory) then (false, vfs)
      else if map_has dirName (children parent) then (false, vfs)
      else
        let newDir := createNode now directory dirName EmptyString in
        (true,
         set_root
           (modifyAt (nodeAddress vfs parentPath)
              (fun p =>
                 set_modifiedAt now
                   (set_children (map_set dirName newDir (children p)) p))
              (root vfs))
           vfs)
  end.

(** [writeFile(path, content)] *)
Definition writeFile (now : Z) (vfs : t) (path cont : string) : bool * t :=
  let resolvedPath := resolvePath vfs path in
  let parentPath := parentPathOf resolvedPath in
  let fileName := baseNameOf resolvedPath in
  match getNode vfs parentPath with
  | None => (false, vfs)
  | Some parent =>
      if negb (FileType_eqb (type parent) directory) then (false, vfs)
      else
        match map_get fileName (children parent) with
        | Some existing =>
            if negb (FileType_eqb (type existing) file) then (false, vfs)
            else
              let updated := set_modifiedAt now (set_content cont existing) in
              (true,
               set_root
                 (modifyAt (nodeAddress vfs parentPath)
                    (fun p =>
                       set_modifiedAt now
                         (set_children
                            (map_set fileName updated (children p)) p))
                    (root vfs))
                 vfs)
        | None =>
            let newFile := createNode now file fileName cont in
            (true,
             set_root
               (modifyAt (nodeAddress vfs parentPath)
                  (fun p =>
                     set_modifiedAt now
                       (set_children
                          (map_set fileName newFile (children p)) p))
                  (root vfs))
               vfs)
        end
  end.

(** [readFile(path)]: [None] is [null]. *)
Definition readFile (vfs : t) (path : string) : option string :=
  match getNode vfs path with
  | None => None
  | Some node =>
      if negb (FileType_eqb (type node) file) then None
      else Some (content node)
  end.

(** [ls(path?)]; the optional argument is [None] when absent. *)
Definition ls (vfs : t) (path : option string) : option (list FileNode) :=
  let targetPath :=
    match path with
    | Some p => if truthy p then resolvePath vfs p else _currentPath vfs
    | None => _currentPath vfs
    end in
  match getNode vfs targetPath with
  | None => None
  | Some node =>
      if negb (FileType_eqb (type node) directory) then None
      else Some (map_values (children node))
  end.

(** [cd(path)] *)
Definition cd (vfs : t) (path : string) : bool * t :=
  let resolvedPath := resolvePath vfs path in
  match getNode vfs resolvedPath with
  | None => (false, vfs)
  | Some node =>
      if negb (FileType_eqb (type node) directory) then (false, vfs)
      else (true, mkVFS (root vfs) resolvedPath)
  end.

Definition pwd (vfs : t) : string := _currentPath vfs.

Definition exists_ (vfs : t) (path : string) : bool :=
  match getNode vfs path with Some _ => true | None => false end.

(** [rm(path, recursive)] *)
Definition rm (now : Z) (vfs : t) (path : string) (recursive : bool)
  : bool * t :=
  let resolvedPath := resolvePath vfs path in
  let parentPath := parentPathOf resolvedPath in
  let nm := baseNameOf resolvedPath in
  match getNode vfs parentPath, getNode vfs resolvedPath with
  | Some parent, Some node =>
      if FileType_eqb (type node) directory
         && (0 <? map_size (children node))%nat
         && negb recursive
      then (false, vfs)
      else
        (true,
         set_root
           (modifyAt (nodeAddress vfs parentPath)
              (fun p =>
                 set_modifiedAt now
                   (set_children (map_delete nm (children p)) p))
              (root vfs))
           vfs)
  | _, _ => (false, vfs)
  end.

Definition nl : string :=
  Eval vm_compute in String (Ascii.ascii_of_nat 10) EmptyString.
Definition dq : string :=
  Eval vm_compute in String (Ascii.ascii_of_nat 34) EmptyString.
Definition bs : string :=
  Eval vm_compute in String (Ascii.ascii_of_nat 92) EmptyString.

(** [initDefaultStructure()]: results of the calls are dropped. *)
Definition initDefaultStructure (now : Z) (vfs : t) : t :=
  let vfs := snd (mkdir now vfs "/bin") in
  let vfs := snd (mkdir now vfs "/etc") in
  let vfs := snd (mkdir now vfs "/home") in
  let vfs := snd (mkdir now vfs "/tmp") in
  let vfs := snd (mkdir now vfs "/usr") in
  let vfs := snd (mkdir now vfs "/var") in
  let vfs := snd (mkdir now vfs "/root") in
  let vfs := snd (mkdir now vfs "/proc") in
  let vfs := snd (mkdir now vfs "/home/guest") in
  let vfs := mkVFS (root vfs) "/home/guest" in
  let vfs := snd (writeFile now vfs "/etc/hostname" ("midrai" +:+ nl)) in
  let vfs :=
    snd (writeFile now vfs "/etc/motd"
           ("Welcome to Midrai Terminal!" +:+ nl)) in
  let vfs :=
    snd (writeFile now vfs "/home/guest/.bashrc"
           ("# .bashrc" +:+ nl +:+ "export PS1=" +:+ dq
            +:+ bs +:+ "u@" +:+ bs +:+ "h:" +:+ bs +:+ "w" +:+ bs +:+ "$ "
            +:+ dq +:+ nl)) in
  snd (writeFile now vfs "/home/guest/readme.txt"
         ("Welcome to the fake terminal!" +:+ nl +:+ nl
          +:+ "Try typing some commands like:" +:+ nl
          +:+ "  ls, cd, pwd, cat, echo, mkdir, touch, rm" +:+ nl)).

(** [new VFS()] *)
Definition new (now : Z) : t :=
  initDefaultStructure now
    (mkVFS (createNode now directory EmptyString EmptyString) "/").

(** [FileStat] *)
Record FileStat : Type := mkFileStat {
  st_type : FileType;
  st_size : Z;
  st_createdAt : Z;
  st_modifiedAt : Z;
  st_permissions : string;
  st_owner : string;
  st_group : string
}.

(** [stat(path)]: [None] is [null]. *)
Definition stat (vfs : t) (path : string) : option FileStat :=
  match getNode vfs path with
  | None => None
  | Some node =>
      Some (mkFileStat (type node)
              (if FileType_eqb (type node) file then len (content node)
               else 0%Z)
              (createdAt node) (modifiedAt node) (permissions node)
              (owner node) (group node))
  end.

(** [cp(src, dest, recursive)].  The recursion follows the tree, which the
    copy itself may extend: [fuel] bounds the depth of the calls and the
    length of each loop, and [None] is a run that needs more.  The loop
    over [srcNode.children] is the iteration of a live [Map]: it visits the
    entries of the node at the source address as they are when it reaches
    them, in insertion order.  The results of [mkdir], [writeFile] and of
    the inner calls are dropped, as in the source. *)
Fixpoint cp (fuel : nat) (now : Z) (vfs : t) (src dest : string)
    (recursive : bool) : option (bool * t) :=
  match fuel with
  | O => None
  | S fuel' =>
      match getNode vfs src with
      | None => Some (false, vfs)
      | Some srcNode =>
          if FileType_eqb (type srcNode) directory && negb recursive
          then Some (false, vfs)
          else
            let destPath := resolvePath vfs dest in
            let destParentPath := parentPathOf destPath in
            match getNode vfs destParentPath with
            | None => Some (false, vfs)
            | Some destParent =>
                if negb (FileType_eqb (type destParent) directory)
                then Some (false, vfs)
                else if FileType_eqb (type srcNode) directory then
                  let srcAddress := nodeAddress vfs src in
                  match
                    (fix loop (k i : nat) (v : t) : option t :=
                       match k with
                       | O => None
                       | S k' =>
                           match walk srcAddress (root v) with
                           | None => Some v
                           | Some node =>
                               match nth_error (children node) i with
                               | None => Some v
                               | Some (nm, _) =>
                                   match
                                     cp fuel' now v (src +:+ "/" +:+ nm)
                                        (dest +:+ "/" +:+ nm) true
                                   with
                                   | None => None
                                   | Some (_, v') => loop k' (S i) v'
                                   end
                               end
                           end
                       end) fuel' 0%nat (snd (mkdir now vfs destPath))
                  with
                  | None => None
                  | Some v => Some (true, v)
                  end
                else
                  Some (true,
                        snd (writeFile now vfs destPath (content srcNode)))
            end
      end
  end.

(** [mv(src, dest)]: copy, then remove the source. *)
Definition mv (fuel : nat) (now : Z) (vfs : t) (src dest : string)
  : option (bool * t) :=
  match cp fuel now vfs src dest true with
  | None => None
  | Some (false, vfs') => Some (false, vfs')
  | Some (true, vfs') => Some (rm now vfs' src true)
  end.

(** The shape every node of the tree is meant to have: a file has no
    children, the keys of a child map are distinct, and each child is
    stored under its own name. *)
Fixpoint wellFormed (n : FileNode) : Prop :=
  match n with
  | mkFileNode ty _ _ ch _ _ _ _ _ =>
      (ty = file -> ch = [])
      /\ List.NoDup (map fst ch)
      /\ (fix each (l : list (string * FileNode)) : Prop :=
            match l with
            | [] => True
            | (k, c) :: r => name c = k /\ wellFormed c /\ each r
            end) ch
  end.

(** What [readFile] looks at in a node. *)
Definition fileView (o : option FileNode) : option (FileType * string) :=
  match o with
  | Some n => Some (type n, content n)
  | None => None
  end.

End VFS.

(** ** The command dispatcher (class [CLI]) *)

Module CLI.
Import Js.

Definition space : ascii := Eval vm_compute in Ascii.ascii_of_nat 32.
Definition dquote : ascii := Eval vm_compute in Ascii.ascii_of_nat 34.
Definition squote : ascii := Eval vm_compute in Ascii.ascii_of_nat 39.
Definition backslash : ascii := Eval vm_compute in Ascii.ascii_of_nat 92.
Definition dash : ascii := Eval vm_compute in Ascii.ascii_of_nat 45.
Definition equals : ascii := Eval vm_compute in Ascii.ascii_of_nat 61.

(** One call on the [OutputHandler]; the sink is the list of calls made. *)
Inductive OutputCall : Type :=
| Println (text : string)
| Print (text : string)
| Error (text : string)
| Warn (text : string)
| Success (text : string)
| Clear.

(** [CommandContext]; the [output] member is the sink, whose calls a handler
    hands back in its result. *)
Record CommandContext : Type := mkContext {
  ctx_vfs : VFS.t;
  ctx_env : gmap string string;
  ctx_cwd : string;
  ctx_args : list string;
  ctx_flags : list string
}.

(** How a handler ends: it returns (or resolves to) a number, or it throws;
    [Thrown (Some m)] is an [Error] with message [m], [Thrown None] any
    other thrown value. *)
Inductive Completion : Type :=
| Returned (code : Z)
| Thrown (message : option string).

(** What a handler does to the state the dispatcher holds: the filesystem
    it leaves and its calls on the sink.  These are the effects of the
    commands of [commands/]; a handler that closes over the shell and
    writes its environment, as the exam commands do, has an effect that
    this record does not hold. *)
Record HandlerResult : Type := mkHandlerResult {
  outcome : Completion;
  vfsAfter : VFS.t;
  emitted : list OutputCall
}.

Record CommandDefinition : Type := mkCommand {
  cmd_name : string;
  cmd_description : string;
  cmd_usage : string;
  cmd_execute : CommandContext -> HandlerResult;
  cmd_complete : option (string -> CommandContext -> list string)
}.

(** The state of a [CLI] object. *)
Record t : Type := mkCLI {
  commands : list (string * CommandDefinition);
  vfs : VFS.t;
  env : gmap string string;
  output : list OutputCall
}.

(** [new CLI(vfs, env, output)]: no command registered, nothing written to
    the sink yet. *)
Definition new (vfs : VFS.t) (env : gmap string string) : t :=
  mkCLI [] vfs env [].

Definition registerCommand (cli : t) (command : CommandDefinition) : t :=
  mkCLI (map_set (cmd_name command) command (commands cli))
        (vfs cli) (env cli) (output cli).

Definition registerCommands (cli : t) (cmds : list CommandDefinition) : t :=
  fold_left registerCommand cmds cli.

(** *** [tokenize] *)

Record TokenizerState : Type := mkTok {
  tokens : list string;
  current : string;
  inQuote : option ascii;
  escaped : bool
}.

Definition addChar (s : string) (c : ascii) : string :=
  s +:+ String c EmptyString.

(** The body of the [for (const char of input)] loop. *)
Definition tokenizeStep (st : TokenizerState) (char : ascii)
  : TokenizerState :=
  if escaped st then
    mkTok (tokens st) (addChar (current st) char) (inQuote st) false
  else if Ascii.eqb char backslash then
    mkTok (tokens st) (current st) (inQuote st) true
  else if Ascii.eqb char dquote || Ascii.eqb char squote then
    match inQuote st with
    | None => mkTok (tokens st) (current st) (Some char) (escaped st)
    | Some q =>
        if Ascii.eqb q char
        then mkTok (tokens st) (current st) None (escaped st)
        else mkTok (tokens st) (addChar (current st) char) (inQuote st)
                   (escaped st)
    end
  else if Ascii.eqb char space
          && match inQuote st with None => true | Some _ => false end then
    if truthy (current st)
    then mkTok (tokens st ++ [current st]) EmptyString (inQuote st)
               (escaped st)
    else st
  else mkTok (tokens st) (addChar (current st) char) (inQuote st)
             (escaped st).

Fixpoint tokenizeLoop (input : string) (st : TokenizerState)
  : TokenizerState :=
  match input with
  | EmptyString => st
  | String char rest => tokenizeLoop rest (tokenizeStep st char)
  end.

Definition tokenize (input : string) : list string :=
  let st := tokenizeLoop input (mkTok [] EmptyString None false) in
  if truthy (current st) then tokens st ++ [current st] else tokens st.

(** *** [parseInput] *)

Record Parsed : Type := mkParsed {
  command : string;
  args : list string;
  flags : list string
}.

(** The body of the loop over [tokens[1..]], on the pair (args, flags). *)
Definition parseToken (acc : list string * list string) (token : string)
  : list string * list string :=
  let '(args, flags) := acc in
  if startsWith "--" token then
    (args, set_add (substringFrom 2 token) flags)
  else if startsWith "-" token && (1 <? len token)%Z then
    (args, fold_left (fun fl ch => set_add ch fl) (skipn 1 (chars token)) flags)
  else (args ++ [token], flags).

Definition parseInput (input : string) : Parsed :=
  let tokens := tokenize input in
  let command :=
    match tokens with
    | [] => EmptyString
    | t0 :: _ => orElse t0 EmptyString
    end in
  let '(args, flags) := fold_left parseToken (tl tokens) ([], []) in
  mkParsed command args flags.

(** *** The regular expressions of [execute] *)

(** The one-shot assignment pattern: an identifier, [=], a non-empty run of
    [\S], a non-empty run of [\s], and a non-empty run of [.] up to the end
    of the string; the three groups on success.  The identifier and the
    [\S] run are forced to be maximal by the character that must follow
    them.  The [\s] run is taken greedily; it gives back its last character
    to the third group only when nothing else is left for that group. *)
Definition matchAssignment (s : string)
  : option (string * string * string) :=
  match s with
  | EmptyString => None
  | String c r =>
      if negb (isIdentStart c) then None
      else
        let '(restName, afterName) := span isIdentChar r in
        match afterName with
        | EmptyString => None
        | String e afterEq =>
            if negb (Ascii.eqb e equals) then None
            else
              let '(value, afterValue) :=
                span (fun x => negb (isWhiteSpace x)) afterEq in
              let '(ws, tail) := span isWhiteSpace afterValue in
              if negb (truthy value) || negb (truthy ws) then None
              else if negb (Js.forallb (fun x => negb (isLineTerminator x)) tail)
              then None
              else if truthy tail then Some (String c restName, value, tail)
              else if (2 <=? len ws)%Z
                      && Js.forallb (fun x => negb (isLineTerminator x))
                                    (lastChar ws)
              then Some (String c restName, value, lastChar ws)
              else None
        end
  end.

(** [s.match] of the pattern "starts with a letter or an underscore". *)
Definition matchIdentStart (s : string) : bool :=
  match s with
  | EmptyString => false
  | String c _ => isIdentStart c
  end.

(** [s.match] of the pattern "is an identifier, from start to end". *)
Definition matchIdentifier (s : string) : bool :=
  match s with
  | EmptyString => false
  | String c r => isIdentStart c && Js.forallb isIdentChar r
  end.

(** [s.replace] of every double or single quote by nothing. *)
Definition stripQuotes (s : string) : string :=
  Js.filter (fun c => negb (Ascii.eqb c dquote || Ascii.eqb c squote)) s.

(** The block of [execute] that handles a persistent assignment: the new
    environment when the block returns, [None] when control falls through. *)
Definition assignmentBlock (trimmed : string) (env : gmap string string)
  : option (gmap string string) :=
  if includes equals trimmed && negb (matchIdentStart trimmed) then
    match split equals trimmed with
    | varName :: rest =>
        if (0 <? List.length rest)%nat && matchIdentifier varName
        then Some (<[varName := stripQuotes (join "=" rest)]> env)
        else None
    | [] => None
    end
  else None.

(** *** [execute] *)

(** The command name [execute] looks up for an input: the first token of
    the trimmed line, or of what follows a one-shot assignment. *)
Definition commandNameOf (input : string) : string :=
  let trimmed := trim input in
  command
    (parseInput
       match matchAssignment trimmed with
       | Some (_, _, rest) => rest
       | None => trimmed
       end).

Definition emit (cli : t) (calls : list OutputCall) : t :=
  mkCLI (commands cli) (vfs cli) (env cli) (output cli ++ calls).

(** [localEnv[name] = value] on the empty object, as the spread
    [{...localEnv}] reads it afterwards.  The assignment makes an own
    property, except for the name ["__proto__"]: that one goes to the
    setter inherited from [Object.prototype], which ignores a string, and
    the object stays without own property. *)
Definition localEnvOf (n v : string) : gmap string string :=
  if String.eqb n "__proto__" then ∅ else <[n := v]> ∅.

(** [execute(input)]: the exit status the promise resolves to, and the
    dispatcher afterwards. *)
Definition execute (cli : t) (input : string) : Z * t :=
  let trimmed := trim input in
  if negb (truthy trimmed) then (0%Z, cli)
  else
    let '(commandLine, localEnv) :=
      match matchAssignment trimmed with
      | Some (n, v, rest) => (rest, localEnvOf n v)
      | None => (trimmed, ∅)
      end in
    let parsed := parseInput commandLine in
    if negb (truthy (command parsed)) then (0%Z, cli)
    else
      match assignmentBlock trimmed (env cli) with
      | Some env' => (0%Z, mkCLI (commands cli) (vfs cli) env' (output cli))
      | None =>
          match map_get (command parsed) (commands cli) with
          | None =>
              (127%Z,
               emit cli [Error (command parsed +:+ ": command not found")])
          | Some cmd =>
              let context :=
                mkContext (vfs cli) (localEnv ∪ env cli) (VFS.pwd (vfs cli))
                          (args parsed) (flags parsed) in
              let r := cmd_execute cmd context in
              let cli' :=
                mkCLI (commands cli) (vfsAfter r) (env cli)
                      (output cli ++ emitted r) in
              match outcome r with
              | Returned code => (code, cli')
              | Thrown message =>
                  (1%Z,
                   emit cli'
                     [Error (command parsed +:+ ": " +:+
                             match message with
                             | Some m => m
                             | None => "Unknown error"
                             end)])
              end
          end
      end.

(** *** [complete] *)

Definition complete (cli : t) (input : string) : list string :=
  let parsed := parseInput input in
  if (List.length (args parsed) =? 0)%nat && negb (endsWithChar space input)
  then List.filter (fun cmd => startsWith (command parsed) cmd)
                   (map_keys (commands cli))
  else
    let lastArg :=
      match last (args parsed) with
      | Some a => orElse a EmptyString
      | None => EmptyString
      end in
    let cmdComplete :=
      match map_get (command parsed) (commands cli) with
      | Some cmd => cmd_complete cmd
      | None => None
      end in
    match cmdComplete with
    | Some f =>
        f lastArg
          (mkContext (vfs cli) (env cli) (VFS.pwd (vfs cli)) (args parsed) [])
    | None =>
        let hasSlash := includes VFS.slash lastArg in
        let path :=
          if hasSlash
          then substring 0 (lastIndexOf VFS.slash lastArg + 1) lastArg
          else "." in
        let prefix :=
          if hasSlash
          then substringFrom (lastIndexOf VFS.slash lastArg + 1) lastArg
          else lastArg in
        let entries :=
          match VFS.ls (vfs cli) (Some path) with
          | Some l => l
          | None => []
          end in
        map (fun entry =>
               let suffix :=
                 if VFS.FileType_eqb (VFS.type entry) VFS.directory
                 then "/" else EmptyString in
               if hasSlash then path +:+ VFS.name entry +:+ suffix
               else VFS.name entry +:+ suffix)
            (List.filter (fun entry => startsWith prefix (VFS.name entry))
                         entries)
    end.

(** [unregisterCommand(name)]: whether the name was registered, and the
    dispatcher afterwards. *)
Definition unregisterCommand (cli : t) (nm : string) : bool * t :=
  (map_has nm (commands cli),
   mkCLI (map_delete nm (commands cli)) (vfs cli) (env cli) (output cli)).

Definition getCommands (cli : t) : list CommandDefinition :=
  map_values (commands cli).

Definition getCommand (cli : t) (nm : string) : option CommandDefinition :=
  map_get nm (commands cli).

Definition hasCommand (cli : t) (nm : string) : bool :=
  map_has nm (commands cli).

(** The end of [tokenize]: the token under construction is pushed when it
    is not empty. *)
Definition flush (st : TokenizerState) : list string :=
  if truthy (current st) then tokens st ++ [current st] else tokens st.

(** The characters [tokenize] treats specially besides the space. *)
Definition isPlain (c : ascii) : bool :=
  negb (Ascii.eqb c backslash || Ascii.eqb c dquote || Ascii.eqb c squote).

(** A character of a bare word: the tokenizer takes it as it is and it is
    not whitespace. *)
Definition isWordChar (c : ascii) : bool := isPlain c && negb (isWhiteSpace c).

(** The environment of the handler's context for an input: the global one
    under the one-shot assignment, if the line starts with one. *)
Definition contextEnvOf (cli : t) (input : string) : gmap string string :=
  match matchAssignment (trim input) with
  | Some (n, v, _) => localEnvOf n v ∪ env cli
  | None => (∅ : gmap string string) ∪ env cli
  end.

(** The line [execute] parses for an input. *)
Definition commandLineOf (input : string) : string :=
  match matchAssignment (trim input) with
  | Some (_, _, rest) => rest
  | None => trim input
  end.

(** The context [execute] builds for an input. *)
Definition contextOf (cli : t) (input : string) : CommandContext :=
  mkContext (vfs cli) (contextEnvOf cli input) (VFS.pwd (vfs cli))
            (args (parseInput (commandLineOf input)))
            (flags (parseInput (commandLineOf input))).

End CLI.

(** ** The line editor (class [FakeShell]) *)

Module FakeShell.
Import Js.
Local Open Scope Z_scope.

(** The editor state.  [cli] holds the dispatcher together with the
    filesystem and the environment, which the shell shares with it.  Writes
    to the terminal (echo, prompt, redraw, cursor movement) read the state
    and never change it; they are not part of the state. *)
Record t : Type := mkShell {
  cli : CLI.t;
  inputBuffer : string;
  cursorPosition : Z;
  commandHistory : list string;
  historyIndex : Z;
  isProcessing : bool
}.

Definition key (codes : list nat) : string :=
  String.string_of_list_ascii (map Ascii.ascii_of_nat codes).

Definition ESC (s : string) : string := String (Ascii.ascii_of_nat 27) s.

Definition keyEnter : string := Eval vm_compute in key [13%nat].
Definition keyDel : string := Eval vm_compute in key [127%nat].
Definition keyBackspace : string := Eval vm_compute in key [8%nat].
Definition keyDelete : string := Eval vm_compute in ESC "[3~".
Definition keyUp : string := Eval vm_compute in ESC "[A".
Definition keyDown : string := Eval vm_compute in ESC "[B".
Definition keyRight : string := Eval vm_compute in ESC "[C".
Definition keyLeft : string := Eval vm_compute in ESC "[D".
Definition keyHome : string := Eval vm_compute in ESC "[H".
Definition keyCtrlA : string := Eval vm_compute in key [1%nat].
Definition keyEnd : string := Eval vm_compute in ESC "[F".
Definition keyCtrlE : string := Eval vm_compute in key [5%nat].
Definition keyCtrlL : string := Eval vm_compute in key [12%nat].
Definition keyTab : string := Eval vm_compute in key [9%nat].
Definition keyCtrlU : string := Eval vm_compute in key [21%nat].

(** The environment the constructor builds when [options] sets none. *)
Definition defaultEnv : gmap string string :=
  <["USER" := "guest"]>
    (<["HOSTNAME" := "midrai"]>
       (<["HOME" := "/home/guest"]>
          (<["PATH" := "/usr/local/bin:/usr/bin:/bin"]>
             (<["PWD" := "/home/guest"]> ∅)))).

(** [new FakeShell(options)] with the dispatcher already built. *)
Definition new (c : CLI.t) : t := mkShell c EmptyString 0 [] (-1) false.

Definition getHistory (sh : t) : list string := commandHistory sh.

Definition setBuffer (sh : t) (buf : string) (cur : Z) : t :=
  mkShell (cli sh) buf cur (commandHistory sh) (historyIndex sh)
          (isProcessing sh).

Definition insertChar (sh : t) (char : string) : t :=
  let before := slice 0 (cursorPosition sh) (inputBuffer sh) in
  let after := sliceFrom (cursorPosition sh) (inputBuffer sh) in
  setBuffer sh (before +:+ char +:+ after) (cursorPosition sh + 1).

Definition handleBackspace (sh : t) : t :=
  if 0 <? cursorPosition sh then
    let before := slice 0 (cursorPosition sh - 1) (inputBuffer sh) in
    let after := sliceFrom (cursorPosition sh) (inputBuffer sh) in
    setBuffer sh (before +:+ after) (cursorPosition sh - 1)
  else sh.

Definition handleDelete (sh : t) : t :=
  if cursorPosition sh <? len (inputBuffer sh) then
    let before := slice 0 (cursorPosition sh) (inputBuffer sh) in
    let after := sliceFrom (cursorPosition sh + 1) (inputBuffer sh) in
    setBuffer sh (before +:+ after) (cursorPosition sh)
  else sh.

Definition handleCursorLeft (sh : t) : t :=
  if 0 <? cursorPosition sh
  then setBuffer sh (inputBuffer sh) (cursorPosition sh - 1)
  else sh.

Definition handleCursorRight (sh : t) : t :=
  if cursorPosition sh <? len (inputBuffer sh)
  then setBuffer sh (inputBuffer sh) (cursorPosition sh + 1)
  else sh.

Definition handleHome (sh : t) : t := setBuffer sh (inputBuffer sh) 0.

Definition handleEnd (sh : t) : t :=
  setBuffer sh (inputBuffer sh) (len (inputBuffer sh)).

(** [this.commandHistory[i]]: [None] is [undefined]. *)
Definition historyAt (sh : t) (i : Z) : option string :=
  if i <? 0 then None else nth_error (commandHistory sh) (Z.to_nat i).

(** Loads history entry [length - 1 - idx] into the buffer.  Reading
    [length] of an [undefined] entry throws: the result is then [None]. *)
Definition browseTo (sh : t) (idx : Z) : option t :=
  match historyAt sh (Z.of_nat (List.length (commandHistory sh)) - 1 - idx) with
  | Some entry =>
      Some (mkShell (cli sh) entry (len entry) (commandHistory sh) idx
                    (isProcessing sh))
  | None => None
  end.

Definition handleHistoryUp (sh : t) : option t :=
  if historyIndex sh <? Z.of_nat (List.length (commandHistory sh)) - 1
  then browseTo sh (historyIndex sh + 1)
  else Some sh.

Definition handleHistoryDown (sh : t) : option t :=
  if 0 <? historyIndex sh then browseTo sh (historyIndex sh - 1)
  else if historyIndex sh =? 0 then
    Some (mkShell (cli sh) EmptyString 0 (commandHistory sh) (-1)
                  (isProcessing sh))
  else Some sh.

Definition handleTab (sh : t) : t :=
  match CLI.complete (cli sh) (inputBuffer sh) with
  | [only] =>
      let lastSpace := lastIndexOf CLI.space (inputBuffer sh) in
      let buf :=
        if lastSpace =? -1 then only +:+ " "
        else slice 0 (lastSpace + 1) (inputBuffer sh) +:+ only in
      setBuffer sh buf (len buf)
  | _ => sh
  end.

Definition clearLine (sh : t) : t := setBuffer sh EmptyString 0.

(** [executeCommand], from its call up to the point where it returns or
    suspends on [await this.cli.execute(command)].  The dispatcher runs the
    command during that call; the shell is then left processing. *)
Definition executeCommand (sh : t) : t :=
  let command := trim (inputBuffer sh) in
  if truthy command then
    let history := commandHistory sh ++ [command] in
    if String.eqb command "exit" then
      mkShell (cli sh) (inputBuffer sh) (cursorPosition sh) history (-1)
              (isProcessing sh)
    else
      let '(_, cli') := CLI.execute (cli sh) command in
      mkShell cli' (inputBuffer sh) (cursorPosition sh) history (-1) true
  else setBuffer sh EmptyString 0.

(** The rest of [executeCommand], run when the awaited promise settles.
    A call is suspended exactly when [isProcessing] is set. *)
Definition resumeCommand (sh : t) : t :=
  if isProcessing sh then
    mkShell (cli sh) EmptyString 0 (commandHistory sh) (historyIndex sh) false
  else sh.

Definition isOneOf (data : string) (keys : list string) : bool :=
  existsb (String.eqb data) keys.

(** [handleInput(data)]; [None] when the handler throws. *)
Definition handleInput (sh : t) (data : string) : option t :=
  if isProcessing sh then Some sh
  else if String.eqb data keyEnter then Some (executeCommand sh)
  else if isOneOf data [keyDel; keyBackspace] then Some (handleBackspace sh)
  else if String.eqb data keyDelete then Some (handleDelete sh)
  else if String.eqb data keyUp then handleHistoryUp sh
  else if String.eqb data keyDown then handleHistoryDown sh
  else if String.eqb data keyRight then Some (handleCursorRight sh)
  else if String.eqb data keyLeft then Some (handleCursorLeft sh)
  else if isOneOf data [keyHome; keyCtrlA] then Some (handleHome sh)
  else if isOneOf data [keyEnd; keyCtrlE] then Some (handleEnd sh)
  else if String.eqb data keyCtrlL then Some sh
  else if String.eqb data keyTab then Some (handleTab sh)
  else if String.eqb data keyCtrlU then Some (clearLine sh)
  else if match charCodeAt0 data with
          | Some code => 32 <=? code
          | None => false
          end || (1 <? len data)
  then Some (insertChar sh data)
  else Some sh.

(** What the editor reacts to: data from the terminal, and the settling of
    the command in flight. *)
Inductive Event : Type :=
| Data (data : string)
| Settled.

Definition step (sh : t) (ev : Event) : option t :=
  match ev with
  | Data data => handleInput sh data
  | Settled => Some (resumeCommand sh)
  end.

(** The events of a session, in their order of arrival. *)
Definition run (sh : t) (events : list Event) : option t :=
  fold_left
    (fun st ev =>
       match st with
       | Some sh' => step sh' ev
       | None => None
       end)
    events (Some sh).

(** States the editor can be in: a new shell, and whatever an event makes
    of a reachable state. *)
Inductive reachable : t -> Prop :=
| reachable_new (c : CLI.t) : reachable (new c)
| reachable_step (sh sh' : t) (ev : Event) :
    reachable sh -> step sh ev = Some sh' -> reachable sh'.

(** A character that is inserted when it arrives alone: its code is 32 or
    more and it is not DEL. *)
Definition printable (a : ascii) : bool :=
  let n := nat_of_ascii a in (32 <=? n)%nat && negb (n =? 127)%nat.

(** The data that [handleInput] passes to [insertChar]: none of the keys
    it knows, and a first code unit of 32 or more or more than one code
    unit (a character outside the basic plane, an input-method commit, a
    paste). *)
Definition isInserted (data : string) : bool :=
  negb (isOneOf data
          [keyEnter; keyDel; keyBackspace; keyDelete; keyUp; keyDown;
           keyRight; keyLeft; keyHome; keyCtrlA; keyEnd; keyCtrlE;
           keyCtrlL; keyTab; keyCtrlU])
  && (match charCodeAt0 data with
      | Some code => 32 <=? code
      | None => false
      end || (1 <? len data)).

(** The bounds on the cursor and on the history index. *)
Definition bounds (sh : t) : Prop :=
  0 <= cursorPosition sh <= len (inputBuffer sh)
  /\ -1 <= historyIndex sh <= Z.of_nat (List.length (commandHistory sh)) - 1.

End FakeShell.

(** ** Built-in commands (the handlers that call the filesystem)

    Each handler is a [CommandDefinition]; [now] is the instant of the
    call for the handlers that write to the filesystem. *)

Module Commands.
Import Js CLI.

Definition newline : ascii := Eval vm_compute in Ascii.ascii_of_nat 10.

(** The completion function shared by the file commands:
    [vfs.ls('.')], filtered by [keep] and by prefix, each name followed by
    ["/"] when [slashDirs] is set and the entry is a directory. *)
Definition completeEntries (keep : VFS.FileNode -> bool) (slashDirs : bool)
    (partial : string) (ctx : CommandContext) : list string :=
  let entries :=
    match VFS.ls (ctx_vfs ctx) (Some ".") with
    | Some l => l
    | None => []
    end in
  map (fun e =>
         VFS.name e +:+
         (if slashDirs && VFS.FileType_eqb (VFS.type e) VFS.directory
          then "/" else EmptyString))
      (List.filter (fun e => keep e && startsWith partial (VFS.name e))
                   entries).

(** [pwd] *)
Definition pwd : CommandDefinition :=
  mkCommand "pwd" "Print the current working directory" "pwd"
    (fun ctx =>
       mkHandlerResult (Returned 0) (ctx_vfs ctx)
         [Println (VFS.pwd (ctx_vfs ctx))])
    None.

(** [whoami]: [println(undefined)] prints the default, the empty text. *)
Definition whoami : CommandDefinition :=
  mkCommand "whoami" "Print the current user" "whoami"
    (fun ctx =>
       mkHandlerResult (Returned 0) (ctx_vfs ctx)
         [Println (default EmptyString (ctx_env ctx !! "USER"))])
    None.

(** [history] *)
Definition history : CommandDefinition :=
  mkCommand "history" "Show command history" "history"
    (fun ctx =>
       mkHandlerResult (Returned 0) (ctx_vfs ctx)
         [Println "Command history is managed by the shell."])
    None.

(** [cd]: the path is [args[0] || env.HOME], possibly [undefined]. *)
Definition cdPath (ctx : CommandContext) : option string :=
  match ctx_args ctx with
  | a :: _ => if truthy a then Some a else ctx_env ctx !! "HOME"
  | [] => ctx_env ctx !! "HOME"
  end.

Definition cd : CommandDefinition :=
  mkCommand "cd" "Change the current directory" "cd [DIRECTORY]"
    (fun ctx =>
       let path := cdPath ctx in
       let '(ok, vfs') := VFS.cd (ctx_vfs ctx) (default EmptyString path) in
       if ok then mkHandlerResult (Returned 0) vfs' []
       else
         mkHandlerResult (Returned 1) vfs'
           [Error ("cd: " +:+ default "undefined" path
                   +:+ ": No such file or directory")])
    (Some (completeEntries
             (fun e => VFS.FileType_eqb (VFS.type e) VFS.directory) true)).

(** The state of a loop over the arguments: filesystem, calls on the sink,
    exit code. *)
Record Progress : Type := mkProgress {
  pr_vfs : VFS.t;
  pr_out : list OutputCall;
  pr_code : Z
}.

Definition finish (p : Progress) : HandlerResult :=
  mkHandlerResult (Returned (pr_code p)) (pr_vfs p) (pr_out p).

(** [mkdir] *)
Definition mkdirStep (now : Z) (p : Progress) (path : string) : Progress :=
  let '(ok, vfs') := VFS.mkdir now (pr_vfs p) path in
  if ok then mkProgress vfs' (pr_out p) (pr_code p)
  else
    mkProgress vfs'
      (pr_out p ++
       [Error ("mkdir: cannot create directory '" +:+ path
               +:+ "': File exists")])
      1.

Definition mkdir (now : Z) : CommandDefinition :=
  mkCommand "mkdir" "Create directories" "mkdir [OPTION]... DIRECTORY..."
    (fun ctx =>
       match ctx_args ctx with
       | [] =>
           mkHandlerResult (Returned 1) (ctx_vfs ctx)
             [Error "mkdir: missing operand"]
       | _ =>
           finish (fold_left (mkdirStep now) (ctx_args ctx)
                     (mkProgress (ctx_vfs ctx) [] 0))
       end)
    None.

(** [touch] *)
Definition touchStep (now : Z) (v : VFS.t) (path : string) : VFS.t :=
  match VFS.readFile v path with
  | Some existing => snd (VFS.writeFile now v path existing)
  | None => snd (VFS.writeFile now v path EmptyString)
  end.

Definition touch (now : Z) : CommandDefinition :=
  mkCommand "touch" "Create empty files or update timestamps"
    "touch [OPTION]... FILE..."
    (fun ctx =>
       match ctx_args ctx with
       | [] =>
           mkHandlerResult (Returned 1) (ctx_vfs ctx)
             [Error "touch: missing file operand"]
       | _ =>
           mkHandlerResult (Returned 0)
             (fold_left (touchStep now) (ctx_args ctx) (ctx_vfs ctx)) []
       end)
    (Some (completeEntries (fun _ => true) false)).

(** [cat]: the loop stops at the first path that is not a file. *)
Fixpoint catLoop (v : VFS.t) (paths : list string) (out : list OutputCall)
  : Z * list OutputCall :=
  match paths with
  | [] => (0%Z, out)
  | path :: rest =>
      match VFS.readFile v path with
      | None =>
          let isDir :=
            match VFS.stat v path with
            | Some st => VFS.FileType_eqb (VFS.st_type st) VFS.directory
            | None => false
            end in
          (1%Z,
           out ++
           [Error (if isDir then "cat: " +:+ path +:+ ": Is a directory"
                   else "cat: " +:+ path +:+ ": No such file or directory")])
      | Some content =>
          catLoop v rest
            (out ++ Print content ::
               (if endsWithChar newline content then []
                else [Println EmptyString]))
      end
  end.

Definition cat : CommandDefinition :=
  mkCommand "cat" "Concatenate and print files" "cat [FILE]..."
    (fun ctx =>
       match ctx_args ctx with
       | [] =>
           mkHandlerResult (Returned 1) (ctx_vfs ctx)
             [Error "cat: missing file operand"]
       | _ =>
           let '(code, out) := catLoop (ctx_vfs ctx) (ctx_args ctx) [] in
           mkHandlerResult (Returned code) (ctx_vfs ctx) out
       end)
    (Some (completeEntries
             (fun e => VFS.FileType_eqb (VFS.type e) VFS.file) false)).

(** [rm] *)
Definition rmStep (now : Z) (recursive force : bool) (p : Progress)
    (path : string) : Progress :=
  match VFS.stat (pr_vfs p) path with
  | None =>
      if negb force then
        mkProgress (pr_vfs p)
          (pr_out p ++
           [Error ("rm: cannot remove '" +:+ path
                   +:+ "': No such file or directory")])
          1
      else p
  | Some st =>
      if VFS.FileType_eqb (VFS.st_type st) VFS.directory && negb recursive
      then
        mkProgress (pr_vfs p)
          (pr_out p ++
           [Error ("rm: cannot remove '" +:+ path +:+ "': Is a directory")])
          1
      else
        let '(ok, vfs') := VFS.rm now (pr_vfs p) path recursive in
        if ok then mkProgress vfs' (pr_out p) (pr_code p)
        else
          mkProgress vfs'
            (if negb force then
               pr_out p ++
               [Error ("rm: cannot remove '" +:+ path
                       +:+ "': Permission denied")]
             else pr_out p)
            1
  end.

Definition rm (now : Z) : CommandDefinition :=
  mkCommand "rm" "Remove files or directories" "rm [OPTION]... FILE..."
    (fun ctx =>
       let recursive :=
         set_has "r" (ctx_flags ctx) || set_has "R" (ctx_flags ctx)
         || set_has "recursive" (ctx_flags ctx) in
       let force :=
         set_has "f" (ctx_flags ctx) || set_has "force" (ctx_flags ctx) in
       match ctx_args ctx with
       | [] =>
           mkHandlerResult (Returned 1) (ctx_vfs ctx)
             (if negb force then [Error "rm: missing operand"] else [])
       | _ =>
           finish (fold_left (rmStep now recursive force) (ctx_args ctx)
                     (mkProgress (ctx_vfs ctx) [] 0))
       end)
    (Some (completeEntries (fun _ => true) true)).

End Commands.

(** ** The prompt (class [PromptManager], default formatter) *)

Module PromptManager.
Import Js.

(** A value put into a template string: [undefined] prints as such. *)
Definition textOf (o : option string) : string := default "undefined" o.

(** [formatPath(path)]; [user] is [this.env.USER]. *)
Definition formatPath (user : option string) (path : string) : string :=
  let home := "/home/" +:+ textOf user in
  if String.eqb path home then "~"
  else if startsWith (home +:+ "/") path
  then "~" +:+ substringFrom (len home) path
  else path.

(** [getShortPath(path)] *)
Definition getShortPath (user : option string) (path : string) : string :=
  let formatted := formatPath user path in
  if String.eqb formatted "~" || String.eqb formatted "/" then formatted
  else
    orElse (default EmptyString (last (split VFS.slash formatted))) "/".

(** [generate()] with the default formatter. *)
Definition generate (vfs : VFS.t) (env : gmap string string) : string :=
  let user := env !! "USER" in
  let host := env !! "HOSTNAME" in
  let path := formatPath user (VFS.pwd vfs) in
  let isRoot :=
    match user with Some u => String.eqb u "root" | None => false end in
  textOf user +:+ "@" +:+ textOf host +:+ ":" +:+ getShortPath user path
  +:+ (if isRoot then "#" else "$") +:+ " ".

End PromptManager.

(** ** Path normalization as the specification words it

    Split on ["/"]; drop empty and ["."] segments; for each [".."] pop the
    last retained segment, popping past the root being a no-op.  The
    retained segments are a stack, most recent first. *)

Module PathSpec.

Definition dropped (seg : string) : bool :=
  String.eqb seg EmptyString || String.eqb seg ".".

Definition pop (retained : list string) : list string :=
  match retained with
  | [] => []
  | _ :: below => below
  end.

Fixpoint retain (segments retained : list string) : list string :=
  match segments with
  | [] => retained
  | seg :: rest =>
      if dropped seg then retain rest retained
      else if String.eqb seg ".." then retain rest (pop retained)
      else retain rest (seg :: retained)
  end.

Definition normalize (path : string) : string :=
  "/" +:+ Js.join "/" (rev (retain (Js.split VFS.slash path) [])).

End PathSpec.

(** ** Flags and arguments as the specification words them

    A token [--name] is the long flag [name]; a token [-xyz], longer than
    the single [-], is one short flag for each character after the dash;
    any other token is a positional argument. *)

Module TokenSpec.

Inductive Kind : Type :=
| LongFlag (name : string)
| ShortFlags (letters : list string)
| Positional (arg : string).

Definition classify (token : string) : Kind :=
  match token with
  | String c1 (String c2 rest) =>
      if Ascii.eqb c1 CLI.dash then
        if Ascii.eqb c2 CLI.dash then LongFlag rest
        else ShortFlags (Js.chars (String c2 rest))
      else Positional token
  | _ => Positional token
  end.

(** The positional arguments among the tokens, in their order. *)
Fixpoint positionals (tokens : list string) : list string :=
  match tokens with
  | [] => []
  | token :: rest =>
      match classify token with
      | Positional arg => arg :: positionals rest
      | _ => positionals rest
      end
  end.

(** [yields token flag]: the token contributes that flag. *)
Definition yields (token flag : string) : Prop :=
  match classify token with
  | LongFlag name => flag = name
  | ShortFlags letters => In flag letters
  | Positional _ => False
  end.

End TokenSpec.

(* ================================================================== *)
(** * Part II: properties *)
(* ================================================================== *)

#[local] Arguments String.append !_ _ / : simpl nomatch.

(** ** Strings and maps *)

Section StringFacts.
Import Js.

Lemma truthy_spec (s : string) : truthy s = true <-> s <> EmptyString.
Proof.
  unfold truthy. destruct s; simpl; split; intros H; congruence.
Qed.

Lemma truthy_false (s : string) : truthy s = false <-> s = EmptyString.
Proof.
  unfold truthy. destruct s; simpl; split; intros H; congruence.
Qed.

Lemma append_empty_r (s : string) : s +:+ EmptyString = s.
Proof. induction s; simpl; congruence. Qed.

Lemma append_assoc (a b c : string) : (a +:+ b) +:+ c = a +:+ (b +:+ c).
Proof. induction a; simpl; congruence. Qed.

Lemma length_append (a b : string) :
  String.length (a +:+ b) = (String.length a + String.length b)%nat.
Proof. induction a; simpl; congruence. Qed.

Lemma includes_append (c : ascii) (a b : string) :
  includes c (a +:+ b) = includes c a || includes c b.
Proof.
  induction a; simpl; [reflexivity|]. rewrite IHa. now rewrite orb_assoc.
Qed.

Lemma split_not_nil (sep : ascii) (s : string) : split sep s <> [].
Proof.
  induction s; simpl; [discriminate|].
  destruct (Ascii.eqb a sep); [discriminate|].
  destruct (split sep s); discriminate.
Qed.

Lemma split_without_sep (sep : ascii) (s : string) :
  includes sep s = false -> split sep s = [s].
Proof.
  induction s; simpl; intros H; [reflexivity|].
  apply orb_false_iff in H as [Hc Hs].
  rewrite Hc, (IHs Hs). reflexivity.
Qed.

Lemma split_at_sep (sep : ascii) (a b : string) :
  includes sep a = false ->
  split sep (a +:+ String sep b) = a :: split sep b.
Proof.
  induction a as [|c a IH]; simpl; intros H.
  - now rewrite Ascii.eqb_refl.
  - apply orb_false_iff in H as [Hc Ha].
    rewrite Hc, (IH Ha). reflexivity.
Qed.

Lemma split_parts_without_sep (sep : ascii) (s : string) :
  Forall (fun p => includes sep p = false) (split sep s).
Proof.
  induction s as [|c s IH]; simpl.
  - constructor; [reflexivity|constructor].
  - destruct (Ascii.eqb c sep) eqn:E.
    + constructor; [reflexivity|exact IH].
    + destruct (split sep s) as [|h t]; inversion IH; subst;
        constructor; simpl; try rewrite E; simpl; auto.
Qed.

Lemma split_join (sep : ascii) (parts : list string) :
  parts <> [] ->
  Forall (fun p => includes sep p = false) parts ->
  split sep (join (String sep EmptyString) parts) = parts.
Proof.
  unfold join. induction parts as [|p ps IH]; intros Hne HF; [congruence|].
  inversion HF as [|? ? Hp Hps]; subst.
  destruct ps as [|q qs].
  - simpl. now apply split_without_sep.
  - change (String.concat (String sep EmptyString) (p :: q :: qs))
      with (p +:+ String sep (String.concat (String sep EmptyString) (q :: qs))).
    rewrite split_at_sep by exact Hp.
    rewrite IH; [reflexivity|discriminate|exact Hps].
Qed.

End StringFacts.

(** ** Path resolution *)

Section PathFacts.
Import Js VFS.

Lemma Forall_removelast {A : Type} (P : A -> Prop) (l : list A) :
  Forall P l -> Forall P (removelast l).
Proof.
  induction l as [|x l IH]; simpl; intros H; [constructor|].
  inversion H; subst. destruct l; [constructor|].
  constructor; auto.
Qed.

Lemma removelast_rev_cons {A : Type} (x : A) (l : list A) :
  removelast (rev (x :: l)) = rev l.
Proof. simpl. apply removelast_last. Qed.

Lemma normalizeStep_clean (acc : list string) (p : string) :
  Forall cleanSegment acc ->
  p <> EmptyString -> p <> "." -> includes slash p = false ->
  Forall cleanSegment (normalizeStep acc p).
Proof.
  intros Hacc H1 H2 H3. unfold normalizeStep.
  destruct (String.eqb_spec p "..") as [->|Hdd].
  - now apply Forall_removelast.
  - apply Forall_app. split; [exact Hacc|].
    constructor; [|constructor]. repeat split; assumption.
Qed.

Lemma normalizeLoop_clean (parts acc : list string) :
  Forall (fun p => p <> EmptyString /\ p <> "." /\ includes slash p = false)
         parts ->
  Forall cleanSegment acc ->
  Forall cleanSegment (fold_left normalizeStep parts acc).
Proof.
  revert acc. induction parts as [|p ps IH]; simpl; intros acc HF Hacc.
  - exact Hacc.
  - inversion HF as [|? ? (H1 & H2 & H3) Hps]; subst.
    apply IH; [exact Hps|]. now apply normalizeStep_clean.
Qed.

Lemma normalizeResult_clean (path : string) :
  Forall cleanSegment (normalizeResult path).
Proof.
  unfold normalizeResult. apply normalizeLoop_clean; [|constructor].
  apply List.Forall_forall. intros p Hp. apply filter_In in Hp as [Hin Hkeep].
  apply andb_true_iff in Hkeep as [Ht Hd].
  apply truthy_spec in Ht.
  pose proof (split_parts_without_sep slash path) as HF.
  rewrite List.Forall_forall in HF.
  repeat split; [exact Ht| |now apply HF].
  intros ->. discriminate Hd.
Qed.

Lemma normalizeLoop_clean_parts (parts acc : list string) :
  Forall cleanSegment parts ->
  fold_left normalizeStep parts acc = acc ++ parts.
Proof.
  revert acc. induction parts as [|p ps IH]; simpl; intros acc HF.
  - now rewrite app_nil_r.
  - inversion HF as [|? ? (H1 & H2 & H3 & H4) Hps]; subst.
    rewrite (IH _ Hps). unfold normalizeStep.
    destruct (String.eqb_spec p ".."); [contradiction|].
    now rewrite <- app_assoc.
Qed.

Lemma filter_clean (parts : list string) :
  Forall cleanSegment parts ->
  List.filter (fun p => truthy p && negb (String.eqb p ".")) parts = parts.
Proof.
  induction 1 as [|p ps (H1 & H2 & H3 & H4) Hps IH]; simpl; [reflexivity|].
  apply truthy_spec in H1. rewrite H1.
  destruct (String.eqb_spec p "."); [contradiction|]. simpl. now rewrite IH.
Qed.

Lemma clean_without_slash (parts : list string) :
  Forall cleanSegment parts ->
  Forall (fun p => includes slash p = false) parts.
Proof. apply List.Forall_impl. intros p (_ & _ & _ & H). exact H. Qed.

(** Normalizing an already normalized path finds the same segments. *)
Lemma normalizeResult_joined (res : list string) :
  Forall cleanSegment res ->
  normalizeResult ("/" +:+ join "/" res) = res.
Proof.
  intros HF. unfold normalizeResult.
  change ("/" +:+ join "/" res) with (String slash (join "/" res)).
  cbn [split]. rewrite Ascii.eqb_refl. cbn [List.filter truthy].
  change (String.eqb EmptyString EmptyString) with true. cbn [negb andb].
  destruct res as [|r rs].
  - reflexivity.
  - change "/" with (String slash EmptyString).
    rewrite split_join; [|discriminate|now apply clean_without_slash].
    rewrite filter_clean by exact HF.
    now rewrite normalizeLoop_clean_parts.
Qed.

Lemma normalizePath_idempotent (path : string) :
  normalizePath (normalizePath path) = normalizePath path.
Proof.
  unfold normalizePath.
  rewrite (normalizeResult_joined (normalizeResult path));
    [reflexivity|apply normalizeResult_clean].
Qed.

Lemma resolvedParts_clean (currentPath path : string) :
  Forall cleanSegment (resolvedParts currentPath path).
Proof.
  unfold resolvedParts.
  destruct (negb (truthy path) || String.eqb path "~").
  - repeat constructor; discriminate.
  - destruct (startsWith "/" path); apply normalizeResult_clean.
Qed.

Lemma resolvePathFrom_parts (currentPath path : string) :
  resolvePathFrom currentPath path
  = "/" +:+ join "/" (resolvedParts currentPath path).
Proof.
  unfold resolvePathFrom, resolvedParts.
  destruct (negb (truthy path) || String.eqb path "~"); [reflexivity|].
  destruct (startsWith "/" path); reflexivity.
Qed.

Lemma resolvedParts_absolute (currentPath rest : string) :
  resolvedParts currentPath (String slash rest)
  = normalizeResult (String slash rest).
Proof. destruct rest; reflexivity. Qed.

(** An absolute, normalized path resolves to itself and to its own
    segments, whatever the current directory. *)
Lemma resolvedParts_joined (currentPath : string) (res : list string) :
  Forall cleanSegment res ->
  resolvedParts currentPath ("/" +:+ join "/" res) = res.
Proof.
  intros HF.
  change ("/" +:+ join "/" res) with (String slash (join "/" res)).
  rewrite resolvedParts_absolute.
  now apply normalizeResult_joined.
Qed.

Lemma resolvePathFrom_idempotent (currentPath p : string) :
  resolvePathFrom currentPath (resolvePathFrom currentPath p)
  = resolvePathFrom currentPath p.
Proof.
  rewrite (resolvePathFrom_parts currentPath p).
  rewrite resolvePathFrom_parts.
  rewrite resolvedParts_joined; [reflexivity|apply resolvedParts_clean].
Qed.

(** The loop of the source and the stack of the specification retain the
    same segments. *)
Lemma normalizeLoop_retain (segments stack : list string) :
  fold_left normalizeStep
    (List.filter (fun p => truthy p && negb (String.eqb p ".")) segments)
    (rev stack)
  = rev (PathSpec.retain segments stack).
Proof.
  revert stack. induction segments as [|seg rest IH]; intros stack;
    [reflexivity|].
  cbn [List.filter PathSpec.retain]. unfold PathSpec.dropped, truthy.
  destruct (String.eqb seg EmptyString); cbn [negb andb orb]; [apply IH|].
  destruct (String.eqb seg "."); cbn [negb]; [apply IH|].
  cbn [fold_left]. unfold normalizeStep at 2.
  destruct (String.eqb seg "..").
  - rewrite <- IH. f_equal. destruct stack as [|x below]; [reflexivity|].
    apply removelast_rev_cons.
  - rewrite <- IH. reflexivity.
Qed.

Lemma normalizePath_refines (path : string) :
  normalizePath path = PathSpec.normalize path.
Proof.
  unfold normalizePath, PathSpec.normalize, normalizeResult.
  now rewrite <- normalizeLoop_retain.
Qed.

End PathFacts.

Section PathClaims.
Import Js VFS.

Lemma normalizeLoop_only_dotdot (k : nat) :
  fold_left normalizeStep (repeat ".." k) [] = [].
Proof. induction k as [|k IH]; [reflexivity|exact IH]. Qed.

Lemma dotdot_chain_shape (k : nat) :
  exists rest, join "/" (repeat ".." (S k)) = String "." (String "." rest).
Proof.
  destruct k as [|k]; [now exists EmptyString|].
  eexists. reflexivity.
Qed.

Lemma resolve_dotdot_chain_at_root (k : nat) :
  resolvePathFrom "/" (join "/" (repeat ".." (S k))) = "/".
Proof.
  destruct (dotdot_chain_shape k) as [rest Hrest].
  unfold resolvePathFrom. rewrite Hrest.
  replace (startsWith "/" (String "." (String "." rest))) with false
    by (destruct rest; reflexivity).
  cbn [truthy String.eqb Ascii.eqb negb orb andb Bool.eqb].
  rewrite <- Hrest. unfold normalizePath, normalizeResult.
  change ("/" +:+ "/" +:+ join "/" (repeat ".." (S k)))
    with (String slash (String slash (join "/" (repeat ".." (S k))))).
  cbn [split]. rewrite Ascii.eqb_refl.
  change "/" with (String slash EmptyString) at 1.
  rewrite split_join.
  - assert (Hkeep : List.filter
                      (fun p : string => truthy p && negb (String.eqb p "."))
                      (repeat ".." (S k)) = repeat ".." (S k)).
    { generalize (S k) as n. induction n as [|n IH]; [reflexivity|].
      cbn [repeat List.filter]. rewrite IH. reflexivity. }
    cbn [List.filter truthy String.eqb negb andb].
    rewrite Hkeep, normalizeLoop_only_dotdot. reflexivity.
  - discriminate.
  - generalize (S k) as n. induction n; constructor; auto.
Qed.

(** C4: [resolvePath] returns the home directory for the empty path and for
    ["~"], and otherwise the normalization of the path (absolute paths) or
    of the current directory, ["/"] and the path (relative paths), where the
    normalization is the one the specification words: segments between
    ["/"], empty and ["."] segments dropped, each [".."] popping the last
    retained segment and popping nothing when none is retained.  It is a
    total function: no input makes it fail.  With current directory
    ["/a/b"], [".."] resolves to ["/a"]; with current directory ["/"], any
    chain of [".."] resolves to ["/"]. *)
Theorem resolvePath_normalizes :
  (forall (vfs : VFS.t) (p : string),
      resolvePath vfs p
      = if negb (truthy p) || String.eqb p "~" then "/home/guest"
        else PathSpec.normalize
               (if startsWith "/" p then p
                else _currentPath vfs +:+ "/" +:+ p))
  /\ (forall path : string, normalizePath path = PathSpec.normalize path)
  /\ PathSpec.pop [] = []
  /\ (forall r : FileNode, resolvePath (mkVFS r "/a/b") ".." = "/a")
  /\ (forall r : FileNode, resolvePath (mkVFS r "/") ".." = "/")
  /\ (forall (r : FileNode) (k : nat),
         resolvePath (mkVFS r "/") (join "/" (repeat ".." (S k))) = "/").
Proof.
  split; [|split; [|split; [|split; [|split]]]].
  - intros vfs p. unfold resolvePath, resolvePathFrom.
    destruct (negb (truthy p) || String.eqb p "~"); [reflexivity|].
    destruct (startsWith "/" p); apply normalizePath_refines.
  - exact normalizePath_refines.
  - reflexivity.
  - intros r. reflexivity.
  - intros r. reflexivity.
  - intros r k. apply resolve_dotdot_chain_at_root.
Qed.

(** C6: path resolution is idempotent: with the current directory fixed,
    resolving a resolved path gives that same path. *)
Theorem resolvePath_idempotent (vfs : VFS.t) (p : string) :
  resolvePath vfs (resolvePath vfs p) = resolvePath vfs p.
Proof. apply resolvePathFrom_idempotent. Qed.

End PathClaims.

(** ** Maps, substrings and the tree walk *)

Section TreeFacts.
Import Js VFS.

Lemma map_get_set_same {V : Type} (k : string) (v : V)
    (m : list (string * V)) :
  map_get k (map_set k v m) = Some v.
Proof.
  induction m as [|[k' v'] m IH]; simpl.
  - now rewrite String.eqb_refl.
  - destruct (String.eqb k k') eqn:E; simpl; rewrite ?E, ?String.eqb_refl;
      auto.
Qed.

Lemma map_get_set_other {V : Type} (k k' : string) (v : V)
    (m : list (string * V)) :
  k <> k' -> map_get k (map_set k' v m) = map_get k m.
Proof.
  intros Hne. induction m as [|[k2 v2] m IH]; simpl.
  - destruct (String.eqb_spec k k'); [contradiction|reflexivity].
  - destruct (String.eqb_spec k' k2) as [->|Hk]; simpl.
    + destruct (String.eqb_spec k k2); [contradiction|reflexivity].
    + destruct (String.eqb k k2); [reflexivity|exact IH].
Qed.

Lemma map_get_delete_same {V : Type} (k : string) (m : list (string * V)) :
  map_get k (map_delete k m) = None.
Proof.
  induction m as [|[k' v'] m IH]; simpl; [reflexivity|].
  destruct (String.eqb k k') eqn:E; simpl; rewrite ?E; exact IH.
Qed.

Lemma map_has_get {V : Type} (k : string) (m : list (string * V)) :
  map_has k m = false <-> map_get k m = None.
Proof. unfold map_has. destruct (map_get k m); split; congruence. Qed.

Lemma lastIndexOf_absent (c : ascii) (s : string) :
  includes c s = false -> lastIndexOf c s = (-1)%Z.
Proof.
  induction s as [|a s IH]; simpl; intros H; [reflexivity|].
  apply orb_false_iff in H as [Ha Hs]. rewrite (IH Hs), Ha. reflexivity.
Qed.

Lemma len_nonneg (s : string) : (0 <= len s)%Z.
Proof. unfold len. lia. Qed.

Lemma len_append (a b : string) : len (a +:+ b) = (len a + len b)%Z.
Proof. unfold len. rewrite length_append. lia. Qed.

Lemma len_cons (c : ascii) (s : string) : len (String c s) = (len s + 1)%Z.
Proof. unfold len. simpl. lia. Qed.

Lemma lastIndexOf_at (c : ascii) (a l : string) :
  includes c l = false -> lastIndexOf c (a +:+ String c l) = len a.
Proof.
  intros Hl. induction a as [|x a IH]; simpl.
  - rewrite (lastIndexOf_absent _ _ Hl), Ascii.eqb_refl. reflexivity.
  - rewrite IH. pose proof (len_nonneg a) as Hn.
    destruct (Z.leb_spec 0 (len a)); [|lia]. rewrite len_cons. reflexivity.
Qed.

Lemma String_substring_prefix (a b : string) :
  String.substring 0 (String.length a) (a +:+ b) = a.
Proof.
  induction a as [|x a IH]; simpl; [now destruct b|]. now rewrite IH.
Qed.

Lemma String_substring_all (b : string) :
  String.substring 0 (String.length b) b = b.
Proof. induction b as [|x b IH]; simpl; [reflexivity|]. now rewrite IH. Qed.

Lemma String_substring_suffix (a b : string) :
  String.substring (String.length a) (String.length b) (a +:+ b) = b.
Proof.
  induction a as [|x a IH]; simpl; [apply String_substring_all|exact IH].
Qed.

Lemma substring_prefix (a b : string) : substring 0 (len a) (a +:+ b) = a.
Proof.
  unfold substring, clamp. rewrite len_append.
  pose proof (len_nonneg a). pose proof (len_nonneg b).
  replace (Z.max 0 (Z.min 0 (len a + len b))) with 0%Z by lia.
  replace (Z.max 0 (Z.min (len a) (len a + len b))) with (len a) by lia.
  replace (Z.min 0 (len a)) with 0%Z by lia.
  replace (Z.max 0 (len a) - 0)%Z with (len a) by lia.
  unfold len. rewrite Nat2Z.id. apply String_substring_prefix.
Qed.

Lemma substringFrom_suffix (a b : string) :
  substringFrom (len a) (a +:+ b) = b.
Proof.
  unfold substringFrom, substring, clamp. rewrite len_append.
  pose proof (len_nonneg a). pose proof (len_nonneg b).
  replace (Z.max 0 (Z.min (len a) (len a + len b))) with (len a) by lia.
  replace (Z.max 0 (Z.min (len a + len b) (len a + len b)))
    with (len a + len b)%Z by lia.
  replace (Z.min (len a) (len a + len b)) with (len a) by lia.
  replace (Z.max (len a) (len a + len b) - len a)%Z with (len b) by lia.
  unfold len. rewrite !Nat2Z.id. apply String_substring_suffix.
Qed.

Lemma rooted_join (parts : list string) :
  parts <> [] -> "/" +:+ join "/" parts = rooted parts.
Proof.
  unfold join. induction parts as [|p ps IH]; intros Hne; [congruence|].
  destruct ps as [|q qs].
  - simpl. now rewrite append_empty_r.
  - change (String.concat "/" (p :: q :: qs))
      with (p +:+ "/" +:+ String.concat "/" (q :: qs)).
    change (rooted (p :: q :: qs)) with ("/" +:+ p +:+ rooted (q :: qs)).
    rewrite <- IH by discriminate. reflexivity.
Qed.

Lemma rooted_app (a b : list string) : rooted (a ++ b) = rooted a +:+ rooted b.
Proof.
  induction a as [|x a IH]; [reflexivity|].
  cbn [rooted app]. change ((x :: a) ++ b) with (x :: (a ++ b)).
  cbn [rooted]. rewrite IH.
  change ("/" +:+ x +:+ rooted a +:+ rooted b)
    with (String slash (x +:+ rooted a +:+ rooted b)).
  change (("/" +:+ x +:+ rooted a) +:+ rooted b)
    with (String slash ((x +:+ rooted a) +:+ rooted b)).
  now rewrite append_assoc.
Qed.

Lemma joined_snoc (init : list string) (l : string) :
  "/" +:+ join "/" (init ++ [l]) = rooted init +:+ String slash l.
Proof.
  rewrite rooted_join by (destruct init; discriminate).
  rewrite rooted_app. cbn [rooted]. now rewrite append_empty_r.
Qed.

Lemma rooted_or_slash (init : list string) :
  orElse (rooted init) "/" = "/" +:+ join "/" init.
Proof.
  destruct init as [|p ps]; [reflexivity|].
  rewrite rooted_join by discriminate. reflexivity.
Qed.

Lemma parentPathOf_snoc (init : list string) (l : string) :
  includes slash l = false ->
  parentPathOf ("/" +:+ join "/" (init ++ [l])) = "/" +:+ join "/" init.
Proof.
  intros Hl. unfold parentPathOf. rewrite joined_snoc.
  rewrite (lastIndexOf_at _ _ _ Hl), substring_prefix.
  apply rooted_or_slash.
Qed.

Lemma baseNameOf_snoc (init : list string) (l : string) :
  includes slash l = false ->
  baseNameOf ("/" +:+ join "/" (init ++ [l])) = l.
Proof.
  intros Hl. unfold baseNameOf. rewrite joined_snoc.
  rewrite (lastIndexOf_at _ _ _ Hl).
  replace (rooted init +:+ String slash l)
    with ((rooted init +:+ String slash EmptyString) +:+ l)
    by (now rewrite append_assoc).
  replace (len (rooted init) + 1)%Z
    with (len (rooted init +:+ String slash EmptyString))
    by (rewrite len_append; reflexivity).
  apply substringFrom_suffix.
Qed.

Lemma walk_app (a b : list string) (n : FileNode) :
  walk (a ++ b) n
  = match walk a n with Some m => walk b m | None => None end.
Proof.
  revert n. induction a as [|k a IH]; intros n; [reflexivity|].
  simpl. destruct (map_get k (children n)); [apply IH|reflexivity].
Qed.

(** After a mutation at an address, walking through that address sees the
    mutated node. *)
Lemma walk_modifyAt (addr rest : list string) (f : FileNode -> FileNode)
    (n p : FileNode) :
  walk addr n = Some p ->
  walk (addr ++ rest) (modifyAt addr f n) = walk rest (f p).
Proof.
  revert n. induction addr as [|k addr IH]; intros n Hw; simpl in *.
  - now inversion Hw.
  - destruct (map_get k (children n)) as [c|] eqn:E; [|discriminate].
    simpl. rewrite map_get_set_same. now apply IH.
Qed.

Lemma getNode_walk (vfs : VFS.t) (path : string) :
  getNode vfs path = walk (nodeAddress vfs path) (root vfs).
Proof.
  unfold getNode, nodeAddress.
  destruct (String.eqb (resolvePath vfs path) "/"); reflexivity.
Qed.

Lemma nodeAddress_parts (vfs : VFS.t) (path : string) :
  nodeAddress vfs path = resolvedParts (_currentPath vfs) path.
Proof.
  unfold nodeAddress, resolvePath. rewrite resolvePathFrom_parts.
  pose proof (resolvedParts_clean (_currentPath vfs) path) as HF.
  destruct (resolvedParts (_currentPath vfs) path) as [|r rs];
    [reflexivity|].
  inversion HF as [|? ? (Hr & _) Hrs]; subst.
  change ("/" +:+ join "/" (r :: rs)) with (String slash (join "/" (r :: rs))).
  assert (Hj : exists c t, join "/" (r :: rs) = String c t).
  { destruct r as [|c t]; [congruence|].
    destruct rs; [now exists c, t|]. eexists _, _. reflexivity. }
  destruct Hj as (c & t & Hj).
  replace (String.eqb (String slash (join "/" (r :: rs))) "/") with false
    by (rewrite Hj; reflexivity).
  unfold pathParts. cbn [split]. rewrite Ascii.eqb_refl.
  cbn [List.filter truthy String.eqb negb].
  change "/" with (String slash EmptyString).
  rewrite split_join; [|discriminate|now apply clean_without_slash].
  clear Hj. induction HF as [|x xs (Hx & _) _ IH]; [reflexivity|].
  cbn [List.filter]. apply truthy_spec in Hx. rewrite Hx. now rewrite IH.
Qed.

Lemma getNode_parts (vfs : VFS.t) (path : string) :
  getNode vfs path = walk (resolvedParts (_currentPath vfs) path) (root vfs).
Proof. now rewrite getNode_walk, nodeAddress_parts. Qed.

Lemma resolvePath_root_parts (vfs : VFS.t) (path : string) :
  resolvePath vfs path = "/" <-> resolvedParts (_currentPath vfs) path = [].
Proof.
  unfold resolvePath. rewrite resolvePathFrom_parts.
  pose proof (resolvedParts_clean (_currentPath vfs) path) as HF.
  destruct (resolvedParts (_currentPath vfs) path) as [|r rs].
  - split; reflexivity.
  - split; [|discriminate]. inversion HF as [|? ? (Hr & _) _]; subst.
    destruct r as [|c t]; [congruence|]. destruct rs; discriminate.
Qed.

End TreeFacts.

(** ** Filesystem operations *)

Section VfsFacts.
Import Js VFS.

Lemma getNode_root (vfs : VFS.t) : getNode vfs "/" = Some (root vfs).
Proof. reflexivity. Qed.

Lemma nodeAddress_root (vfs : VFS.t) : nodeAddress vfs "/" = [].
Proof. reflexivity. Qed.

Lemma getNode_at_root (vfs : VFS.t) (p : string) :
  resolvePath vfs p = "/" -> getNode vfs p = Some (root vfs).
Proof. intros H. unfold getNode. now rewrite H. Qed.

(** What the three mutators do with a path that resolves to ["/"]: the
    parent is the root itself and the name is empty. *)
Lemma mkdir_at_root (now : Z) (vfs : VFS.t) (p : string) :
  resolvePath vfs p = "/" ->
  mkdir now vfs p
  = if negb (FileType_eqb (type (root vfs)) directory) then (false, vfs)
    else if map_has EmptyString (children (root vfs)) then (false, vfs)
    else (true,
          set_root
            (set_modifiedAt now
               (set_children
                  (map_set EmptyString
                     (createNode now directory EmptyString EmptyString)
                     (children (root vfs)))
                  (root vfs)))
            vfs).
Proof.
  intros H. unfold mkdir. rewrite H.
  change (parentPathOf "/") with "/". change (baseNameOf "/") with EmptyString.
  rewrite getNode_root, nodeAddress_root. reflexivity.
Qed.

Lemma writeFile_at_root (now : Z) (vfs : VFS.t) (p cont : string) :
  resolvePath vfs p = "/" ->
  type (root vfs) = directory ->
  map_has EmptyString (children (root vfs)) = false ->
  writeFile now vfs p cont
  = (true,
     set_root
       (set_modifiedAt now
          (set_children
             (map_set EmptyString (createNode now file EmptyString cont)
                (children (root vfs)))
             (root vfs)))
       vfs).
Proof.
  intros H Hdir Hno. unfold writeFile. rewrite H.
  change (parentPathOf "/") with "/". change (baseNameOf "/") with EmptyString.
  rewrite getNode_root, nodeAddress_root, Hdir.
  apply map_has_get in Hno. rewrite Hno. reflexivity.
Qed.

Lemma rm_at_root (now : Z) (vfs : VFS.t) (p : string) (recursive : bool) :
  resolvePath vfs p = "/" ->
  rm now vfs p recursive
  = if FileType_eqb (type (root vfs)) directory
       && (0 <? map_size (children (root vfs)))%nat
       && negb recursive
    then (false, vfs)
    else (true,
          set_root
            (set_modifiedAt now
               (set_children (map_delete EmptyString (children (root vfs)))
                  (root vfs)))
            vfs).
Proof.
  intros H. unfold rm. rewrite H.
  change (parentPathOf "/") with "/". change (baseNameOf "/") with EmptyString.
  rewrite getNode_root, nodeAddress_root. reflexivity.
Qed.

(** Below the root a resolved path has a last segment. *)
Lemma resolved_below_root (vfs : VFS.t) (p : string) :
  resolvePath vfs p <> "/" ->
  exists init l,
    resolvedParts (_currentPath vfs) p = init ++ [l]
    /\ Forall cleanSegment init /\ cleanSegment l.
Proof.
  intros Hne.
  pose proof (resolvedParts_clean (_currentPath vfs) p) as HF.
  destruct (resolvedParts (_currentPath vfs) p) as [|r rs] eqn:E
    using rev_ind.
  - exfalso. apply Hne. now apply resolvePath_root_parts.
  - exists rs, r. apply Forall_app in HF as [Hi Hl].
    inversion Hl; subst. auto.
Qed.

Lemma locate (vfs : VFS.t) (p : string) (init : list string) (l : string) :
  resolvedParts (_currentPath vfs) p = init ++ [l] ->
  Forall cleanSegment init -> cleanSegment l ->
  Located vfs p init l.
Proof.
  intros E Hi Hl.
  assert (Hall : Forall cleanSegment (init ++ [l])).
  { apply Forall_app. split; [exact Hi|]. now constructor. }
  assert (Hres : resolvePath vfs p = "/" +:+ join "/" (init ++ [l])).
  { unfold resolvePath. now rewrite resolvePathFrom_parts, E. }
  destruct Hl as (_ & _ & _ & Hns).
  assert (Hpar : nodeAddress vfs (parentPathOf (resolvePath vfs p)) = init).
  { rewrite Hres, (parentPathOf_snoc _ _ Hns), nodeAddress_parts.
    now apply resolvedParts_joined. }
  assert (Hself : nodeAddress vfs (resolvePath vfs p) = init ++ [l]).
  { rewrite Hres, nodeAddress_parts. now apply resolvedParts_joined. }
  constructor.
  - now rewrite getNode_walk, Hpar.
  - exact Hpar.
  - rewrite Hres. now apply baseNameOf_snoc.
  - now rewrite getNode_walk, Hself.
  - now rewrite getNode_parts, E.
Qed.

Lemma getNode_after_modify (vfs : VFS.t) (p : string) (init : list string)
    (l : string) (f : FileNode -> FileNode) (parent : FileNode) :
  resolvedParts (_currentPath vfs) p = init ++ [l] ->
  walk init (root vfs) = Some parent ->
  getNode (set_root (modifyAt init f (root vfs)) vfs) p
  = map_get l (children (f parent)).
Proof.
  intros E Hw. rewrite getNode_parts. cbn [set_root _currentPath root].
  rewrite E, (walk_modifyAt _ _ _ _ _ Hw). cbn [walk].
  destruct (map_get l (children (f parent))); reflexivity.
Qed.

(** [rm] below the root: success detaches the node. *)
Lemma rm_detaches_below_root (now : Z) (vfs vfs' : VFS.t) (p : string)
    (recursive : bool) :
  resolvePath vfs p <> "/" ->
  rm now vfs p recursive = (true, vfs') ->
  getNode vfs' p = None.
Proof.
  intros Hne Hrm.
  destruct (resolved_below_root vfs p Hne) as (init & l & E & Hi & Hl).
  destruct (locate vfs p init l E Hi Hl) as [Hpar Haddr Hname Hnode _].
  unfold rm in Hrm. rewrite Hpar, Haddr, Hname, Hnode in Hrm.
  destruct (walk init (root vfs)) as [parent|] eqn:Hw; [|discriminate].
  destruct (walk (init ++ [l]) (root vfs)) as [node|]; [|discriminate].
  destruct (FileType_eqb (type node) directory
            && (0 <? map_size (children node))%nat && negb recursive);
    [discriminate|].
  inversion Hrm; subst vfs'.
  rewrite (getNode_after_modify vfs p init l _ parent E Hw).
  cbn [set_modifiedAt set_children children]. apply map_get_delete_same.
Qed.

(** [rm] without [recursive] refuses a directory that has a child and
    leaves the filesystem as it was. *)
Lemma rm_refuses_nonempty_directory (now : Z) (vfs : VFS.t) (p : string)
    (node : FileNode) :
  getNode vfs p = Some node ->
  type node = directory ->
  children node <> [] ->
  rm now vfs p false = (false, vfs).
Proof.
  intros Hn Hdir Hch. unfold rm.
  assert (Hself : getNode vfs (resolvePath vfs p) = Some node).
  { rewrite <- Hn. unfold getNode, resolvePath.
    now rewrite resolvePathFrom_idempotent. }
  rewrite Hself.
  destruct (getNode vfs (parentPathOf (resolvePath vfs p))); [|reflexivity].
  rewrite Hdir. destruct (children node); [congruence|reflexivity].
Qed.

(** [writeFile] below the root: after a success the file reads back. *)
Lemma writeFile_readFile_below_root (now : Z) (vfs vfs' : VFS.t)
    (p s : string) :
  resolvePath vfs p <> "/" ->
  writeFile now vfs p s = (true, vfs') ->
  readFile vfs' p = Some s.
Proof.
  intros Hne Hwf.
  destruct (resolved_below_root vfs p Hne) as (init & l & E & Hi & Hl).
  destruct (locate vfs p init l E Hi Hl) as [Hpar Haddr Hname _ _].
  unfold writeFile in Hwf. rewrite Hpar, Haddr, Hname in Hwf.
  destruct (walk init (root vfs)) as [parent|] eqn:Hw; [|discriminate].
  destruct (negb (FileType_eqb (type parent) directory)); [discriminate|].
  unfold readFile.
  destruct (map_get l (children parent)) as [existing|].
  - destruct (FileType_eqb (type existing) file) eqn:Hty; [|discriminate].
    cbn [negb] in Hwf. inversion Hwf; subst vfs'.
    rewrite (getNode_after_modify vfs p init l _ parent E Hw).
    cbn [set_modifiedAt set_children children].
    rewrite map_get_set_same.
    cbn [set_modifiedAt set_content type content].
    now rewrite Hty.
  - inversion Hwf; subst vfs'.
    rewrite (getNode_after_modify vfs p init l _ parent E Hw).
    cbn [set_modifiedAt set_children children].
    rewrite map_get_set_same. reflexivity.
Qed.

End VfsFacts.

Section VfsClaims.
Import Js VFS.

Lemma walk_ignores_empty_key (parts : list string) (r : FileNode)
    (v : FileNode) :
  Forall cleanSegment parts -> parts <> [] ->
  walk parts (set_modifiedAt (modifiedAt v)
                (set_children (map_set EmptyString v (children r)) r))
  = walk parts r.
Proof.
  intros HF Hne. destruct parts as [|k rest]; [congruence|].
  inversion HF as [|? ? (Hk & _) _]; subst.
  cbn [walk set_modifiedAt set_children children].
  now rewrite map_get_set_other.
Qed.

(** Whatever the path, a path that resolves to the root makes [rm] leave
    the root in place, also when it reports success. *)
Lemma rm_root_keeps_root (now : Z) (vfs : VFS.t) (p : string)
    (recursive : bool) :
  resolvePath vfs p = "/" ->
  exists r, getNode (snd (rm now vfs p recursive)) p = Some r.
Proof.
  intros H. rewrite (rm_at_root _ _ _ _ H).
  destruct (FileType_eqb (type (root vfs)) directory
            && (0 <? map_size (children (root vfs)))%nat && negb recursive);
    eexists; apply getNode_at_root; exact H.
Qed.

(** C2, where the code departs from the claim: on a new filesystem
    [rm("/", true)] returns [true], yet nothing is detached: [getNode("/")]
    still returns a node afterwards, the root with all its children. *)
Theorem rm_root_succeeds_without_detaching :
  fst (rm 1 (VFS.new 0) "/" true) = true
  /\ getNode (snd (rm 1 (VFS.new 0) "/" true)) "/" <> None
  /\ map_keys (children (root (snd (rm 1 (VFS.new 0) "/" true))))
     = map_keys (children (root (VFS.new 0))).
Proof.
  split; [|split].
  - vm_compute. reflexivity.
  - vm_compute. discriminate.
  - vm_compute. reflexivity.
Qed.

(** C5, where the code departs from the claim: on a new filesystem
    [writeFile("/", "x")] reports success, yet [readFile("/")] returns
    [null] afterwards: the content went to a file with the empty name
    inside the root. *)
Theorem writeFile_root_does_not_read_back :
  fst (writeFile 1 (VFS.new 0) "/" "x") = true
  /\ readFile (snd (writeFile 1 (VFS.new 0) "/" "x")) "/" = None
  /\ option_map content
       (map_get EmptyString
          (children (root (snd (writeFile 1 (VFS.new 0) "/" "x")))))
     = Some "x".
Proof.
  split; [|split]; vm_compute; reflexivity.
Qed.

(** C9: when the path resolves to ["/"] (the root being a directory with no
    child called [""], as in a new filesystem), [mkdir] returns [true] and
    puts a new directory node named [""] under the key [""] of the root's
    child map.  [getNode] never follows the key [""], for any path: it
    answers every path below the root as before the call, and no path gives
    it the new node's place.  A second identical call returns [false] and
    changes nothing. *)
Theorem mkdir_root_inserts_unreachable_node (now later : Z) (vfs : VFS.t)
    (p : string) :
  resolvePath vfs p = "/" ->
  type (root vfs) = directory ->
  map_has EmptyString (children (root vfs)) = false ->
  fst (mkdir now vfs p) = true
  /\ children (root (snd (mkdir now vfs p)))
     = map_set EmptyString (createNode now directory EmptyString EmptyString)
               (children (root vfs))
  /\ map_get EmptyString (children (root (snd (mkdir now vfs p))))
     = Some (createNode now directory EmptyString EmptyString)
  /\ name (createNode now directory EmptyString EmptyString) = EmptyString
  /\ type (createNode now directory EmptyString EmptyString) = directory
  /\ (forall q : string,
         getNode (snd (mkdir now vfs p)) q
         = walk (nodeAddress (snd (mkdir now vfs p)) q)
                (root (snd (mkdir now vfs p)))
         /\ ~ In EmptyString (nodeAddress (snd (mkdir now vfs p)) q)
         /\ nodeAddress (snd (mkdir now vfs p)) q <> [EmptyString])
  /\ (forall q : string,
         resolvePath vfs q <> "/" ->
         getNode (snd (mkdir now vfs p)) q = getNode vfs q)
  /\ mkdir later (snd (mkdir now vfs p)) p = (false, snd (mkdir now vfs p)).
Proof.
  intros Hres Hdir Hno.
  rewrite (mkdir_at_root _ _ _ Hres), Hdir, Hno. cbn [FileType_eqb negb].
  cbn [fst snd set_root root set_modifiedAt set_children children].
  assert (Hclean : forall (v : VFS.t) (q : string),
             ~ In EmptyString (nodeAddress v q)).
  { intros v q Hin. rewrite nodeAddress_parts in Hin.
    pose proof (resolvedParts_clean (_currentPath v) q) as HF.
    rewrite List.Forall_forall in HF. destruct (HF _ Hin) as (Hne & _).
    now apply Hne. }
  repeat split.
  - apply map_get_set_same.
  - apply getNode_walk.
  - apply Hclean.
  - intros Heq. eapply Hclean. rewrite Heq. now left.
  - intros q Hq. rewrite !getNode_parts. cbn [_currentPath root set_root].
    destruct (resolved_below_root vfs q Hq) as (init & l & E & Hi & Hl).
    apply (walk_ignores_empty_key _ _
             (createNode now directory EmptyString EmptyString)).
    + apply resolvedParts_clean.
    + rewrite E. destruct init; discriminate.
  - rewrite mkdir_at_root by exact Hres.
    cbn [root set_root set_modifiedAt set_children children type].
    rewrite Hdir. cbn [FileType_eqb negb].
    unfold map_has. now rewrite map_get_set_same.
Qed.

Lemma mkdir_root_inserts_unreachable_node_witness :
  resolvePath (VFS.new 0) "/" = "/"
  /\ fst (mkdir 1 (VFS.new 0) "/") = true
  /\ mkdir 2 (snd (mkdir 1 (VFS.new 0) "/")) "/"
     = (false, snd (mkdir 1 (VFS.new 0) "/")).
Proof.
  split; [reflexivity|].
  destruct (mkdir_root_inserts_unreachable_node 1 2 (VFS.new 0) "/")
    as (H1 & _ & _ & _ & _ & _ & _ & H8);
    [reflexivity | reflexivity | reflexivity |].
  split; [exact H1 | exact H8].
Defined.

End VfsClaims.

(** ** Tokens, flags and arguments *)

Section TokenFacts.
Import Js CLI.

Lemma prefix_cons (a b : ascii) (s1 s2 : string) :
  String.prefix (String a s1) (String b s2)
  = Ascii.eqb a b && String.prefix s1 s2.
Proof.
  simpl. destruct (ascii_dec a b) as [->|Hne].
  - now rewrite Ascii.eqb_refl.
  - apply Ascii.eqb_neq in Hne. now rewrite Hne.
Qed.

Lemma prefix_empty (s : string) : String.prefix EmptyString s = true.
Proof. now destruct s. Qed.

Lemma substringFrom_two (c1 c2 : ascii) (rest : string) :
  substringFrom 2 (String c1 (String c2 rest)) = rest.
Proof.
  exact (substringFrom_suffix (String c1 (String c2 EmptyString)) rest).
Qed.

Lemma startsWith_dash (c1 : ascii) (rest : string) :
  startsWith "-" (String c1 rest) = Ascii.eqb c1 dash.
Proof.
  unfold startsWith. change "-" with (String dash EmptyString).
  now rewrite prefix_cons, prefix_empty, andb_true_r, Ascii.eqb_sym.
Qed.

Lemma startsWith_dashdash (c1 c2 : ascii) (rest : string) :
  startsWith "--" (String c1 (String c2 rest))
  = Ascii.eqb c1 dash && Ascii.eqb c2 dash.
Proof.
  unfold startsWith. change "--" with (String dash (String dash EmptyString)).
  rewrite !prefix_cons, prefix_empty, andb_true_r.
  now rewrite (Ascii.eqb_sym dash c1), (Ascii.eqb_sym dash c2).
Qed.

Lemma startsWith_dashdash_short (c1 : ascii) :
  startsWith "--" (String c1 EmptyString) = false.
Proof.
  unfold startsWith. change "--" with (String dash (String dash EmptyString)).
  rewrite prefix_cons. cbn [String.prefix]. apply andb_false_r.
Qed.

(** [parseToken] sorts a token the way the specification does. *)
Lemma parseToken_classify (args flags : list string) (token : string) :
  parseToken (args, flags) token
  = match TokenSpec.classify token with
    | TokenSpec.LongFlag name => (args, set_add name flags)
    | TokenSpec.ShortFlags letters =>
        (args, fold_left (fun fl ch => set_add ch fl) letters flags)
    | TokenSpec.Positional arg => (args ++ [arg], flags)
    end.
Proof.
  unfold parseToken.
  destruct token as [|c1 [|c2 rest]].
  - reflexivity.
  - cbn [TokenSpec.classify].
    rewrite startsWith_dashdash_short, startsWith_dash.
    change (1 <? len (String c1 EmptyString))%Z with false.
    now rewrite andb_false_r.
  - cbn [TokenSpec.classify].
    rewrite startsWith_dashdash, startsWith_dash.
    assert (Hlen : (1 <? len (String c1 (String c2 rest)))%Z = true).
    { rewrite !len_cons. pose proof (len_nonneg rest).
      apply Z.ltb_lt. lia. }
    rewrite Hlen, andb_true_r.
    destruct (Ascii.eqb c1 dash); [|reflexivity].
    destruct (Ascii.eqb c2 dash); cbn [andb].
    + now rewrite substringFrom_two.
    + reflexivity.
Qed.

Lemma set_has_In (x : string) (s : list string) :
  set_has x s = true <-> In x s.
Proof.
  unfold set_has. rewrite existsb_exists. split.
  - intros (y & Hy & E). apply String.eqb_eq in E. now subst.
  - intros H. exists x. split; [exact H|apply String.eqb_refl].
Qed.

Lemma In_set_add (f x : string) (s : list string) :
  In f (set_add x s) <-> f = x \/ In f s.
Proof.
  unfold set_add. destruct (set_has x s) eqn:E.
  - apply set_has_In in E. split; [auto|]. intros [->|H]; assumption.
  - rewrite in_app_iff. simpl. split; intros H; intuition congruence.
Qed.

Lemma NoDup_set_add (x : string) (s : list string) :
  List.NoDup s -> List.NoDup (set_add x s).
Proof.
  intros H. unfold set_add. destruct (set_has x s) eqn:E; [exact H|].
  assert (Hx : ~ In x s).
  { intros Hin. apply set_has_In in Hin. congruence. }
  clear E. induction H as [|y s Hy Hs IH]; simpl.
  - constructor; [intros []|constructor].
  - constructor.
    + rewrite in_app_iff. simpl. intros [Hin|[->|[]]]; [contradiction|].
      apply Hx. now left.
    + apply IH. intros Hin. apply Hx. now right.
Qed.

Lemma In_set_add_all (f : string) (letters s : list string) :
  In f (fold_left (fun fl ch => set_add ch fl) letters s)
  <-> In f letters \/ In f s.
Proof.
  revert s. induction letters as [|l ls IH]; intros s; simpl.
  - intuition.
  - rewrite IH, In_set_add. intuition congruence.
Qed.

Lemma NoDup_set_add_all (letters s : list string) :
  List.NoDup s ->
  List.NoDup (fold_left (fun fl ch => set_add ch fl) letters s).
Proof.
  revert s. induction letters as [|l ls IH]; intros s H; simpl; [exact H|].
  apply IH. now apply NoDup_set_add.
Qed.

(** The loop of [parseInput] over the tokens after the command. *)
Lemma parseLoop_spec (tokens args flags : list string) :
  fst (fold_left parseToken tokens (args, flags))
  = args ++ TokenSpec.positionals tokens
  /\ (forall f : string,
         In f (snd (fold_left parseToken tokens (args, flags)))
         <-> In f flags
             \/ exists token, In token tokens /\ TokenSpec.yields token f)
  /\ (List.NoDup flags ->
      List.NoDup (snd (fold_left parseToken tokens (args, flags)))).
Proof.
  revert args flags. induction tokens as [|t ts IH]; intros args flags.
  - simpl. rewrite app_nil_r. split; [reflexivity|split; [|auto]].
    intros f. split; [auto|]. intros [H|(tok & [] & _)]. exact H.
  - cbn [fold_left]. rewrite parseToken_classify.
    cbn [TokenSpec.positionals]. unfold TokenSpec.yields.
    destruct (TokenSpec.classify t) as [nm|letters|arg] eqn:Ecl.
    + destruct (IH args (set_add nm flags)) as (Ha & Hf & Hn).
      split; [exact Ha|split].
      * intros f. rewrite Hf, In_set_add. split.
        -- intros [[->|H]|(tok & Hin & Hy)]; auto.
           ++ right. exists t. split; [now left|]. now rewrite Ecl.
           ++ right. exists tok. split; [now right|exact Hy].
        -- intros [H|(tok & [<-|Hin] & Hy)]; auto.
           ++ rewrite Ecl in Hy. auto.
           ++ right. exists tok. auto.
      * intros Hnd. apply Hn. now apply NoDup_set_add.
    + destruct (IH args (fold_left (fun fl ch => set_add ch fl) letters flags))
        as (Ha & Hf & Hn).
      split; [exact Ha|split].
      * intros f. rewrite Hf, In_set_add_all. split.
        -- intros [[H|H]|(tok & Hin & Hy)]; auto.
           ++ right. exists t. split; [now left|]. now rewrite Ecl.
           ++ right. exists tok. split; [now right|exact Hy].
        -- intros [H|(tok & [<-|Hin] & Hy)]; auto.
           ++ rewrite Ecl in Hy. auto.
           ++ right. exists tok. auto.
      * intros Hnd. apply Hn. now apply NoDup_set_add_all.
    + destruct (IH (args ++ [arg]) flags) as (Ha & Hf & Hn).
      split; [|split].
      * rewrite Ha, <- app_assoc. reflexivity.
      * intros f. rewrite Hf. split.
        -- intros [H|(tok & Hin & Hy)]; auto.
           right. exists tok. split; [now right|exact Hy].
        -- intros [H|(tok & [<-|Hin] & Hy)]; auto.
           ++ rewrite Ecl in Hy. contradiction.
           ++ right. exists tok. auto.
      * exact Hn.
Qed.

(** C7: [mkdir "my dir"] parses to command [mkdir], argument [my dir] and
    no flag; [rm -rf /tmp/x] parses to command [rm], flags [r] and [f] and
    argument [/tmp/x].  In general the command is the first token; among the
    tokens after it, a token [--name] gives the long flag [name], a token
    [-xyz] longer than one character gives one short flag per character
    after the dash, and every other token is a positional argument, kept in
    order; the flags form a set. *)
Theorem parseInput_flags_and_arguments :
  parseInput ("mkdir " +:+ String dquote ("my dir" +:+ String dquote EmptyString))
  = mkParsed "mkdir" ["my dir"] []
  /\ parseInput "rm -rf /tmp/x" = mkParsed "rm" ["/tmp/x"] ["r"; "f"]
  /\ TokenSpec.classify "--name" = TokenSpec.LongFlag "name"
  /\ TokenSpec.classify "-xyz" = TokenSpec.ShortFlags ["x"; "y"; "z"]
  /\ TokenSpec.classify "-" = TokenSpec.Positional "-"
  /\ (forall input : string,
         command (parseInput input) = List.hd EmptyString (tokenize input)
         /\ args (parseInput input)
            = TokenSpec.positionals (List.tl (tokenize input))
         /\ List.NoDup (flags (parseInput input))
         /\ (forall f : string,
                In f (flags (parseInput input))
                <-> exists token,
                      In token (List.tl (tokenize input))
                      /\ TokenSpec.yields token f)).
Proof.
  do 5 (split; [vm_compute; reflexivity|]).
  intros input. split; [|split; [|split; [|intros f; split]]].
  - unfold parseInput.
    destruct (fold_left parseToken (tl (tokenize input)) ([], [])).
    cbn [command]. destruct (tokenize input) as [|t0 ts]; [reflexivity|].
    cbn [List.hd]. unfold orElse. destruct (truthy t0) eqn:E; [reflexivity|].
    apply truthy_false in E. now subst.
  - destruct (parseLoop_spec (tl (tokenize input)) [] []) as (Ha & _ & _).
    unfold parseInput.
    destruct (fold_left parseToken (tl (tokenize input)) ([], [])).
    exact Ha.
  - destruct (parseLoop_spec (tl (tokenize input)) [] []) as (_ & _ & Hn).
    unfold parseInput.
    destruct (fold_left parseToken (tl (tokenize input)) ([], [])).
    apply Hn. constructor.
  - destruct (parseLoop_spec (tl (tokenize input)) [] []) as (_ & Hf & _).
    unfold parseInput.
    destruct (fold_left parseToken (tl (tokenize input)) ([], [])).
    cbn [flags]. cbn [snd] in Hf. intros H. apply Hf in H.
    destruct H as [[]|H]. exact H.
  - destruct (parseLoop_spec (tl (tokenize input)) [] []) as (_ & Hf & _).
    unfold parseInput.
    destruct (fold_left parseToken (tl (tokenize input)) ([], [])).
    cbn [flags]. cbn [snd] in Hf. intros H. apply Hf. now right.
Qed.

End TokenFacts.

(** ** The dispatcher *)

Section DispatchFacts.
Import Js CLI.

Lemma split_head (sep c : ascii) (r v : string) (rest : list string) :
  split sep (String c r) = v :: rest ->
  v = EmptyString \/ exists v', v = String c v'.
Proof.
  simpl. destruct (Ascii.eqb c sep).
  - intros H. inversion H. now left.
  - destruct (split sep r); intros H; inversion H; right; eauto.
Qed.

(** The block of [execute] meant for persistent assignments never returns:
    its guard asks for a line that does not start with a letter or an
    underscore, and its test for a name that does. *)
Lemma assignmentBlock_never_returns (trimmed : string)
    (env : gmap string string) :
  assignmentBlock trimmed env = None.
Proof.
  unfold assignmentBlock.
  destruct (includes equals trimmed && negb (matchIdentStart trimmed)) eqn:G;
    [|reflexivity].
  apply andb_true_iff in G as [_ G]. apply negb_true_iff in G.
  destruct trimmed as [|c r]; [reflexivity|]. cbn [matchIdentStart] in G.
  destruct (split equals (String c r)) as [|v rest] eqn:E; [reflexivity|].
  destruct (split_head _ _ _ _ _ E) as [->|(v' & ->)].
  - cbn [matchIdentifier]. now rewrite andb_false_r.
  - cbn [matchIdentifier]. rewrite G. now rewrite andb_false_r.
Qed.

(** [execute] leaves the global environment as it found it. *)
Lemma execute_keeps_env (cli : CLI.t) (input : string) :
  env (snd (execute cli input)) = env cli.
Proof.
  unfold execute. destruct (negb (truthy (trim input))); [reflexivity|].
  destruct (matchAssignment (trim input)) as [[[n v] rest]|].
  - destruct (negb (truthy (command (parseInput rest)))); [reflexivity|].
    rewrite assignmentBlock_never_returns.
    destruct (map_get (command (parseInput rest)) (commands cli)) as [cmd|];
      [|reflexivity].
    destruct (outcome (cmd_execute cmd _)); reflexivity.
  - destruct (negb (truthy (command (parseInput (trim input)))));
      [reflexivity|].
    rewrite assignmentBlock_never_returns.
    destruct (map_get (command (parseInput (trim input))) (commands cli))
      as [cmd|]; [|reflexivity].
    destruct (outcome (cmd_execute cmd _)); reflexivity.
Qed.

Lemma execute_not_found (cli : CLI.t) (input : string) :
  commandNameOf input <> EmptyString ->
  map_get (commandNameOf input) (commands cli) = None ->
  execute cli input
  = (127%Z,
     emit cli [Error (commandNameOf input +:+ ": command not found")]).
Proof.
  unfold commandNameOf, execute. intros Hne Hnone.
  destruct (truthy (trim input)) eqn:Et; cbn [negb].
  - destruct (matchAssignment (trim input)) as [[[n v] rest]|].
    + apply truthy_spec in Hne. rewrite Hne. cbn [negb].
      rewrite assignmentBlock_never_returns, Hnone. reflexivity.
    + apply truthy_spec in Hne. rewrite Hne. cbn [negb].
      rewrite assignmentBlock_never_returns, Hnone. reflexivity.
  - apply truthy_false in Et. rewrite Et in Hne. now contradiction Hne.
Qed.

(** C1, where the code departs from the claim: the line [FOO=bar], given to
    a dispatcher with the default environment and no command of that name,
    is looked up as a command: [execute] writes the error line
    [FOO=bar: command not found], returns 127 and stores nothing under
    [FOO]. *)
Theorem execute_assignment_line_is_not_stored :
  execute (CLI.new (VFS.new 0) FakeShell.defaultEnv) "FOO=bar"
  = (127%Z,
     emit (CLI.new (VFS.new 0) FakeShell.defaultEnv)
       [Error "FOO=bar: command not found"])
  /\ env (snd (execute (CLI.new (VFS.new 0) FakeShell.defaultEnv) "FOO=bar"))
       !! "FOO" = None
  /\ output (snd (execute (CLI.new (VFS.new 0) FakeShell.defaultEnv) "FOO=bar"))
     = [Error "FOO=bar: command not found"].
Proof.
  assert (E : execute (CLI.new (VFS.new 0) FakeShell.defaultEnv) "FOO=bar"
              = (127%Z,
                 emit (CLI.new (VFS.new 0) FakeShell.defaultEnv)
                   [Error "FOO=bar: command not found"])).
  { apply (execute_not_found _ "FOO=bar"); [discriminate|reflexivity]. }
  rewrite E. split; [reflexivity|split]; reflexivity.
Qed.

(** C8: when the command name of a line is not empty and names no
    registered command, [execute] adds exactly one call to the output sink,
    the error line made of the name followed by [: command not found], and
    returns 127.  (No line is ever taken as an environment assignment, so
    that proviso of the claim excludes nothing.) *)
Theorem execute_unknown_command (cli : CLI.t) (input : string) :
  commandNameOf input <> EmptyString ->
  map_get (commandNameOf input) (commands cli) = None ->
  fst (execute cli input) = 127%Z
  /\ output (snd (execute cli input))
     = output cli ++ [Error (commandNameOf input +:+ ": command not found")]
  /\ snd (execute cli input)
     = emit cli [Error (commandNameOf input +:+ ": command not found")].
Proof.
  intros Hne Hnone. rewrite (execute_not_found _ _ Hne Hnone).
  repeat split.
Qed.

Lemma execute_unknown_command_witness :
  commandNameOf "unknown-cmd" = "unknown-cmd"
  /\ fst (execute (CLI.new (VFS.new 0) FakeShell.defaultEnv) "unknown-cmd")
     = 127%Z
  /\ output
       (snd (execute (CLI.new (VFS.new 0) FakeShell.defaultEnv) "unknown-cmd"))
     = [Error "unknown-cmd: command not found"].
Proof.
  split; [reflexivity|].
  destruct (execute_unknown_command
              (CLI.new (VFS.new 0) FakeShell.defaultEnv) "unknown-cmd")
    as (H1 & H2 & _); [discriminate | reflexivity |].
  split; [exact H1 | exact H2].
Defined.

End DispatchFacts.

(** ** The line editor *)

Section EditorFacts.
Import Js FakeShell.
Local Open Scope Z_scope.

Lemma String_substring_length (n m : nat) (s : string) :
  (n + m <= String.length s)%nat ->
  String.length (String.substring n m s) = m.
Proof.
  revert n m. induction s as [|c s IH]; intros n m H; simpl in H.
  - assert (n = 0%nat) by lia. assert (m = 0%nat) by lia. now subst.
  - destruct n as [|n]; simpl.
    + destruct m as [|m]; [reflexivity|]. simpl. rewrite IH; lia.
    + apply IH. lia.
Qed.

Lemma len_slice (a b : Z) (s : string) :
  0 <= a <= b -> b <= len s -> len (slice a b s) = b - a.
Proof.
  intros Hab Hb. unfold slice, relIndex.
  destruct (Z.ltb_spec a 0); [lia|]. destruct (Z.ltb_spec b 0); [lia|].
  unfold len in *. rewrite String_substring_length; lia.
Qed.

Lemma len_sliceFrom (a : Z) (s : string) :
  0 <= a <= len s -> len (sliceFrom a s) = len s - a.
Proof. intros H. unfold sliceFrom. apply len_slice; lia. Qed.

Lemma len_empty : len EmptyString = 0.
Proof. reflexivity. Qed.

Lemma len_positive (s : string) : s <> EmptyString -> 1 <= len s.
Proof.
  destruct s; [congruence|]. rewrite len_cons.
  pose proof (len_nonneg s). lia.
Qed.

Lemma bounds_new (c : CLI.t) : bounds (new c).
Proof. unfold bounds, new. simpl. rewrite len_empty. lia. Qed.

Lemma bounds_insertChar (sh : t) (char : string) :
  char <> EmptyString -> bounds sh -> bounds (insertChar sh char).
Proof.
  intros Hc [Hcur Hhist]. unfold bounds, insertChar. simpl.
  split; [|exact Hhist].
  rewrite !len_append, len_slice, len_sliceFrom by lia.
  pose proof (len_positive _ Hc). lia.
Qed.

Lemma bounds_handleBackspace (sh : t) :
  bounds sh -> bounds (handleBackspace sh).
Proof.
  intros [Hcur Hhist]. unfold handleBackspace.
  destruct (Z.ltb_spec 0 (cursorPosition sh)); [|now split].
  split; [|exact Hhist]. simpl.
  rewrite len_append, len_slice, len_sliceFrom by lia. lia.
Qed.

Lemma bounds_handleDelete (sh : t) : bounds sh -> bounds (handleDelete sh).
Proof.
  intros [Hcur Hhist]. unfold handleDelete.
  destruct (Z.ltb_spec (cursorPosition sh) (len (inputBuffer sh)));
    [|now split].
  split; [|exact Hhist]. simpl.
  rewrite len_append, len_slice, len_sliceFrom by lia. lia.
Qed.

Lemma bounds_handleCursorLeft (sh : t) :
  bounds sh -> bounds (handleCursorLeft sh).
Proof.
  intros [Hcur Hhist]. unfold handleCursorLeft.
  destruct (Z.ltb_spec 0 (cursorPosition sh)); [|now split].
  split; [simpl; lia|exact Hhist].
Qed.

Lemma bounds_handleCursorRight (sh : t) :
  bounds sh -> bounds (handleCursorRight sh).
Proof.
  intros [Hcur Hhist]. unfold handleCursorRight.
  destruct (Z.ltb_spec (cursorPosition sh) (len (inputBuffer sh)));
    [|now split].
  split; [simpl; lia|exact Hhist].
Qed.

Lemma bounds_handleHome (sh : t) : bounds sh -> bounds (handleHome sh).
Proof.
  intros [Hcur Hhist]. split; [simpl; lia|exact Hhist].
Qed.

Lemma bounds_handleEnd (sh : t) : bounds sh -> bounds (handleEnd sh).
Proof.
  intros [Hcur Hhist]. split; [simpl; lia|exact Hhist].
Qed.

Lemma bounds_clearLine (sh : t) : bounds sh -> bounds (clearLine sh).
Proof.
  intros [Hcur Hhist]. split; [simpl; rewrite len_empty; lia|exact Hhist].
Qed.

Lemma bounds_handleTab (sh : t) : bounds sh -> bounds (handleTab sh).
Proof.
  intros [Hcur Hhist]. unfold handleTab.
  destruct (CLI.complete (cli sh) (inputBuffer sh)) as [|only [|? ?]];
    try (now split).
  split; [|exact Hhist]. simpl.
  match goal with |- _ <= len ?b <= _ => pose proof (len_nonneg b) end. lia.
Qed.

(** Browsing to an index inside the history finds an entry. *)
Lemma browseTo_inside (sh : t) (idx : Z) :
  0 <= idx <= Z.of_nat (List.length (commandHistory sh)) - 1 ->
  exists sh', browseTo sh idx = Some sh' /\ bounds sh'
              /\ historyIndex sh' = idx
              /\ commandHistory sh' = commandHistory sh
              /\ nth_error (commandHistory sh)
                   (Z.to_nat (Z.of_nat (List.length (commandHistory sh))
                              - 1 - idx))
                 = Some (inputBuffer sh').
Proof.
  intros Hidx. unfold browseTo, historyAt.
  set (i := Z.of_nat (List.length (commandHistory sh)) - 1 - idx).
  destruct (Z.ltb_spec i 0); [lia|].
  destruct (nth_error (commandHistory sh) (Z.to_nat i)) as [entry|] eqn:E.
  - eexists. split; [reflexivity|]. repeat split; simpl;
      pose proof (len_nonneg entry); lia.
  - apply nth_error_None in E. lia.
Qed.

Lemma bounds_handleHistoryUp (sh : t) :
  bounds sh -> exists sh', handleHistoryUp sh = Some sh' /\ bounds sh'.
Proof.
  intros [Hcur Hhist]. unfold handleHistoryUp.
  destruct (Z.ltb_spec (historyIndex sh)
              (Z.of_nat (List.length (commandHistory sh)) - 1)).
  - destruct (browseTo_inside sh (historyIndex sh + 1)) as (sh' & E & B & _);
      [lia|eauto].
  - exists sh. split; [reflexivity|now split].
Qed.

Lemma bounds_handleHistoryDown (sh : t) :
  bounds sh -> exists sh', handleHistoryDown sh = Some sh' /\ bounds sh'.
Proof.
  intros [Hcur Hhist]. unfold handleHistoryDown.
  destruct (Z.ltb_spec 0 (historyIndex sh)).
  - destruct (browseTo_inside sh (historyIndex sh - 1)) as (sh' & E & B & _);
      [lia|eauto].
  - destruct (Z.eqb_spec (historyIndex sh) 0).
    + eexists. split; [reflexivity|]. split; simpl; [rewrite len_empty|]; lia.
    + exists sh. split; [reflexivity|now split].
Qed.

Lemma bounds_executeCommand (sh : t) :
  bounds sh -> bounds (executeCommand sh).
Proof.
  intros [Hcur Hhist]. unfold executeCommand.
  destruct (truthy (trim (inputBuffer sh))).
  - destruct (String.eqb (trim (inputBuffer sh)) "exit").
    + split; simpl; [exact Hcur|]. rewrite length_app. simpl. lia.
    + destruct (CLI.execute (cli sh) (trim (inputBuffer sh))) as [code cli'].
      split; simpl; [exact Hcur|]. rewrite length_app. simpl. lia.
  - split; [simpl; rewrite len_empty; lia|exact Hhist].
Qed.

Lemma bounds_resumeCommand (sh : t) :
  bounds sh -> bounds (resumeCommand sh).
Proof.
  intros [Hcur Hhist]. unfold resumeCommand.
  destruct (isProcessing sh); [|now split].
  split; [simpl; rewrite len_empty; lia|exact Hhist].
Qed.

Lemma printable_not_empty (data : string) :
  match charCodeAt0 data with
  | Some code => 32 <=? code
  | None => false
  end || (1 <? len data) = true ->
  data <> EmptyString.
Proof. intros H ->. discriminate H. Qed.

Lemma bounds_handleInput (sh : t) (data : string) :
  bounds sh -> exists sh', handleInput sh data = Some sh' /\ bounds sh'.
Proof.
  intros B. unfold handleInput.
  repeat match goal with
         | |- context [if ?b then _ else _] =>
             destruct b eqn:?;
             [first [ now (eexists; split; [reflexivity|];
                           eauto using bounds_executeCommand,
                             bounds_handleBackspace, bounds_handleDelete,
                             bounds_handleCursorRight, bounds_handleCursorLeft,
                             bounds_handleHome, bounds_handleEnd,
                             bounds_handleTab, bounds_clearLine)
                    | now apply bounds_handleHistoryUp
                    | now apply bounds_handleHistoryDown
                    | idtac ] |]
         end.
  - eexists. split; [reflexivity|].
    apply bounds_insertChar; [|exact B]. now apply printable_not_empty.
  - eauto.
Qed.

Lemma bounds_step (sh : t) (ev : Event) :
  bounds sh -> exists sh', step sh ev = Some sh' /\ bounds sh'.
Proof.
  intros B. destruct ev as [data|]; cbn [step].
  - now apply bounds_handleInput.
  - eexists. split; [reflexivity|]. now apply bounds_resumeCommand.
Qed.

Lemma bounds_reachable (sh : t) : reachable sh -> bounds sh.
Proof.
  induction 1 as [c|sh sh' ev _ IH Hstep].
  - apply bounds_new.
  - destruct (bounds_step sh ev IH) as (sh2 & E & B). congruence.
Qed.

End EditorFacts.

Section EditorClaims.
Import Js FakeShell.
Local Open Scope Z_scope.

(** C10: the bounds [0 <= cursorPosition <= inputBuffer.length] and
    [-1 <= historyIndex <= commandHistory.length - 1] hold in a new shell;
    from a state within the bounds every event (input data, or the settling
    of the command in flight) is handled without failure and leads to a
    state within the bounds, so every reachable state, and every state one
    event after a reachable state, is within them; and each handler keeps
    the bounds ([insertChar] for the non-empty data [handleInput] gives
    it). *)
Theorem editor_bounds_invariant :
  (forall c : CLI.t, bounds (new c))
  /\ (forall (sh : t) (ev : Event),
         bounds sh -> exists sh', step sh ev = Some sh' /\ bounds sh')
  /\ (forall sh : t, reachable sh -> bounds sh)
  /\ (forall (sh sh' : t) (ev : Event),
         reachable sh -> step sh ev = Some sh' -> bounds sh')
  /\ (forall (sh : t) (ev : Event),
         reachable sh -> exists sh', step sh ev = Some sh')
  /\ (forall sh : t,
         bounds sh ->
         (forall char : string,
             char <> EmptyString -> bounds (insertChar sh char))
         /\ bounds (handleBackspace sh)
         /\ bounds (handleDelete sh)
         /\ bounds (handleCursorLeft sh)
         /\ bounds (handleCursorRight sh)
         /\ bounds (handleHome sh)
         /\ bounds (handleEnd sh)
         /\ (exists sh', handleHistoryUp sh = Some sh' /\ bounds sh')
         /\ (exists sh', handleHistoryDown sh = Some sh' /\ bounds sh')
         /\ bounds (handleTab sh)
         /\ bounds (clearLine sh)
         /\ bounds (executeCommand sh)
         /\ bounds (resumeCommand sh)).
Proof.
  split; [exact bounds_new|].
  split; [exact bounds_step|].
  split; [exact bounds_reachable|].
  split; [|split].
  - intros sh sh' ev Hr Hs.
    destruct (bounds_step sh ev (bounds_reachable sh Hr)) as (sh2 & E & B).
    congruence.
  - intros sh ev Hr.
    destruct (bounds_step sh ev (bounds_reachable sh Hr)) as (sh2 & E & _).
    eauto.
  - intros sh B.
    split; [intros char Hc; now apply bounds_insertChar|].
    split; [now apply bounds_handleBackspace|].
    split; [now apply bounds_handleDelete|].
    split; [now apply bounds_handleCursorLeft|].
    split; [now apply bounds_handleCursorRight|].
    split; [now apply bounds_handleHome|].
    split; [now apply bounds_handleEnd|].
    split; [now apply bounds_handleHistoryUp|].
    split; [now apply bounds_handleHistoryDown|].
    split; [now apply bounds_handleTab|].
    split; [now apply bounds_clearLine|].
    split; [now apply bounds_executeCommand|now apply bounds_resumeCommand].
Qed.

Lemma editor_bounds_invariant_witness :
  exists sh',
    step (new (CLI.new (VFS.new 0) defaultEnv)) (Data "l") = Some sh'
    /\ bounds sh'.
Proof.
  destruct editor_bounds_invariant as (Hnew & Hstep & _).
  apply Hstep. apply Hnew.
Defined.

Lemma handleInput_enter (sh : t) :
  isProcessing sh = false ->
  handleInput sh keyEnter = Some (executeCommand sh).
Proof. intros H. unfold handleInput. now rewrite H. Qed.

Lemma handleInput_up (sh : t) :
  isProcessing sh = false ->
  handleInput sh keyUp = handleHistoryUp sh.
Proof. intros H. unfold handleInput. now rewrite H. Qed.

(** Right after a commit that pushed [command], history-up loads it. *)
Lemma historyUp_after_push (c : CLI.t) (buf command : string) (cur : Z)
    (history : list string) :
  handleHistoryUp (mkShell c buf cur (history ++ [command]) (-1) false)
  = Some (mkShell c command (len command) (history ++ [command]) 0 false).
Proof.
  unfold handleHistoryUp, browseTo, historyAt. simpl.
  rewrite length_app. simpl.
  destruct (Z.ltb_spec (-1) (Z.of_nat (List.length history + 1) - 1));
    [|lia].
  destruct (Z.ltb_spec (Z.of_nat (List.length history + 1) - 1 - (-1 + 1)) 0);
    [lia|].
  replace (Z.to_nat (Z.of_nat (List.length history + 1) - 1 - (-1 + 1)))
    with (List.length history + 0)%nat by lia.
  rewrite nth_error_app2 by lia.
  replace (List.length history + 0 - List.length history)%nat with 0%nat
    by lia.
  reflexivity.
Qed.

(** C3 as stated fails: with the buffer [" ls"] the commit appends ["ls"],
    not the buffer, and history-up restores ["ls"]; with the non-empty
    buffer [" "] the commit appends nothing. *)
Lemma commit_history_is_not_verbatim :
  inputBuffer (mkShell (CLI.new (VFS.new 0) defaultEnv) " ls" 3 [] (-1) false)
  <> EmptyString
  /\ option_map commandHistory
       (handleInput
          (mkShell (CLI.new (VFS.new 0) defaultEnv) " ls" 3 [] (-1) false)
          keyEnter)
     = Some ["ls"]
  /\ option_map commandHistory
       (handleInput
          (mkShell (CLI.new (VFS.new 0) defaultEnv) " ls" 3 [] (-1) false)
          keyEnter)
     <> Some ([] ++ [" ls"])
  /\ option_map commandHistory
       (handleInput
          (mkShell (CLI.new (VFS.new 0) defaultEnv) " " 1 [] (-1) false)
          keyEnter)
     = Some [].
Proof.
  split; [discriminate|].
  split; [vm_compute; reflexivity|].
  split; [vm_compute; discriminate|vm_compute; reflexivity].
Qed.

Lemma trimEnd_whitespace_only (s : string) :
  trimEnd s = EmptyString <-> Js.forallb isWhiteSpace s = true.
Proof.
  induction s as [|c s IH]; [now split|]. cbn [trimEnd Js.forallb].
  destruct (isWhiteSpace c); cbn [andb].
  - destruct (truthy (trimEnd s)) eqn:Et; cbn [negb].
    + split; [discriminate|]. intros H. apply IH in H.
      apply truthy_spec in Et. contradiction.
    + apply truthy_false in Et. split; [intros _; now apply IH|reflexivity].
  - split; discriminate.
Qed.

Lemma trimStart_whitespace_only (s : string) :
  Js.forallb isWhiteSpace (trimStart s) = true
  <-> Js.forallb isWhiteSpace s = true.
Proof.
  induction s as [|c s IH]; [now split|]. cbn [trimStart Js.forallb].
  destruct (isWhiteSpace c) eqn:Ec; cbn [andb]; [exact IH|].
  cbn [Js.forallb]. rewrite Ec. now split.
Qed.

(** The trimmed form is empty exactly for a buffer of whitespace only, the
    empty buffer included. *)
Lemma trim_whitespace_only (s : string) :
  trim s = EmptyString <-> Js.forallb isWhiteSpace s = true.
Proof.
  unfold trim. rewrite trimEnd_whitespace_only.
  apply trimStart_whitespace_only.
Qed.

(** C3, amended: on commit with a buffer whose trimmed form is not empty,
    the editor (when accepting input) appends the trimmed buffer to the
    command history and sets the history index to -1; once the editor
    accepts input again (at once for [exit], after the command in flight
    has settled otherwise), pressing history-up once makes the buffer
    exactly the trimmed committed buffer, with the cursor at its end.  On
    commit with a buffer holding only whitespace, which is when the
    trimmed form is empty, nothing is appended: the history and the
    history index stay as they are and the buffer is emptied. *)
Theorem commit_appends_trimmed_buffer (sh : t) :
  isProcessing sh = false ->
  (trim (inputBuffer sh) <> EmptyString ->
   exists sh1 sh2,
     handleInput sh keyEnter = Some sh1
     /\ commandHistory sh1 = commandHistory sh ++ [trim (inputBuffer sh)]
     /\ historyIndex sh1 = -1
     /\ isProcessing (resumeCommand sh1) = false
     /\ handleInput (resumeCommand sh1) keyUp = Some sh2
     /\ inputBuffer sh2 = trim (inputBuffer sh)
     /\ cursorPosition sh2 = len (trim (inputBuffer sh))
     /\ historyIndex sh2 = 0
     /\ commandHistory sh2 = commandHistory sh1)
  /\ (Js.forallb isWhiteSpace (inputBuffer sh) = true ->
      exists sh1,
        handleInput sh keyEnter = Some sh1
        /\ commandHistory sh1 = commandHistory sh
        /\ historyIndex sh1 = historyIndex sh
        /\ inputBuffer sh1 = EmptyString
        /\ cursorPosition sh1 = 0
        /\ isProcessing sh1 = false)
  /\ (trim (inputBuffer sh) = EmptyString
      <-> Js.forallb isWhiteSpace (inputBuffer sh) = true).
Proof.
  intros Hidle. rewrite (handleInput_enter _ Hidle).
  split; [|split; [|apply trim_whitespace_only]].
  - intros Hne.
    unfold executeCommand. apply truthy_spec in Hne. rewrite Hne.
    destruct (String.eqb (trim (inputBuffer sh)) "exit").
    + eexists _, _. split; [reflexivity|].
      unfold resumeCommand. cbn [isProcessing commandHistory historyIndex].
      rewrite Hidle.
      rewrite handleInput_up by reflexivity.
      rewrite historyUp_after_push.
      repeat split.
    + destruct (CLI.execute (cli sh) (trim (inputBuffer sh))) as [code cli'].
      eexists _, _. split; [reflexivity|].
      unfold resumeCommand.
      cbn [isProcessing commandHistory historyIndex cli].
      rewrite handleInput_up by reflexivity.
      rewrite historyUp_after_push.
      repeat split.
  - intros Hblank. apply trim_whitespace_only in Hblank.
    unfold executeCommand. apply truthy_false in Hblank. rewrite Hblank.
    eexists. split; [reflexivity|].
    unfold setBuffer.
    cbn [commandHistory historyIndex inputBuffer cursorPosition
         isProcessing].
    repeat split. exact Hidle.
Qed.

Lemma commit_appends_trimmed_buffer_witness :
  (exists sh1 sh2,
      handleInput
        (mkShell (CLI.new (VFS.new 0) defaultEnv) " ls" 3 [] (-1) false)
        keyEnter = Some sh1
      /\ commandHistory sh1 = ["ls"]
      /\ handleInput (resumeCommand sh1) keyUp = Some sh2
      /\ inputBuffer sh2 = "ls")
  /\ (exists sh1,
         handleInput
           (mkShell (CLI.new (VFS.new 0) defaultEnv) "  " 2 ["pwd"] 0 false)
           keyEnter = Some sh1
         /\ commandHistory sh1 = ["pwd"]
         /\ inputBuffer sh1 = EmptyString).
Proof.
  split.
  - destruct (commit_appends_trimmed_buffer
                (mkShell (CLI.new (VFS.new 0) defaultEnv) " ls" 3 [] (-1)
                   false) eq_refl) as (Hcommit & _).
    destruct Hcommit as (sh1 & sh2 & H1 & H2 & _ & _ & H5 & H6 & _);
      [discriminate|].
    exists sh1, sh2. repeat split; assumption.
  - destruct (commit_appends_trimmed_buffer
                (mkShell (CLI.new (VFS.new 0) defaultEnv) "  " 2 ["pwd"] 0
                   false) eq_refl) as (_ & Hblank & _).
    destruct Hblank as (sh1 & H1 & H2 & _ & H4 & _); [reflexivity|].
    exists sh1. repeat split; assumption.
Defined.

End EditorClaims.

(** ** The testable properties of the specification, evaluated *)

Section Examples.
Import Js.

Example rm_nonempty_directory_guard :
  fst (VFS.rm 1 (VFS.new 0) "/home" false) = false
  /\ fst (VFS.rm 1 (VFS.new 0) "/home" true) = true
  /\ VFS.exists_ (snd (VFS.rm 1 (VFS.new 0) "/home" true)) "/home" = false
  /\ VFS.exists_ (snd (VFS.rm 1 (VFS.new 0) "/home" true)) "/home/guest"
     = false.
Proof. repeat split; vm_compute; reflexivity. Qed.

Example writeFile_then_readFile :
  VFS.readFile (snd (VFS.writeFile 1 (VFS.new 0) "notes.txt" "hello"))
               "/home/guest/notes.txt"
  = Some "hello".
Proof. vm_compute. reflexivity. Qed.

Example tokenize_escape_and_quotes :
  CLI.tokenize
    ("echo a" +:+ String CLI.backslash " b "
     +:+ String CLI.squote ("c d" +:+ String CLI.squote "  e"))
  = ["echo"; "a b"; "c d"; "e"].
Proof. vm_compute. reflexivity. Qed.

Example one_shot_assignment_is_stripped :
  CLI.commandNameOf "LANG=C unknown-cmd -x" = "unknown-cmd".
Proof. vm_compute. reflexivity. Qed.

Example type_ls_home_x :
  option_map
    (fun sh => (FakeShell.inputBuffer sh, FakeShell.cursorPosition sh))
    (FakeShell.run (FakeShell.new (CLI.new (VFS.new 0) FakeShell.defaultEnv))
       [FakeShell.Data "l"; FakeShell.Data "s";
            FakeShell.Data FakeShell.keyHome; FakeShell.Data "x"])
  = Some ("xls", 1%Z).
Proof. vm_compute. reflexivity. Qed.

Example up_with_empty_history :
  FakeShell.run (FakeShell.new (CLI.new (VFS.new 0) FakeShell.defaultEnv))
    [FakeShell.Data FakeShell.keyUp]
  = Some (FakeShell.new (CLI.new (VFS.new 0) FakeShell.defaultEnv)).
Proof. vm_compute. reflexivity. Qed.

Example input_dropped_while_processing :
  option_map
    (fun sh => (FakeShell.inputBuffer sh, FakeShell.isProcessing sh))
    (FakeShell.run (FakeShell.new (CLI.new (VFS.new 0) FakeShell.defaultEnv))
       [FakeShell.Data "l"; FakeShell.Data "s";
            FakeShell.Data FakeShell.keyEnter; FakeShell.Data "x"])
  = Some ("ls", true).
Proof. vm_compute. reflexivity. Qed.

End Examples.

(* ================================================================== *)
(** * Part III: further properties of the filesystem, the dispatcher,
      the built-in commands and the editor *)
(* ================================================================== *)

(** ** Resolution and navigation *)

Section ResolutionFacts.
Import Js VFS.

Lemma split_append_sep (sep : ascii) (a b : string) :
  split sep (a +:+ String sep b) = split sep a ++ split sep b.
Proof.
  induction a as [|c a IH]; simpl.
  - now rewrite Ascii.eqb_refl.
  - destruct (Ascii.eqb c sep); rewrite IH; [reflexivity|].
    pose proof (split_not_nil sep a) as Hne.
    destruct (split sep a); [congruence|reflexivity].
Qed.

(** Normalizing [a/b] runs the loop over the segments of [b] from the
    result for [a]. *)
Lemma normalizeResult_append (a b : string) :
  normalizeResult (a +:+ "/" +:+ b)
  = fold_left normalizeStep
      (List.filter (fun p => truthy p && negb (String.eqb p "."))
                   (split slash b))
      (normalizeResult a).
Proof.
  unfold normalizeResult.
  change (a +:+ "/" +:+ b) with (a +:+ String slash b).
  now rewrite split_append_sep, List.filter_app, fold_left_app.
Qed.

Lemma normalizeResult_normalizePath (x : string) :
  normalizeResult (normalizePath x) = normalizeResult x.
Proof.
  unfold normalizePath. apply normalizeResult_joined.
  apply normalizeResult_clean.
Qed.

Lemma normalizePath_append (x q : string) :
  normalizePath (normalizePath x +:+ "/" +:+ q)
  = normalizePath (x +:+ "/" +:+ q).
Proof.
  unfold normalizePath at 1 3.
  now rewrite !normalizeResult_append, normalizeResult_normalizePath.
Qed.

Lemma startsWith_slash_append (p r : string) :
  p <> EmptyString -> startsWith "/" (p +:+ r) = startsWith "/" p.
Proof.
  intros Hp. destruct p as [|c p]; [congruence|].
  unfold startsWith. change "/" with (String slash EmptyString).
  change (String c p +:+ r) with (String c (p +:+ r)).
  now rewrite !prefix_cons, !prefix_empty.
Qed.

Lemma relative_shape (p : string) :
  negb (truthy p) || String.eqb p "~" = false -> p <> EmptyString.
Proof. intros H ->. discriminate H. Qed.

(** X1: resolving a relative path [q] from the place a path [p] resolves
    to is resolving [p/q]: resolution composes along ["/"].  ([p] is
    neither empty nor ["~"], which stand for the home directory; [q] is
    relative.) *)
Theorem resolvePath_composes (currentPath p q : string) :
  negb (truthy p) || String.eqb p "~" = false ->
  negb (truthy q) || String.eqb q "~" = false ->
  startsWith "/" q = false ->
  resolvePathFrom (resolvePathFrom currentPath p) q
  = resolvePathFrom currentPath (p +:+ "/" +:+ q).
Proof.
  intros Hp Hq Hrel.
  pose proof (relative_shape p Hp) as Hpne.
  assert (Hpq : negb (truthy (p +:+ "/" +:+ q))
                || String.eqb (p +:+ "/" +:+ q) "~" = false).
  { destruct p as [|c p]; [congruence|]. simpl.
    destruct p; simpl; now destruct (Ascii.eqb c "~"). }
  unfold resolvePathFrom at 1 3. rewrite Hq, Hrel, Hpq.
  rewrite (startsWith_slash_append p _ Hpne).
  unfold resolvePathFrom. rewrite Hp.
  destruct (startsWith "/" p).
  - apply normalizePath_append.
  - rewrite normalizePath_append. now rewrite !append_assoc.
Qed.

Lemma resolvePath_composes_witness :
  resolvePathFrom (resolvePathFrom "/home/guest" "../x/.") "y/../z"
  = resolvePathFrom "/home/guest" ("../x/." +:+ "/" +:+ "y/../z").
Proof.
  apply (resolvePath_composes "/home/guest" "../x/." "y/../z");
    reflexivity.
Defined.

(** X2: every resolved path is canonical: it is ["/"] followed by segments
    joined by ["/"], none of them empty, ["."] or [".."], none containing
    a ["/"]; so it starts with ["/"] and holds no ["//"], no trailing
    ["/"] (the root apart) and no dot segment. *)
Theorem resolvePath_canonical (vfs : VFS.t) (p : string) :
  exists parts : list string,
    resolvePath vfs p = "/" +:+ join "/" parts
    /\ Forall cleanSegment parts
    /\ pathParts (resolvePath vfs p) = parts
    /\ startsWith "/" (resolvePath vfs p) = true.
Proof.
  exists (resolvedParts (_currentPath vfs) p).
  pose proof (resolvedParts_clean (_currentPath vfs) p) as HF.
  split; [apply resolvePathFrom_parts|]. split; [exact HF|]. split.
  - pose proof (nodeAddress_parts vfs p) as Ha. unfold nodeAddress in Ha.
    destruct (String.eqb_spec (resolvePath vfs p) "/") as [E|_];
      [|exact Ha].
    rewrite E, <- Ha. reflexivity.
  - unfold resolvePath. rewrite resolvePathFrom_parts.
    change ("/" +:+ join "/" (resolvedParts (_currentPath vfs) p))
      with (String slash (join "/" (resolvedParts (_currentPath vfs) p))).
    unfold startsWith. change "/" with (String slash EmptyString).
    rewrite prefix_cons, prefix_empty. reflexivity.
Qed.

Lemma resolve_dot_canonical (currentPath p : string) :
  resolvePathFrom (resolvePathFrom currentPath p) "."
  = resolvePathFrom currentPath p.
Proof.
  rewrite (resolvePathFrom_parts currentPath p).
  change (resolvePathFrom ("/" +:+ join "/" (resolvedParts currentPath p)) ".")
    with (normalizePath
            (("/" +:+ join "/" (resolvedParts currentPath p)) +:+ "/" +:+ ".")).
  unfold normalizePath. rewrite normalizeResult_append.
  cbn [split List.filter fold_left].
  change (truthy "." && negb (String.eqb "." ".")) with false.
  cbn [fold_left].
  rewrite normalizeResult_joined; [reflexivity|apply resolvedParts_clean].
Qed.

Lemma getNode_resolved (vfs : VFS.t) (cwd' p : string) :
  getNode (mkVFS (root vfs) cwd') (resolvePath vfs p) = getNode vfs p.
Proof.
  rewrite !getNode_parts. cbn [root _currentPath].
  unfold resolvePath. rewrite resolvePathFrom_parts.
  rewrite resolvedParts_joined; [reflexivity|apply resolvedParts_clean].
Qed.

(** X3: [cd] succeeds exactly when the path leads to a directory.  On
    success the tree is untouched and the current directory is the
    resolved path, which is canonical: ["."] resolves to it and [cd] to it
    succeeds again without any change.  On failure nothing changes. *)
Theorem cd_moves_to_directories_only (vfs : VFS.t) (p : string) :
  (fst (cd vfs p) = true
   <-> exists d, getNode vfs p = Some d /\ type d = directory)
  /\ (fst (cd vfs p) = true ->
      root (snd (cd vfs p)) = root vfs
      /\ pwd (snd (cd vfs p)) = resolvePath vfs p
      /\ resolvePath (snd (cd vfs p)) "." = pwd (snd (cd vfs p))
      /\ cd (snd (cd vfs p)) (pwd (snd (cd vfs p))) = (true, snd (cd vfs p)))
  /\ (fst (cd vfs p) = false -> snd (cd vfs p) = vfs).
Proof.
  assert (Hself : getNode vfs (resolvePath vfs p) = getNode vfs p).
  { unfold getNode, resolvePath. now rewrite resolvePathFrom_idempotent. }
  unfold cd. rewrite Hself.
  destruct (getNode vfs p) as [d|] eqn:Hd.
  - destruct (type d) eqn:Ht; cbn [FileType_eqb negb fst snd].
    + split; [|split; [discriminate|reflexivity]].
      split; [discriminate|]. intros (d' & E & Hdir). congruence.
    + split; [split; [eauto|reflexivity]|]. split; [|discriminate].
      intros _. cbn [root pwd _currentPath].
      split; [reflexivity|]. split; [reflexivity|]. split.
      * unfold resolvePath. cbn [_currentPath]. apply resolve_dot_canonical.
      * assert (Hr : resolvePath (mkVFS (root vfs) (resolvePath vfs p))
                       (resolvePath vfs p) = resolvePath vfs p).
        { unfold resolvePath. cbn [_currentPath].
          rewrite (resolvePathFrom_parts (_currentPath vfs) p).
          rewrite resolvePathFrom_parts, resolvedParts_joined;
            [reflexivity|apply resolvedParts_clean]. }
        rewrite Hr.
        replace (getNode (mkVFS (root vfs) (resolvePath vfs p))
                   (resolvePath vfs p)) with (Some d)
          by (now rewrite getNode_resolved).
        rewrite Ht. reflexivity.
  - cbn [fst snd]. split; [|split; [discriminate|reflexivity]].
    split; [discriminate|]. intros (d' & E & _). discriminate.
Qed.

Lemma cd_moves_to_directories_only_witness :
  fst (cd (VFS.new 0) "../../etc") = true
  /\ pwd (snd (cd (VFS.new 0) "../../etc")) = "/etc"
  /\ snd (cd (VFS.new 0) "/etc/hostname") = VFS.new 0.
Proof.
  destruct (cd_moves_to_directories_only (VFS.new 0) "../../etc")
    as (_ & Hok & _).
  destruct (cd_moves_to_directories_only (VFS.new 0) "/etc/hostname")
    as (_ & _ & Hfail).
  split; [reflexivity|]. split.
  - destruct (Hok eq_refl) as (_ & Hp & _). rewrite Hp. reflexivity.
  - apply Hfail. reflexivity.
Defined.

End ResolutionFacts.

(** ** The shape of the tree *)

Section ShapeFacts.
Import Js VFS.

Lemma wellFormed_unfold (n : FileNode) :
  wellFormed n
  <-> (type n = file -> children n = [])
      /\ List.NoDup (map fst (children n))
      /\ Forall (fun kc => name (snd kc) = fst kc /\ wellFormed (snd kc))
                (children n).
Proof.
  destruct n as [ty nm co ch cr mo pe ow gr]. cbn [wellFormed type children].
  assert (Heach : forall l : list (string * FileNode),
             (fix each (l : list (string * FileNode)) : Prop :=
                match l with
                | [] => True
                | (k, c) :: r => name c = k /\ wellFormed c /\ each r
                end) l
             <-> Forall (fun kc => name (snd kc) = fst kc
                                   /\ wellFormed (snd kc)) l).
  { induction l as [|[k c] r IH].
    - split; [constructor|trivial].
    - split.
      + intros (Hn & Hw & Hr). constructor; [now split|now apply IH].
      + intros H. inversion H as [|? ? (Hn & Hw) Hr]; subst.
        split; [exact Hn|]. split; [exact Hw|now apply IH]. }
  rewrite Heach. reflexivity.
Qed.

Lemma map_get_In {V : Type} (k : string) (v : V) (m : list (string * V)) :
  map_get k m = Some v -> In (k, v) m.
Proof.
  induction m as [|[k' v'] m IH]; simpl; [discriminate|].
  destruct (String.eqb_spec k k') as [->|Hne].
  - intros H. inversion H. now left.
  - intros H. right. now apply IH.
Qed.

Lemma map_get_None_keys {V : Type} (k : string) (m : list (string * V)) :
  map_get k m = None <-> ~ In k (map fst m).
Proof.
  induction m as [|[k' v'] m IH]; simpl.
  - split; [intros _ []|reflexivity].
  - destruct (String.eqb_spec k k') as [->|Hne].
    + split; [discriminate|]. intros H. exfalso. apply H. now left.
    + rewrite IH. split.
      * intros H [E|Hin]; [congruence|contradiction].
      * intros H Hin. apply H. now right.
Qed.

Lemma map_set_present {V : Type} (k : string) (v o : V)
    (m : list (string * V)) :
  map_get k m = Some o -> map fst (map_set k v m) = map fst m.
Proof.
  induction m as [|[k' v'] m IH]; simpl; [discriminate|].
  destruct (String.eqb_spec k k') as [->|Hne]; [reflexivity|].
  intros H. simpl. now rewrite IH.
Qed.

Lemma map_set_absent {V : Type} (k : string) (v : V)
    (m : list (string * V)) :
  map_get k m = None -> map_set k v m = m ++ [(k, v)].
Proof.
  induction m as [|[k' v'] m IH]; simpl; [reflexivity|].
  destruct (String.eqb_spec k k') as [->|Hne]; [discriminate|].
  intros H. now rewrite IH.
Qed.

Lemma Forall_map_set {V : Type} (P : string * V -> Prop) (k : string)
    (v : V) (m : list (string * V)) :
  Forall P m -> P (k, v) -> Forall P (map_set k v m).
Proof.
  intros HF Hp. induction HF as [|[k' v'] m Hx Hm IH]; simpl.
  - now constructor.
  - destruct (String.eqb k k'); constructor; auto.
Qed.

Lemma In_map_delete {V : Type} (k : string) (x : string * V)
    (m : list (string * V)) :
  In x (map_delete k m) -> In x m.
Proof.
  induction m as [|[k' v'] m IH]; simpl; [trivial|].
  destruct (String.eqb k k'); simpl; intuition.
Qed.

Lemma Forall_map_delete {V : Type} (P : string * V -> Prop) (k : string)
    (m : list (string * V)) :
  Forall P m -> Forall P (map_delete k m).
Proof.
  rewrite !List.Forall_forall. intros H x Hx. apply H.
  now apply In_map_delete in Hx.
Qed.

Lemma NoDup_map_delete {V : Type} (k : string) (m : list (string * V)) :
  List.NoDup (map fst m) -> List.NoDup (map fst (map_delete k m)).
Proof.
  induction m as [|[k' v'] m IH]; simpl; intros H; [constructor|].
  inversion H as [|? ? Hnin Hnd]; subst.
  destruct (String.eqb k k'); [now apply IH|].
  simpl. constructor; [|now apply IH].
  intros Hin. apply Hnin. apply in_map_iff in Hin as ([k2 v2] & E & Hin).
  simpl in E. subst k2. apply in_map_iff. exists (k', v2).
  split; [reflexivity|]. now apply In_map_delete in Hin.
Qed.

Lemma NoDup_snoc (k : string) (keys : list string) :
  List.NoDup keys -> ~ In k keys -> List.NoDup (keys ++ [k]).
Proof.
  intros H Hk. induction H as [|y s Hy Hs IH]; simpl.
  - constructor; [intros []|constructor].
  - constructor.
    + rewrite in_app_iff. simpl. intros [Hin|[->|[]]]; [contradiction|].
      apply Hk. now left.
    + apply IH. intros Hin. apply Hk. now right.
Qed.

Lemma NoDup_map_set {V : Type} (k : string) (v : V)
    (m : list (string * V)) :
  List.NoDup (map fst m) -> List.NoDup (map fst (map_set k v m)).
Proof.
  intros H. destruct (map_get k m) as [o|] eqn:E.
  - now rewrite (map_set_present _ _ _ _ E).
  - rewrite (map_set_absent _ _ _ E), map_app. simpl.
    apply NoDup_snoc; [exact H|]. now apply map_get_None_keys.
Qed.

(** Replacing the child map of a well-formed node. *)
Lemma wellFormed_children (d : Z) (ch : list (string * FileNode))
    (p : FileNode) :
  (type p = file -> ch = []) ->
  List.NoDup (map fst ch) ->
  Forall (fun kc => name (snd kc) = fst kc /\ wellFormed (snd kc)) ch ->
  wellFormed (set_modifiedAt d (set_children ch p)).
Proof.
  intros Hf Hn HF. apply wellFormed_unfold.
  cbn [set_modifiedAt set_children type children]. auto.
Qed.

Lemma wellFormed_createNode (now : Z) (ty : FileType) (nm cont : string) :
  wellFormed (createNode now ty nm cont).
Proof.
  apply wellFormed_unfold. cbn [createNode type children].
  split; [reflexivity|]. split; constructor.
Qed.

(** A mutation at an address keeps the tree well formed when it keeps the
    mutated node well formed and does not rename it. *)
Lemma wellFormed_modifyAt (addr : list string) (f : FileNode -> FileNode)
    (n p : FileNode) :
  wellFormed n ->
  walk addr n = Some p ->
  (wellFormed p -> wellFormed (f p)) ->
  name (f p) = name p ->
  wellFormed (modifyAt addr f n) /\ name (modifyAt addr f n) = name n.
Proof.
  revert n. induction addr as [|k addr IH]; intros n Hwf Hw Hf Hname;
    simpl in *.
  - inversion Hw; subst. auto.
  - destruct (map_get k (children n)) as [c|] eqn:E; [|discriminate].
    apply wellFormed_unfold in Hwf as (Hfile & Hnd & HF).
    assert (Hc : name c = k /\ wellFormed c).
    { rewrite List.Forall_forall in HF.
      exact (HF _ (map_get_In _ _ _ E)). }
    destruct Hc as [Hcn Hcw].
    destruct (IH c Hcw Hw Hf Hname) as [Hw' Hn'].
    split; [|reflexivity].
    apply wellFormed_unfold. cbn [set_children type children].
    split; [|split].
    + intros Hty. rewrite (Hfile Hty) in E. discriminate.
    + now apply NoDup_map_set.
    + apply Forall_map_set; [exact HF|]. simpl. split; [congruence|exact Hw'].
Qed.

Lemma wellFormed_walk (addr : list string) (n p : FileNode) :
  wellFormed n -> walk addr n = Some p -> wellFormed p.
Proof.
  revert n. induction addr as [|k addr IH]; intros n Hwf Hw; simpl in *.
  - now inversion Hw; subst.
  - destruct (map_get k (children n)) as [c|] eqn:E; [|discriminate].
    apply wellFormed_unfold in Hwf as (_ & _ & HF).
    rewrite List.Forall_forall in HF.
    destruct (HF _ (map_get_In _ _ _ E)) as [_ Hc]. eauto.
Qed.

Lemma wellFormed_mkdir (now : Z) (vfs : VFS.t) (p : string) :
  wellFormed (root vfs) -> wellFormed (root (snd (mkdir now vfs p))).
Proof.
  intros Hwf. unfold mkdir. rewrite getNode_walk.
  destruct (walk (nodeAddress vfs (parentPathOf (resolvePath vfs p)))
              (root vfs)) as [parent|] eqn:Hw; [|exact Hwf].
  destruct (type parent) eqn:Ht; cbn [FileType_eqb negb]; [exact Hwf|].
  destruct (map_has (baseNameOf (resolvePath vfs p)) (children parent))
    eqn:Hhas; [exact Hwf|].
  cbn [snd set_root root].
  apply (wellFormed_modifyAt _ _ _ parent Hwf Hw); [|reflexivity].
  intros Hp. apply wellFormed_unfold in Hp as (_ & Hnd & HF).
  apply wellFormed_children.
  - rewrite Ht. discriminate.
  - now apply NoDup_map_set.
  - apply Forall_map_set; [exact HF|]. cbn [fst snd].
    split; [reflexivity|apply wellFormed_createNode].
Qed.

Lemma wellFormed_writeFile (now : Z) (vfs : VFS.t) (p s : string) :
  wellFormed (root vfs) -> wellFormed (root (snd (writeFile now vfs p s))).
Proof.
  intros Hwf. unfold writeFile. rewrite getNode_walk.
  destruct (walk (nodeAddress vfs (parentPathOf (resolvePath vfs p)))
              (root vfs)) as [parent|] eqn:Hw; [|exact Hwf].
  destruct (type parent) eqn:Ht; cbn [FileType_eqb negb]; [exact Hwf|].
  pose proof (wellFormed_walk _ _ _ Hwf Hw) as Hpw.
  destruct (map_get (baseNameOf (resolvePath vfs p)) (children parent))
    as [existing|] eqn:Hget.
  - destruct (FileType_eqb (type existing) file); cbn [negb]; [|exact Hwf].
    cbn [snd set_root root].
    apply (wellFormed_modifyAt _ _ _ parent Hwf Hw); [|reflexivity].
    intros Hp. apply wellFormed_unfold in Hp as (_ & Hnd & HF).
    assert (He : name existing = baseNameOf (resolvePath vfs p)
                 /\ wellFormed existing).
    { rewrite List.Forall_forall in HF.
      exact (HF _ (map_get_In _ _ _ Hget)). }
    destruct He as [Hen Hew].
    apply wellFormed_children.
    + rewrite Ht. discriminate.
    + now apply NoDup_map_set.
    + apply Forall_map_set; [exact HF|]. cbn [fst snd]. split; [exact Hen|].
      apply wellFormed_unfold in Hew. apply wellFormed_unfold.
      exact Hew.
  - cbn [snd set_root root].
    apply (wellFormed_modifyAt _ _ _ parent Hwf Hw); [|reflexivity].
    intros Hp. apply wellFormed_unfold in Hp as (_ & Hnd & HF).
    apply wellFormed_children.
    + rewrite Ht. discriminate.
    + now apply NoDup_map_set.
    + apply Forall_map_set; [exact HF|]. cbn [fst snd].
      split; [reflexivity|apply wellFormed_createNode].
Qed.

Lemma wellFormed_rm (now : Z) (vfs : VFS.t) (p : string) (recursive : bool) :
  wellFormed (root vfs) ->
  wellFormed (root (snd (rm now vfs p recursive))).
Proof.
  intros Hwf. unfold rm. rewrite (getNode_walk vfs (parentPathOf _)).
  destruct (walk (nodeAddress vfs (parentPathOf (resolvePath vfs p)))
              (root vfs)) as [parent|] eqn:Hw; [|exact Hwf].
  destruct (getNode vfs (resolvePath vfs p)) as [node|]; [|exact Hwf].
  destruct (FileType_eqb (type node) directory
            && (0 <? map_size (children node))%nat && negb recursive);
    [exact Hwf|].
  cbn [snd set_root root].
  apply (wellFormed_modifyAt _ _ _ parent Hwf Hw); [|reflexivity].
  intros Hp. apply wellFormed_unfold in Hp as (Hfile & Hnd & HF).
  apply wellFormed_children.
  - intros Hty. now rewrite (Hfile Hty).
  - now apply NoDup_map_delete.
  - now apply Forall_map_delete.
Qed.

Lemma wellFormed_at_path (r : FileNode) (currentPath : string) :
  wellFormed r -> wellFormed (root (mkVFS r currentPath)).
Proof. intros H. exact H. Qed.

Lemma wellFormed_cp (fuel : nat) :
  forall (now : Z) (vfs v : VFS.t) (src dest : string) (recursive ok : bool),
    wellFormed (root vfs) ->
    cp fuel now vfs src dest recursive = Some (ok, v) ->
    wellFormed (root v).
Proof.
  induction fuel as [|fuel IH]; intros now vfs v src dest recursive ok Hwf Hcp;
    [discriminate|].
  cbn [cp] in Hcp.
  destruct (getNode vfs src) as [srcNode|];
    [|inversion Hcp; now subst].
  destruct (FileType_eqb (type srcNode) directory && negb recursive);
    [inversion Hcp; now subst|].
  destruct (getNode vfs (parentPathOf (resolvePath vfs dest)))
    as [destParent|]; [|inversion Hcp; now subst].
  destruct (negb (FileType_eqb (type destParent) directory));
    [inversion Hcp; now subst|].
  destruct (FileType_eqb (type srcNode) directory).
  - match type of Hcp with
    | match ?loop fuel 0%nat ?v0 with _ => _ end = _ =>
        assert (Hloop : forall (k i : nat) (a b : VFS.t),
                   wellFormed (root a) -> loop k i a = Some b ->
                   wellFormed (root b));
        [|destruct (loop fuel 0%nat v0) as [b|] eqn:El; [|discriminate];
          inversion Hcp; subst;
          apply (Hloop _ _ _ _ (wellFormed_mkdir _ _ _ Hwf) El)]
    end.
    induction k as [|k IHk]; intros i a b Ha Hl; [discriminate|].
    cbn beta iota in Hl.
    destruct (walk (nodeAddress vfs src) (root a)) as [node|];
      [|inversion Hl; now subst].
    destruct (nth_error (children node) i) as [[nm c]|];
      [|inversion Hl; now subst].
    destruct (cp fuel now a (src +:+ "/" +:+ nm) (dest +:+ "/" +:+ nm) true)
      as [[ok' a']|] eqn:Ec; [|discriminate].
    apply (IHk _ _ _ (IH _ _ _ _ _ _ _ Ha Ec) Hl).
  - inversion Hcp; subst. now apply wellFormed_writeFile.
Qed.

Lemma wellFormed_new (now : Z) : wellFormed (root (VFS.new now)).
Proof.
  unfold VFS.new, initDefaultStructure. cbv zeta.
  do 4 apply wellFormed_writeFile.
  apply wellFormed_at_path.
  do 9 apply wellFormed_mkdir.
  apply wellFormed_createNode.
Qed.

(** X4: the tree keeps its shape.  In a new filesystem, and after any
    [mkdir], [writeFile], [rm], [cd], [cp] or [mv] on a filesystem that has
    the shape, every file is without children, the names in a directory
    are distinct, and every node is stored under its own name. *)
Theorem operations_keep_tree_well_formed :
  (forall now : Z, wellFormed (root (VFS.new now)))
  /\ (forall vfs : VFS.t,
         wellFormed (root vfs) ->
         (forall (now : Z) (p : string),
             wellFormed (root (snd (mkdir now vfs p))))
         /\ (forall (now : Z) (p s : string),
                wellFormed (root (snd (writeFile now vfs p s))))
         /\ (forall (now : Z) (p : string) (recursive : bool),
                wellFormed (root (snd (rm now vfs p recursive))))
         /\ (forall p : string, wellFormed (root (snd (cd vfs p))))
         /\ (forall (fuel : nat) (now : Z) (src dest : string)
                    (recursive ok : bool) (v : VFS.t),
                cp fuel now vfs src dest recursive = Some (ok, v) ->
                wellFormed (root v))
         /\ (forall (fuel : nat) (now : Z) (src dest : string) (ok : bool)
                    (v : VFS.t),
                mv fuel now vfs src dest = Some (ok, v) ->
                wellFormed (root v))).
Proof.
  split.
  - exact wellFormed_new.
  - intros vfs Hwf.
    split; [intros; now apply wellFormed_mkdir|].
    split; [intros; now apply wellFormed_writeFile|].
    split; [intros; now apply wellFormed_rm|].
    split; [|split].
    + intros p. unfold cd. destruct (getNode vfs (resolvePath vfs p));
        [|exact Hwf].
      destruct (negb (FileType_eqb (type f) directory)); exact Hwf.
    + intros fuel now src dest recursive ok v Hcp.
      exact (wellFormed_cp _ _ _ _ _ _ _ _ Hwf Hcp).
    + intros fuel now src dest ok v Hmv. unfold mv in Hmv.
      destruct (cp fuel now vfs src dest true) as [[[|] v1]|] eqn:Ec;
        [| |discriminate].
      * pose proof (wellFormed_cp _ _ _ _ _ _ _ _ Hwf Ec) as H1.
        pose proof (wellFormed_rm now v1 src true H1) as H2.
        inversion Hmv as [E]. rewrite E in H2. exact H2.
      * inversion Hmv; subst.
        exact (wellFormed_cp _ _ _ _ _ _ _ _ Hwf Ec).
Qed.

Lemma operations_keep_tree_well_formed_witness :
  wellFormed (root (snd (rm 3 (snd (mkdir 2 (VFS.new 1) "/tmp/a")) "/etc" true))).
Proof.
  destruct operations_keep_tree_well_formed as [Hnew Hops].
  destruct (Hops (VFS.new 1) (Hnew 1%Z)) as (Hmk & _).
  destruct (Hops _ (Hmk 2%Z "/tmp/a")) as (_ & _ & Hrm & _).
  apply Hrm.
Defined.

End ShapeFacts.

(** ** What a mutation leaves alone *)

Section FrameFacts.
Import Js VFS.

Lemma map_get_delete_other {V : Type} (k l : string)
    (m : list (string * V)) :
  k <> l -> map_get k (map_delete l m) = map_get k m.
Proof.
  intros Hne. induction m as [|[k' v'] m IH]; simpl; [reflexivity|].
  destruct (String.eqb_spec l k') as [->|Hl]; simpl.
  - destruct (String.eqb_spec k k'); [contradiction|exact IH].
  - destruct (String.eqb k k'); [reflexivity|exact IH].
Qed.

Lemma list_prefix_cases (P Q : list string) :
  (exists rest, Q = P ++ rest) \/ (forall rest, Q <> P ++ rest).
Proof.
  revert Q. induction P as [|x P IH]; intros Q.
  - left. now exists Q.
  - destruct Q as [|y Q]; [right; discriminate|].
    destruct (string_dec x y) as [->|Hne].
    + destruct (IH Q) as [(rest & ->)|Hno].
      * left. now exists rest.
      * right. intros rest E. inversion E. now apply (Hno rest).
    + right. intros rest E. inversion E. congruence.
Qed.

(** A mutation of the child map of the node at [addr] that leaves every
    key but [l] alone does not change the type or the content found at
    any address that does not pass through [l] below [addr]. *)
Lemma walk_frame (l : string)
    (g : list (string * FileNode) -> list (string * FileNode)) (d : Z) :
  (forall (k : string) (m : list (string * FileNode)),
      k <> l -> map_get k (g m) = map_get k m) ->
  forall (addr : list string) (n : FileNode) (Q : list string),
    (forall rest, Q <> addr ++ l :: rest) ->
    fileView
      (walk Q
         (modifyAt addr
            (fun p => set_modifiedAt d (set_children (g (children p)) p)) n))
    = fileView (walk Q n).
Proof.
  intros Hg. induction addr as [|a addr IH]; intros n Q HQ.
  - cbn [modifyAt]. destruct Q as [|k rest]; [reflexivity|].
    cbn [walk set_modifiedAt set_children children].
    rewrite Hg; [reflexivity|]. intros ->. now apply (HQ rest).
  - cbn [modifyAt].
    destruct (map_get a (children n)) as [c|] eqn:E; [|reflexivity].
    destruct Q as [|k rest]; [reflexivity|].
    cbn [walk set_children children].
    destruct (string_dec k a) as [->|Hne].
    + rewrite map_get_set_same, E. apply IH.
      intros rest' Hr. apply (HQ rest'). simpl. now rewrite Hr.
    + now rewrite map_get_set_other.
Qed.

Lemma readFile_view (vfs : VFS.t) (q : string) :
  readFile vfs q
  = match fileView (getNode vfs q) with
    | Some (file, c) => Some c
    | _ => None
    end.
Proof.
  unfold readFile, fileView. destruct (getNode vfs q) as [n|]; [|reflexivity].
  now destruct (type n).
Qed.

Lemma walk_through_leaf (rest : list string) (n : FileNode) :
  children n = [] -> rest <> [] -> walk rest n = None.
Proof.
  intros Hc Hr. destruct rest as [|r rest]; [congruence|].
  cbn [walk]. now rewrite Hc.
Qed.

Lemma resolvedParts_inj (vfs : VFS.t) (p q : string) :
  resolvedParts (_currentPath vfs) q = resolvedParts (_currentPath vfs) p ->
  resolvePath vfs q = resolvePath vfs p.
Proof.
  intros E. unfold resolvePath. now rewrite !resolvePathFrom_parts, E.
Qed.

Lemma getNode_set_root (vfs : VFS.t) (r : FileNode) (q : string) :
  getNode (set_root r vfs) q
  = walk (resolvedParts (_currentPath vfs) q) r.
Proof. now rewrite getNode_parts. Qed.

Lemma mkdir_frame (now : Z) (vfs : VFS.t) (p q : string) :
  readFile (snd (mkdir now vfs p)) q = readFile vfs q.
Proof.
  unfold mkdir. rewrite getNode_walk.
  set (addr := nodeAddress vfs (parentPathOf (resolvePath vfs p))).
  set (l := baseNameOf (resolvePath vfs p)).
  destruct (walk addr (root vfs)) as [parent|] eqn:Hw; [|reflexivity].
  destruct (negb (FileType_eqb (type parent) directory)); [reflexivity|].
  destruct (map_has l (children parent)) eqn:Hhas; [reflexivity|].
  apply map_has_get in Hhas. cbn [snd].
  rewrite !readFile_view, getNode_set_root, getNode_parts.
  set (Q := resolvedParts (_currentPath vfs) q).
  destruct (list_prefix_cases (addr ++ [l]) Q) as [(rest & HQ)|HQ].
  - rewrite HQ, <- !app_assoc.
    rewrite (walk_modifyAt _ _ _ _ _ Hw), (walk_app addr), Hw.
    cbn [app walk set_modifiedAt set_children children].
    rewrite map_get_set_same, Hhas.
    destruct rest as [|r rest]; [reflexivity|].
    cbn [walk createNode children]. reflexivity.
  - rewrite (walk_frame l (map_set l (createNode now directory l EmptyString))
               now); [reflexivity| |].
    + intros k m Hk. now apply map_get_set_other.
    + intros rest E. apply (HQ rest). now rewrite <- app_assoc.
Qed.

(** X5: [mkdir] never changes what [readFile] returns, for any path: it
    creates no file, alters none and hides none. *)
Theorem mkdir_changes_no_file (now : Z) (vfs : VFS.t) (p q : string) :
  readFile (snd (mkdir now vfs p)) q = readFile vfs q.
Proof. apply mkdir_frame. Qed.

Lemma writeFile_frame (now : Z) (vfs : VFS.t) (p s q : string) :
  resolvePath vfs q <> resolvePath vfs p ->
  readFile (snd (writeFile now vfs p s)) q = readFile vfs q.
Proof.
  intros Hqp.
  assert (Hdiff : forall init l,
             resolvedParts (_currentPath vfs) p = init ++ [l] ->
             resolvedParts (_currentPath vfs) q <> init ++ [l]).
  { intros init l E Hq. apply Hqp. apply resolvedParts_inj. congruence. }
  assert (Hframe :
    forall (addr : list string) (l : string) (parent v : FileNode),
      walk addr (root vfs) = Some parent ->
      resolvedParts (_currentPath vfs) q <> addr ++ [l] ->
      (forall r rest,
          walk (r :: rest) v
          = match map_get l (children parent) with
            | Some o => walk (r :: rest) o
            | None => None
            end) ->
      readFile
        (set_root
           (modifyAt addr
              (fun x => set_modifiedAt now
                          (set_children (map_set l v (children x)) x))
              (root vfs)) vfs) q
      = readFile vfs q).
  { intros addr l parent v Hw Hne Hv.
    rewrite !readFile_view, getNode_set_root, getNode_parts.
    set (Q := resolvedParts (_currentPath vfs) q) in *.
    destruct (list_prefix_cases (addr ++ [l]) Q) as [(rest & HQ)|HQ].
    - destruct rest as [|r rest]; [now rewrite app_nil_r in HQ|].
      rewrite HQ, <- !app_assoc.
      rewrite (walk_modifyAt _ _ _ _ _ Hw), (walk_app addr), Hw.
      cbn [app]. cbn [walk set_modifiedAt set_children children].
      rewrite map_get_set_same. specialize (Hv r rest). cbn [walk] in Hv.
      now rewrite Hv.
    - rewrite (walk_frame l (map_set l v) now); [reflexivity| |].
      + intros k m Hk. now apply map_get_set_other.
      + intros rest E. apply (HQ rest). now rewrite <- app_assoc. }
  assert (Hplace :
    resolvedParts (_currentPath vfs) q
    <> nodeAddress vfs (parentPathOf (resolvePath vfs p))
       ++ [baseNameOf (resolvePath vfs p)]).
  { destruct (String.eqb_spec (resolvePath vfs p) "/") as [Hroot|Hbelow].
    - rewrite Hroot. change (parentPathOf "/") with "/".
      change (baseNameOf "/") with EmptyString.
      rewrite nodeAddress_root. intros E.
      pose proof (resolvedParts_clean (_currentPath vfs) q) as HF.
      rewrite E in HF. inversion HF as [|? ? (Hne & _) _]. now apply Hne.
    - destruct (resolved_below_root vfs p Hbelow) as (init & l & E & Hi & Hl).
      destruct (locate vfs p init l E Hi Hl) as [_ Haddr Hname _ _].
      rewrite Haddr, Hname. now apply Hdiff. }
  unfold writeFile. rewrite getNode_walk.
  destruct (walk (nodeAddress vfs (parentPathOf (resolvePath vfs p)))
              (root vfs)) as [parent|] eqn:Hw; [|reflexivity].
  destruct (negb (FileType_eqb (type parent) directory)); [reflexivity|].
  destruct (map_get (baseNameOf (resolvePath vfs p)) (children parent))
    as [existing|] eqn:Hget.
  - destruct (negb (FileType_eqb (type existing) file)); [reflexivity|].
    cbn [snd]. apply (Hframe _ _ parent _ Hw Hplace).
    intros r rest. rewrite Hget. reflexivity.
  - cbn [snd]. apply (Hframe _ _ parent _ Hw Hplace).
    intros r rest. rewrite Hget. reflexivity.
Qed.

(** X6: [writeFile] changes what [readFile] returns for no path other than
    the one written: every other file keeps its content, and no other
    path starts or stops being a file. *)
Theorem writeFile_changes_no_other_file (now : Z) (vfs : VFS.t)
    (p s q : string) :
  resolvePath vfs q <> resolvePath vfs p ->
  readFile (snd (writeFile now vfs p s)) q = readFile vfs q.
Proof. apply writeFile_frame. Qed.

Lemma writeFile_changes_no_other_file_witness :
  readFile (snd (writeFile 1 (VFS.new 0) "/etc/motd" "x")) "/etc/hostname"
  = readFile (VFS.new 0) "/etc/hostname".
Proof.
  apply (writeFile_changes_no_other_file 1 (VFS.new 0) "/etc/motd" "x"
           "/etc/hostname").
  vm_compute. discriminate.
Defined.

End FrameFacts.

(** ** Creation and removal *)

Section MutationFacts.
Import Js VFS.

(** X7: a refused operation has no effect: when [mkdir], [writeFile], [rm],
    [cd] or [cp] returns [false], the filesystem is exactly as before. *)
Theorem refused_operations_change_nothing (now : Z) (vfs : VFS.t) :
  (forall p : string,
      fst (mkdir now vfs p) = false -> snd (mkdir now vfs p) = vfs)
  /\ (forall p s : string,
         fst (writeFile now vfs p s) = false ->
         snd (writeFile now vfs p s) = vfs)
  /\ (forall (p : string) (recursive : bool),
         fst (rm now vfs p recursive) = false ->
         snd (rm now vfs p recursive) = vfs)
  /\ (forall p : string, fst (cd vfs p) = false -> snd (cd vfs p) = vfs)
  /\ (forall (fuel : nat) (src dest : string) (recursive : bool)
             (v : VFS.t),
         cp fuel now vfs src dest recursive = Some (false, v) -> v = vfs).
Proof.
  split; [|split; [|split; [|split]]].
  - intros p. unfold mkdir.
    destruct (getNode vfs (parentPathOf (resolvePath vfs p))) as [parent|];
      [|reflexivity].
    destruct (negb (FileType_eqb (type parent) directory)); [reflexivity|].
    destruct (map_has _ (children parent)); [reflexivity|discriminate].
  - intros p s. unfold writeFile.
    destruct (getNode vfs (parentPathOf (resolvePath vfs p))) as [parent|];
      [|reflexivity].
    destruct (negb (FileType_eqb (type parent) directory)); [reflexivity|].
    destruct (map_get _ (children parent)) as [existing|]; [|discriminate].
    destruct (negb (FileType_eqb (type existing) file));
      [reflexivity|discriminate].
  - intros p recursive. unfold rm.
    destruct (getNode vfs (parentPathOf (resolvePath vfs p))) as [parent|];
      [|reflexivity].
    destruct (getNode vfs (resolvePath vfs p)) as [node|]; [|reflexivity].
    destruct (FileType_eqb (type node) directory
              && (0 <? map_size (children node))%nat && negb recursive);
      [reflexivity|discriminate].
  - intros p. unfold cd.
    destruct (getNode vfs (resolvePath vfs p)) as [node|]; [|reflexivity].
    destruct (negb (FileType_eqb (type node) directory));
      [reflexivity|discriminate].
  - intros fuel src dest recursive v Hcp.
    destruct fuel as [|fuel]; [discriminate|]. cbn [cp] in Hcp.
    destruct (getNode vfs src) as [srcNode|]; [|now inversion Hcp].
    destruct (FileType_eqb (type srcNode) directory && negb recursive);
      [now inversion Hcp|].
    destruct (getNode vfs (parentPathOf (resolvePath vfs dest)))
      as [destParent|]; [|now inversion Hcp].
    destruct (negb (FileType_eqb (type destParent) directory));
      [now inversion Hcp|].
    destruct (FileType_eqb (type srcNode) directory); [|discriminate].
    match type of Hcp with
    | match ?x with _ => _ end = _ => destruct x; discriminate
    end.
Qed.

Lemma refused_operations_change_nothing_witness :
  snd (mkdir 1 (VFS.new 0) "/no/such/parent") = VFS.new 0
  /\ snd (rm 1 (VFS.new 0) "/home" false) = VFS.new 0.
Proof.
  destruct (refused_operations_change_nothing 1 (VFS.new 0))
    as (Hmk & _ & Hrm & _).
  split; [apply Hmk|apply Hrm]; vm_compute; reflexivity.
Defined.

Lemma located_after_modify (vfs : VFS.t) (r : FileNode) (p : string)
    (init : list string) (l : string) :
  resolvedParts (_currentPath vfs) p = init ++ [l] ->
  Forall cleanSegment init -> cleanSegment l ->
  Located (set_root r vfs) p init l.
Proof. intros E Hi Hl. now apply locate. Qed.

(** X8: a successful [mkdir] below the root was made in an existing
    directory, where the path was absent; afterwards the path leads to a
    new, empty directory named by its last segment, and the same [mkdir]
    can only fail, leaving that state as it is. *)
Theorem mkdir_creates_one_empty_directory (now later : Z) (vfs vfs' : VFS.t)
    (p : string) :
  resolvePath vfs p <> "/" ->
  mkdir now vfs p = (true, vfs') ->
  getNode vfs p = None
  /\ (exists parent,
         getNode vfs (parentPathOf (resolvePath vfs p)) = Some parent
         /\ type parent = directory)
  /\ getNode vfs' p
     = Some (createNode now directory (baseNameOf (resolvePath vfs p))
               EmptyString)
  /\ pwd vfs' = pwd vfs
  /\ mkdir later vfs' p = (false, vfs').
Proof.
  intros Hne Hmk.
  destruct (resolved_below_root vfs p Hne) as (init & l & E & Hi & Hl).
  destruct (locate vfs p init l E Hi Hl) as [Hpar Haddr Hname _ Hpath].
  unfold mkdir in Hmk. rewrite Hpar, Haddr, Hname in Hmk.
  destruct (walk init (root vfs)) as [parent|] eqn:Hw; [|discriminate].
  destruct (type parent) eqn:Ht; cbn [FileType_eqb negb] in Hmk;
    [discriminate|].
  destruct (map_has l (children parent)) eqn:Hhas; [discriminate|].
  inversion Hmk; subst vfs'. clear Hmk.
  apply map_has_get in Hhas.
  split; [|split; [|split; [|split]]].
  - rewrite Hpath, walk_app, Hw. cbn [walk]. now rewrite Hhas.
  - rewrite Hpar. eauto.
  - rewrite (getNode_after_modify vfs p init l _ parent E Hw).
    cbn [set_modifiedAt set_children children].
    rewrite Hname. apply map_get_set_same.
  - reflexivity.
  - destruct (located_after_modify vfs
                (modifyAt init
                   (fun x => set_modifiedAt now
                               (set_children
                                  (map_set l
                                     (createNode now directory l EmptyString)
                                     (children x)) x))
                   (root vfs)) p init l E Hi Hl)
      as [Hpar' Haddr' Hname' _ _].
    unfold mkdir. rewrite Hpar', Hname'. cbn [set_root root].
    pose proof (walk_modifyAt init []
                  (fun x => set_modifiedAt now
                              (set_children
                                 (map_set l
                                    (createNode now directory l EmptyString)
                                    (children x)) x))
                  (root vfs) parent Hw) as Hw'.
    rewrite app_nil_r in Hw'. cbn [walk] in Hw'. rewrite Hw'.
    cbn [set_modifiedAt set_children type children]. rewrite Ht.
    cbn [FileType_eqb negb]. unfold map_has.
    now rewrite map_get_set_same.
Qed.

Lemma mkdir_creates_one_empty_directory_witness :
  getNode (snd (mkdir 1 (VFS.new 0) "projects")) "/home/guest/projects"
  = Some (createNode 1 directory "projects" EmptyString)
  /\ fst (mkdir 2 (snd (mkdir 1 (VFS.new 0) "projects")) "projects") = false.
Proof.
  destruct (mkdir_creates_one_empty_directory 1 2 (VFS.new 0)
              (snd (mkdir 1 (VFS.new 0) "projects")) "projects")
    as (_ & _ & H3 & _ & H5);
    [vm_compute; discriminate | vm_compute; reflexivity |].
  split; [exact H3|]. rewrite H5. reflexivity.
Defined.

Lemma normalizeResult_under (x : string) (rs : list string) :
  Forall cleanSegment rs ->
  normalizeResult (x +:+ rooted rs) = normalizeResult x ++ rs.
Proof.
  intros HF. revert x. induction HF as [|r rs Hr Hrs IH]; intros x.
  - cbn [rooted]. now rewrite append_empty_r, app_nil_r.
  - cbn [rooted].
    replace (x +:+ "/" +:+ r +:+ rooted rs)
      with ((x +:+ "/" +:+ r) +:+ rooted rs)
      by (now rewrite !append_assoc).
    rewrite IH, normalizeResult_append.
    destruct Hr as (H1 & H2 & H3 & H4).
    rewrite (split_without_sep _ _ H4). cbn [List.filter].
    apply truthy_spec in H1. rewrite H1.
    destruct (String.eqb_spec r "."); [contradiction|].
    cbn [negb andb fold_left]. unfold normalizeStep.
    destruct (String.eqb_spec r ".."); [contradiction|].
    now rewrite <- app_assoc.
Qed.

(** The segments of a path written as a resolved path followed by clean
    segments. *)
Lemma resolvedParts_under (vfs : VFS.t) (p : string) (rs : list string) :
  Forall cleanSegment rs ->
  resolvedParts (_currentPath vfs) (resolvePath vfs p +:+ rooted rs)
  = resolvedParts (_currentPath vfs) p ++ rs.
Proof.
  intros HF. unfold resolvePath. rewrite resolvePathFrom_parts.
  change (("/" +:+ join "/" (resolvedParts (_currentPath vfs) p))
          +:+ rooted rs)
    with (String slash
            (join "/" (resolvedParts (_currentPath vfs) p) +:+ rooted rs)).
  rewrite resolvedParts_absolute.
  change (String slash
            (join "/" (resolvedParts (_currentPath vfs) p) +:+ rooted rs))
    with (("/" +:+ join "/" (resolvedParts (_currentPath vfs) p))
          +:+ rooted rs).
  rewrite (normalizeResult_under _ _ HF), normalizeResult_joined;
    [reflexivity|apply resolvedParts_clean].
Qed.

(** X9: a successful [rm] below the root removes the subtree: the path
    itself and every path below it (the resolved path followed by any
    segments) are absent afterwards. *)
Theorem rm_removes_the_subtree (now : Z) (vfs vfs' : VFS.t) (p : string)
    (recursive : bool) (rs : list string) :
  resolvePath vfs p <> "/" ->
  rm now vfs p recursive = (true, vfs') ->
  Forall cleanSegment rs ->
  getNode vfs' (resolvePath vfs p +:+ rooted rs) = None
  /\ exists_ vfs' (resolvePath vfs p +:+ rooted rs) = false.
Proof.
  intros Hne Hrm HF.
  destruct (resolved_below_root vfs p Hne) as (init & l & E & Hi & Hl).
  destruct (locate vfs p init l E Hi Hl) as [Hpar Haddr Hname Hnode _].
  unfold rm in Hrm. rewrite Hpar, Haddr, Hname, Hnode in Hrm.
  destruct (walk init (root vfs)) as [parent|] eqn:Hw; [|discriminate].
  destruct (walk (init ++ [l]) (root vfs)) as [node|]; [|discriminate].
  destruct (FileType_eqb (type node) directory
            && (0 <? map_size (children node))%nat && negb recursive);
    [discriminate|].
  inversion Hrm; subst vfs'.
  assert (Hgone : getNode
                    (set_root
                       (modifyAt init
                          (fun x => set_modifiedAt now
                                      (set_children
                                         (map_delete l (children x)) x))
                          (root vfs)) vfs)
                    (resolvePath vfs p +:+ rooted rs) = None).
  { rewrite getNode_set_root, (resolvedParts_under vfs p rs HF), E.
    rewrite <- app_assoc, (walk_modifyAt _ _ _ _ _ Hw).
    cbn [app walk set_modifiedAt set_children children].
    now rewrite map_get_delete_same. }
  split; [exact Hgone|]. unfold exists_. now rewrite Hgone.
Qed.

Lemma rm_removes_the_subtree_witness :
  getNode (snd (rm 1 (VFS.new 0) "/home" true)) "/home/guest/readme.txt"
  = None.
Proof.
  destruct (rm_removes_the_subtree 1 (VFS.new 0)
              (snd (rm 1 (VFS.new 0) "/home" true)) "/home" true
              ["guest"; "readme.txt"])
    as [H _];
    [vm_compute; discriminate | vm_compute; reflexivity | |exact H].
  repeat constructor; discriminate.
Defined.

Lemma prefix_append (a b : string) : String.prefix a (a +:+ b) = true.
Proof.
  induction a as [|c a IH]; [apply prefix_empty|].
  change (String c a +:+ b) with (String c (a +:+ b)).
  now rewrite prefix_cons, Ascii.eqb_refl.
Qed.

Lemma below_is_prefixed (P rest : list string) (r : string) :
  P <> [] ->
  startsWith (("/" +:+ join "/" P) +:+ "/")
             ("/" +:+ join "/" (P ++ r :: rest)) = true.
Proof.
  intros HP. rewrite (rooted_join P HP).
  rewrite rooted_join by (destruct P; discriminate).
  rewrite rooted_app. cbn [rooted].
  replace (rooted P +:+ "/" +:+ r +:+ rooted rest)
    with ((rooted P +:+ "/") +:+ r +:+ rooted rest)
    by (now rewrite !append_assoc).
  apply prefix_append.
Qed.

(** [rm] and the paths that are neither the removed one nor below it, in
    terms of segments. *)
Lemma rm_frame (now : Z) (vfs : VFS.t) (p q : string) (recursive : bool) :
  resolvePath vfs p <> "/" ->
  (forall rest,
      resolvedParts (_currentPath vfs) q
      <> resolvedParts (_currentPath vfs) p ++ rest) ->
  readFile (snd (rm now vfs p recursive)) q = readFile vfs q.
Proof.
  intros Hbelow Hout.
  destruct (resolved_below_root vfs p Hbelow) as (init & l & E & Hi & Hl).
  destruct (locate vfs p init l E Hi Hl) as [_ Haddr Hname _ _].
  unfold rm. rewrite (getNode_walk vfs (parentPathOf _)), Haddr, Hname.
  destruct (walk init (root vfs)) as [parent|]; [|reflexivity].
  destruct (getNode vfs (resolvePath vfs p)) as [node|]; [|reflexivity].
  destruct (FileType_eqb (type node) directory
            && (0 <? map_size (children node))%nat && negb recursive);
    [reflexivity|].
  cbn [snd]. rewrite !readFile_view, getNode_set_root, getNode_parts.
  rewrite (walk_frame l (map_delete l) now); [reflexivity| |].
  - intros k m Hk. now apply map_get_delete_other.
  - intros rest Eq. apply (Hout rest). rewrite Eq, E.
    now rewrite <- app_assoc.
Qed.

Lemma rm_at_root_frame (now : Z) (vfs : VFS.t) (p q : string)
    (recursive : bool) :
  resolvePath vfs p = "/" ->
  readFile (snd (rm now vfs p recursive)) q = readFile vfs q.
Proof.
  intros Hroot. rewrite (rm_at_root _ _ _ _ Hroot).
  destruct (FileType_eqb (type (root vfs)) directory
            && (0 <? map_size (children (root vfs)))%nat && negb recursive);
    [reflexivity|].
  cbn [snd]. rewrite !readFile_view, getNode_set_root, getNode_parts.
  rewrite (walk_frame EmptyString (map_delete EmptyString) now
             (fun k m Hk => map_get_delete_other k EmptyString m Hk)
             [] (root vfs));
    [reflexivity|].
  intros rest Eq.
  pose proof (resolvedParts_clean (_currentPath vfs) q) as HF.
  rewrite Eq in HF. inversion HF as [|? ? (Hne & _) _]. now apply Hne.
Qed.

(** X10: [rm] changes what [readFile] returns only at the removed path and
    below it: for every path that is neither the removed one nor under it,
    the file found, or the absence of a file, is as before. *)
Theorem rm_changes_no_file_elsewhere (now : Z) (vfs : VFS.t) (p q : string)
    (recursive : bool) :
  resolvePath vfs q <> resolvePath vfs p ->
  startsWith (resolvePath vfs p +:+ "/") (resolvePath vfs q) = false ->
  readFile (snd (rm now vfs p recursive)) q = readFile vfs q.
Proof.
  intros Hqp Hunder.
  destruct (String.eqb_spec (resolvePath vfs p) "/") as [Hroot|Hbelow].
  - now apply rm_at_root_frame.
  - apply rm_frame; [exact Hbelow|]. intros rest Eq.
    destruct rest as [|r rest].
    + apply Hqp. apply resolvedParts_inj. now rewrite Eq, app_nil_r.
    + assert (Hs : startsWith (resolvePath vfs p +:+ "/")
                     (resolvePath vfs q) = true).
      { unfold resolvePath. rewrite !resolvePathFrom_parts, Eq.
        apply below_is_prefixed. intros E0.
        apply Hbelow. now apply resolvePath_root_parts. }
      congruence.
Qed.

Lemma rm_changes_no_file_elsewhere_witness :
  readFile (snd (rm 1 (VFS.new 0) "/home" true)) "/etc/motd"
  = readFile (VFS.new 0) "/etc/motd".
Proof.
  apply (rm_changes_no_file_elsewhere 1 (VFS.new 0) "/home" "/etc/motd" true);
    [vm_compute; discriminate|vm_compute; reflexivity].
Defined.

End MutationFacts.

(** ** Files: writing, copying, moving *)

Section FileFacts.
Import Js VFS.

Lemma currentPath_writeFile (now : Z) (vfs : VFS.t) (p s : string) :
  _currentPath (snd (writeFile now vfs p s)) = _currentPath vfs.
Proof.
  unfold writeFile.
  destruct (getNode vfs (parentPathOf (resolvePath vfs p))) as [parent|];
    [|reflexivity].
  destruct (negb (FileType_eqb (type parent) directory)); [reflexivity|].
  destruct (map_get _ (children parent)) as [existing|]; [|reflexivity].
  destruct (negb (FileType_eqb (type existing) file)); reflexivity.
Qed.

Lemma writeFile_resolved (now : Z) (vfs : VFS.t) (p s : string) :
  writeFile now vfs (resolvePath vfs p) s = writeFile now vfs p s.
Proof.
  unfold writeFile.
  replace (resolvePath vfs (resolvePath vfs p)) with (resolvePath vfs p)
    by (unfold resolvePath; now rewrite resolvePathFrom_idempotent).
  reflexivity.
Qed.

(** What a successful [writeFile] below the root leaves at the path. *)
Lemma writeFile_node_below_root (now : Z) (vfs vfs' : VFS.t) (p s : string) :
  resolvePath vfs p <> "/" ->
  writeFile now vfs p s = (true, vfs') ->
  exists node,
    getNode vfs' p = Some node
    /\ type node = file /\ content node = s /\ modifiedAt node = now.
Proof.
  intros Hne Hwf.
  destruct (resolved_below_root vfs p Hne) as (init & l & E & Hi & Hl).
  destruct (locate vfs p init l E Hi Hl) as [Hpar Haddr Hname _ _].
  unfold writeFile in Hwf. rewrite Hpar, Haddr, Hname in Hwf.
  destruct (walk init (root vfs)) as [parent|] eqn:Hw; [|discriminate].
  destruct (negb (FileType_eqb (type parent) directory)); [discriminate|].
  destruct (map_get l (children parent)) as [existing|].
  - destruct (FileType_eqb (type existing) file) eqn:Hty; [|discriminate].
    cbn [negb] in Hwf. inversion Hwf; subst vfs'.
    rewrite (getNode_after_modify vfs p init l _ parent E Hw).
    cbn [set_modifiedAt set_children children].
    rewrite map_get_set_same. eexists. split; [reflexivity|].
    cbn [set_modifiedAt set_content type content modifiedAt].
    destruct (type existing); [auto|discriminate].
  - inversion Hwf; subst vfs'.
    rewrite (getNode_after_modify vfs p init l _ parent E Hw).
    cbn [set_modifiedAt set_children children].
    rewrite map_get_set_same. eexists. split; [reflexivity|].
    cbn [createNode type content modifiedAt]. auto.
Qed.

(** [writeFile] succeeds below the root exactly when the parent is a
    directory and the path is absent or a file. *)
Lemma writeFile_succeeds (now : Z) (vfs : VFS.t) (p s : string)
    (parent : FileNode) :
  resolvePath vfs p <> "/" ->
  getNode vfs (parentPathOf (resolvePath vfs p)) = Some parent ->
  type parent = directory ->
  (getNode vfs p = None
   \/ exists e, getNode vfs p = Some e /\ type e = file) ->
  fst (writeFile now vfs p s) = true.
Proof.
  intros Hne Hparent Hdir Hdest.
  destruct (resolved_below_root vfs p Hne) as (init & l & E & Hi & Hl).
  destruct (locate vfs p init l E Hi Hl) as [Hpar Haddr Hname _ Hpath].
  unfold writeFile. rewrite Hparent, Hdir, Hname. cbn [FileType_eqb negb].
  rewrite Hpar in Hparent. rewrite Hpath, walk_app, Hparent in Hdest.
  cbn [walk] in Hdest.
  destruct (map_get l (children parent)) as [existing|]; [|reflexivity].
  destruct Hdest as [Hd|(e & Hd & Hty)]; [discriminate|].
  inversion Hd; subst e. rewrite Hty. reflexivity.
Qed.

(** X11: after a successful [writeFile] below the root the path exists,
    [stat] reports a file whose size is the length of the content and
    whose modification time is the time of the call, and a second
    [writeFile] to the same path succeeds and replaces the content. *)
Theorem writeFile_creates_then_overwrites (now later : Z)
    (vfs vfs' : VFS.t) (p s s2 : string) :
  resolvePath vfs p <> "/" ->
  writeFile now vfs p s = (true, vfs') ->
  exists_ vfs' p = true
  /\ (exists st,
         stat vfs' p = Some st
         /\ st_type st = file /\ st_size st = len s
         /\ st_modifiedAt st = now)
  /\ fst (writeFile later vfs' p s2) = true
  /\ readFile (snd (writeFile later vfs' p s2)) p = Some s2.
Proof.
  intros Hne Hwf.
  destruct (writeFile_node_below_root _ _ _ _ _ Hne Hwf)
    as (node & Hnode & Hty & Hco & Hmo).
  assert (Hcur : _currentPath vfs' = _currentPath vfs).
  { replace vfs' with (snd (writeFile now vfs p s)) by (now rewrite Hwf).
    apply currentPath_writeFile. }
  assert (Hne' : resolvePath vfs' p <> "/").
  { unfold resolvePath. rewrite Hcur. exact Hne. }
  assert (Hsecond : fst (writeFile later vfs' p s2) = true).
  { destruct (resolved_below_root vfs' p Hne') as (init & l & E & Hi & Hl).
    destruct (locate vfs' p init l E Hi Hl) as [Hpar _ _ _ Hpath].
    rewrite Hpath, walk_app in Hnode.
    destruct (walk init (root vfs')) as [parent|] eqn:Hw; [|discriminate].
    cbn [walk] in Hnode.
    destruct (map_get l (children parent)) as [c|] eqn:Hc; [|discriminate].
    inversion Hnode; subst c.
    pose proof Hwf as Hwf0. unfold writeFile in Hwf0.
    destruct (type parent) eqn:Htp.
    - exfalso.
      destruct (resolved_below_root vfs p Hne) as (i0 & l0 & E0 & Hi0 & Hl0).
      destruct (locate vfs p i0 l0 E0 Hi0 Hl0) as [Hp0 Ha0 Hn0 _ _].
      rewrite Hp0, Ha0, Hn0 in Hwf0.
      assert (Ei : init = i0 /\ l = l0).
      { unfold resolvePath in *. rewrite Hcur in E. rewrite E in E0.
        apply app_inj_tail in E0. tauto. }
      destruct Ei as [-> ->].
      destruct (walk i0 (root vfs)) as [par0|] eqn:Hw0; [|discriminate].
      destruct (type par0) eqn:Ht0; cbn [FileType_eqb negb] in Hwf0;
        [discriminate|].
      assert (Hroot' : exists f0,
                 root vfs' = modifyAt i0 f0 (root vfs)
                 /\ type (f0 par0) = directory).
      { destruct (map_get l0 (children par0)) as [ex|].
        - destruct (negb (FileType_eqb (type ex) file)); [discriminate|].
          inversion Hwf0; subst vfs'. eexists. split; [reflexivity|].
          exact Ht0.
        - inversion Hwf0; subst vfs'. eexists. split; [reflexivity|].
          exact Ht0. }
      destruct Hroot' as (f0 & Hr & Hf0).
      pose proof (walk_modifyAt i0 [] f0 (root vfs) par0 Hw0) as Hw'.
      rewrite app_nil_r, <- Hr, Hw in Hw'. cbn [walk] in Hw'.
      inversion Hw'; subst parent. congruence.
    - apply (writeFile_succeeds later vfs' p s2 parent Hne');
        [now rewrite Hpar|exact Htp|].
      right. exists node. split; [|exact Hty].
      rewrite Hpath, walk_app, Hw. cbn [walk]. now rewrite Hc. }
  split; [unfold exists_; now rewrite Hnode|].
  split.
  - unfold stat. rewrite Hnode. eexists. split; [reflexivity|].
    cbn [st_type st_size st_modifiedAt]. rewrite Hty, Hco.
    cbn [FileType_eqb]. auto.
  - split; [exact Hsecond|].
    apply (writeFile_readFile_below_root later vfs' _ p s2 Hne').
    destruct (writeFile later vfs' p s2) as [b v]. cbn [fst] in Hsecond.
    subst b. reflexivity.
Qed.

Lemma writeFile_creates_then_overwrites_witness :
  readFile
    (snd (writeFile 2 (snd (writeFile 1 (VFS.new 0) "a.txt" "one"))
            "a.txt" "two"))
    "a.txt"
  = Some "two".
Proof.
  destruct (writeFile_creates_then_overwrites 1 2 (VFS.new 0)
              (snd (writeFile 1 (VFS.new 0) "a.txt" "one")) "a.txt" "one"
              "two")
    as (_ & _ & _ & H);
    [vm_compute; discriminate | vm_compute; reflexivity | exact H].
Defined.

Lemma currentPath_rm (now : Z) (vfs : VFS.t) (p : string)
    (recursive : bool) :
  _currentPath (snd (rm now vfs p recursive)) = _currentPath vfs.
Proof.
  unfold rm.
  destruct (getNode vfs (parentPathOf (resolvePath vfs p))) as [parent|];
    [|reflexivity].
  destruct (getNode vfs (resolvePath vfs p)) as [node|]; [|reflexivity].
  destruct (FileType_eqb (type node) directory
            && (0 <? map_size (children node))%nat && negb recursive);
    reflexivity.
Qed.

Lemma readFile_node (vfs : VFS.t) (p c : string) :
  readFile vfs p = Some c ->
  exists n, getNode vfs p = Some n /\ type n = file /\ content n = c.
Proof.
  unfold readFile. destruct (getNode vfs p) as [n|]; [|discriminate].
  destruct (type n) eqn:Ht; cbn [FileType_eqb negb]; [|discriminate].
  intros H. inversion H. eauto.
Qed.

Lemma readFile_of_file (vfs : VFS.t) (p : string) (f : FileNode) :
  getNode vfs p = Some f -> type f = file ->
  readFile vfs p = Some (content f).
Proof. intros Hn Ht. unfold readFile. now rewrite Hn, Ht. Qed.

(** [cp] of a file to a place where a file can be written. *)
Lemma cp_file (fuel : nat) (now : Z) (vfs : VFS.t) (src dest : string)
    (recursive : bool) (f parent : FileNode) :
  getNode vfs src = Some f -> type f = file ->
  resolvePath vfs dest <> "/" ->
  getNode vfs (parentPathOf (resolvePath vfs dest)) = Some parent ->
  type parent = directory ->
  (getNode vfs dest = None
   \/ exists e, getNode vfs dest = Some e /\ type e = file) ->
  cp (S fuel) now vfs src dest recursive
  = Some (true, snd (writeFile now vfs dest (content f)))
  /\ readFile (snd (writeFile now vfs dest (content f))) dest
     = Some (content f).
Proof.
  intros Hsrc Hf Hdb Hparent Hdir Hdest. split.
  - cbn [cp]. rewrite Hsrc, Hf, Hparent, Hdir. cbn [FileType_eqb andb negb].
    now rewrite writeFile_resolved.
  - apply (writeFile_readFile_below_root now vfs _ dest (content f) Hdb).
    pose proof (writeFile_succeeds now vfs dest (content f) parent
                  Hdb Hparent Hdir Hdest) as Hok.
    destruct (writeFile now vfs dest (content f)) as [b v].
    cbn [fst] in Hok. now subst b.
Qed.

(** X12: copying a file to a path whose parent is a directory and which is
    absent or a file succeeds (with any fuel but none); the destination
    then reads as the source, and every other path reads as before, the
    source included. *)
Theorem cp_copies_a_file (fuel : nat) (now : Z) (vfs : VFS.t)
    (src dest : string) (recursive : bool) (f parent : FileNode) :
  getNode vfs src = Some f -> type f = file ->
  resolvePath vfs dest <> "/" ->
  getNode vfs (parentPathOf (resolvePath vfs dest)) = Some parent ->
  type parent = directory ->
  (getNode vfs dest = None
   \/ exists e, getNode vfs dest = Some e /\ type e = file) ->
  exists vfs',
    cp (S fuel) now vfs src dest recursive = Some (true, vfs')
    /\ readFile vfs' dest = Some (content f)
    /\ (forall q : string,
           resolvePath vfs q <> resolvePath vfs dest ->
           readFile vfs' q = readFile vfs q).
Proof.
  intros Hsrc Hf Hdb Hparent Hdir Hdest.
  destruct (cp_file fuel now vfs src dest recursive f parent
              Hsrc Hf Hdb Hparent Hdir Hdest) as [Hcp Hread].
  eexists. split; [exact Hcp|]. split; [exact Hread|].
  intros q Hq. now apply writeFile_frame.
Qed.

Lemma cp_copies_a_file_witness :
  exists vfs',
    cp 1 1 (VFS.new 0) "/etc/motd" "motd.bak" false = Some (true, vfs')
    /\ readFile vfs' "motd.bak" = Some ("Welcome to Midrai Terminal!" +:+ nl).
Proof.
  lazymatch eval vm_compute in (getNode (VFS.new 0) "/etc/motd") with
  | Some ?f =>
      lazymatch eval vm_compute in (getNode (VFS.new 0) "/home/guest") with
      | Some ?d =>
          destruct (cp_copies_a_file 0 1 (VFS.new 0) "/etc/motd" "motd.bak"
                      false f d)
            as (vfs' & Hcp & Hread & _);
          [ vm_compute; reflexivity | reflexivity
          | vm_compute; discriminate | vm_compute; reflexivity
          | reflexivity | left; vm_compute; reflexivity | ]
      end
  end.
  exists vfs'. split; [exact Hcp|exact Hread].
Defined.

Lemma rm_succeeds_on_file (now : Z) (vfs : VFS.t) (p : string)
    (recursive : bool) (n : FileNode) :
  resolvePath vfs p <> "/" ->
  getNode vfs p = Some n -> type n = file ->
  fst (rm now vfs p recursive) = true.
Proof.
  intros Hne Hn Ht.
  destruct (resolved_below_root vfs p Hne) as (init & l & E & Hi & Hl).
  destruct (locate vfs p init l E Hi Hl) as [Hpar _ _ Hnode Hpath].
  unfold rm. rewrite Hpar, Hnode. rewrite Hpath in Hn. rewrite Hn.
  rewrite walk_app in Hn.
  destruct (walk init (root vfs)) as [parent|]; [|discriminate].
  rewrite Ht. reflexivity.
Qed.

(** X13: in a well-formed tree, moving a file to a different path whose
    parent is a directory and which is absent or a file succeeds; the
    destination then has the content of the source, and the source is
    gone. *)
Theorem mv_moves_a_file (fuel : nat) (now : Z) (vfs : VFS.t)
    (src dest : string) (f parent : FileNode) :
  wellFormed (root vfs) ->
  getNode vfs src = Some f -> type f = file ->
  resolvePath vfs src <> "/" ->
  resolvePath vfs dest <> "/" ->
  resolvePath vfs src <> resolvePath vfs dest ->
  getNode vfs (parentPathOf (resolvePath vfs dest)) = Some parent ->
  type parent = directory ->
  (getNode vfs dest = None
   \/ exists e, getNode vfs dest = Some e /\ type e = file) ->
  exists vfs',
    mv (S fuel) now vfs src dest = Some (true, vfs')
    /\ readFile vfs' dest = Some (content f)
    /\ getNode vfs' src = None.
Proof.
  intros Hwf Hsrc Hf Hsb Hdb Hdiff Hparent Hdir Hdest.
  destruct (cp_file fuel now vfs src dest true f parent
              Hsrc Hf Hdb Hparent Hdir Hdest) as [Hcp Hread].
  set (v1 := snd (writeFile now vfs dest (content f))) in *.
  assert (Hcur : _currentPath v1 = _currentPath vfs)
    by apply currentPath_writeFile.
  assert (Hres : forall q, resolvePath v1 q = resolvePath vfs q).
  { intros q. unfold resolvePath. now rewrite Hcur. }
  assert (Hsrc1 : readFile v1 src = Some (content f)).
  { unfold v1. rewrite writeFile_frame by exact Hdiff.
    now apply readFile_of_file. }
  destruct (readFile_node _ _ _ Hsrc1) as (n1 & Hn1 & Ht1 & _).
  assert (Hsb1 : resolvePath v1 src <> "/") by (now rewrite Hres).
  pose proof (rm_succeeds_on_file now v1 src true n1 Hsb1 Hn1 Ht1) as Hok.
  destruct (rm now v1 src true) as [b v2] eqn:Hrm. cbn [fst] in Hok.
  subst b. exists v2. split; [|split].
  - unfold mv. now rewrite Hcp, Hrm.
  - replace v2 with (snd (rm now v1 src true)) by (now rewrite Hrm).
    rewrite rm_frame; [exact Hread|exact Hsb1|].
    rewrite Hcur. intros rest Eq.
    destruct rest as [|r rest].
    + apply Hdiff. symmetry. apply resolvedParts_inj.
      now rewrite Eq, app_nil_r.
    + destruct (resolved_below_root vfs dest Hdb)
        as (init & l & E & Hi & Hl).
      destruct (locate vfs dest init l E Hi Hl) as [Hpar _ _ _ _].
      rewrite Hpar in Hparent.
      destruct (exists_last (l := r :: rest)) as (mid & lst & Hmid);
        [discriminate|].
      rewrite Hmid, E, app_assoc in Eq. apply app_inj_tail in Eq as [Ei _].
      rewrite Ei, walk_app in Hparent.
      rewrite getNode_parts in Hsrc. rewrite Hsrc in Hparent.
      pose proof (wellFormed_walk _ _ _ Hwf Hsrc) as Hfw.
      apply wellFormed_unfold in Hfw as (Hleaf & _).
      destruct mid as [|m mid].
      * cbn [walk] in Hparent. inversion Hparent; subst parent. congruence.
      * cbn [walk] in Hparent. rewrite (Hleaf Hf) in Hparent. discriminate.
  - apply (rm_detaches_below_root now v1 v2 src true Hsb1 Hrm).
Qed.

Lemma mv_moves_a_file_witness :
  exists vfs',
    mv 1 1 (VFS.new 0) "readme.txt" "/tmp/r.txt" = Some (true, vfs')
    /\ getNode vfs' "readme.txt" = None.
Proof.
  lazymatch eval vm_compute in (getNode (VFS.new 0) "readme.txt") with
  | Some ?f =>
      lazymatch eval vm_compute in (getNode (VFS.new 0) "/tmp") with
      | Some ?d =>
          destruct (mv_moves_a_file 0 1 (VFS.new 0) "readme.txt" "/tmp/r.txt"
                      f d)
            as (vfs' & Hmv & _ & Hgone);
          [ apply wellFormed_new | vm_compute; reflexivity | reflexivity
          | vm_compute; discriminate | vm_compute; discriminate
          | vm_compute; discriminate | vm_compute; reflexivity
          | reflexivity | left; vm_compute; reflexivity | ]
      end
  end.
  exists vfs'. split; [exact Hmv|exact Hgone].
Defined.

End FileFacts.

(** ** A directory made, entered and filled *)

Section SessionFacts.
Import Js VFS.

Lemma clean_is_relative (f : string) :
  cleanSegment f -> f <> "~" ->
  negb (truthy f) || String.eqb f "~" = false /\ startsWith "/" f = false.
Proof.
  intros (H1 & _ & _ & H4) Ht. split.
  - apply truthy_spec in H1. rewrite H1.
    destruct (String.eqb_spec f "~"); [contradiction|reflexivity].
  - destruct f as [|c f]; [congruence|]. cbn [includes] in H4.
    apply orb_false_iff in H4 as [Hc _].
    unfold startsWith. change "/" with (String slash EmptyString).
    rewrite prefix_cons, Ascii.eqb_sym, Hc. reflexivity.
Qed.

Lemma resolvedParts_child (currentPath p f : string) :
  cleanSegment f -> f <> "~" ->
  resolvedParts (resolvePathFrom currentPath p) f
  = resolvedParts currentPath p ++ [f].
Proof.
  intros Hf Ht. destruct (clean_is_relative f Hf Ht) as [Hrel Habs].
  unfold resolvedParts at 1. rewrite Hrel, Habs.
  rewrite (resolvePathFrom_parts currentPath p).
  replace (("/" +:+ join "/" (resolvedParts currentPath p)) +:+ "/" +:+ f)
    with (("/" +:+ join "/" (resolvedParts currentPath p)) +:+ rooted [f])
    by (cbn [rooted]; now rewrite append_empty_r).
  rewrite normalizeResult_under by (now constructor).
  rewrite normalizeResult_joined; [reflexivity|apply resolvedParts_clean].
Qed.

(** X14: after a successful [mkdir p] below the root, [cd p] succeeds and
    the new current directory lists as empty; writing a file there under
    a plain name [f] then succeeds, the directory lists exactly that file,
    and the file reads back under its relative name. *)
Theorem mkdir_cd_write_ls (t1 t2 : Z) (vfs v1 : VFS.t) (p f s : string) :
  resolvePath vfs p <> "/" ->
  mkdir t1 vfs p = (true, v1) ->
  cleanSegment f -> f <> "~" ->
  exists v2 v3,
    cd v1 p = (true, v2)
    /\ pwd v2 = resolvePath vfs p
    /\ ls v2 None = Some []
    /\ writeFile t2 v2 f s = (true, v3)
    /\ ls v3 None = Some [createNode t2 file f s]
    /\ readFile v3 f = Some s.
Proof.
  intros Hne Hmk Hf Ht.
  destruct (resolved_below_root vfs p Hne) as (init & l & E & Hi & Hl).
  destruct (locate vfs p init l E Hi Hl) as [Hpar Haddr Hname _ _].
  unfold mkdir in Hmk. rewrite Hpar, Haddr, Hname in Hmk.
  destruct (walk init (root vfs)) as [parent|] eqn:Hw; [|discriminate].
  destruct (negb (FileType_eqb (type parent) directory)); [discriminate|].
  destruct (map_has l (children parent)); [discriminate|].
  inversion Hmk; subst v1. clear Hmk.
  set (newDir := createNode t1 directory l EmptyString) in *.
  set (r1 := modifyAt init
               (fun x => set_modifiedAt t1
                           (set_children (map_set l newDir (children x)) x))
               (root vfs)).
  assert (Hw1 : walk (init ++ [l]) r1 = Some newDir).
  { unfold r1. rewrite (walk_modifyAt _ _ _ _ _ Hw).
    cbn [walk set_modifiedAt set_children children].
    now rewrite map_get_set_same. }
  assert (HR : forall c, resolvedParts c (resolvePath vfs p) = init ++ [l]).
  { intros c. unfold resolvePath. rewrite resolvePathFrom_parts, E.
    apply resolvedParts_joined. rewrite <- E. apply resolvedParts_clean. }
  assert (Hdir1 : getNode (set_root r1 vfs) (resolvePath vfs p)
                  = Some newDir).
  { now rewrite getNode_set_root, HR. }
  set (v2 := mkVFS r1 (resolvePath vfs p)).
  assert (Hcd : cd (set_root r1 vfs) p = (true, v2)).
  { unfold cd. change (resolvePath (set_root r1 vfs) p)
      with (resolvePath vfs p).
    rewrite Hdir1. reflexivity. }
  assert (Hhere : forall r, getNode (mkVFS r (resolvePath vfs p))
                              (resolvePath vfs p)
                            = walk (init ++ [l]) r).
  { intros r. rewrite getNode_parts. cbn [_currentPath root]. now rewrite HR. }
  assert (Ef : resolvedParts (_currentPath v2) f = (init ++ [l]) ++ [f]).
  { unfold v2. cbn [_currentPath]. unfold resolvePath.
    rewrite (resolvedParts_child _ _ _ Hf Ht). now rewrite E. }
  assert (Hall : Forall cleanSegment (init ++ [l])).
  { apply Forall_app. split; [exact Hi|now constructor]. }
  destruct (locate v2 f (init ++ [l]) f Ef Hall Hf)
    as [Hpar2 Haddr2 Hname2 _ _].
  set (newFile := createNode t2 file f s).
  set (v3 := set_root
               (modifyAt (init ++ [l])
                  (fun x => set_modifiedAt t2
                              (set_children
                                 (map_set f newFile (children x)) x))
                  r1) v2).
  assert (Hwrite : writeFile t2 v2 f s = (true, v3)).
  { unfold writeFile. rewrite Hpar2, Haddr2, Hname2.
    change (root v2) with r1. rewrite Hw1. reflexivity. }
  exists v2, v3.
  split; [exact Hcd|]. split; [reflexivity|]. split.
  - unfold ls. change (_currentPath v2) with (resolvePath vfs p).
    unfold v2. rewrite Hhere, Hw1. reflexivity.
  - split; [exact Hwrite|]. split.
    + unfold ls. change (_currentPath v3) with (resolvePath vfs p).
      unfold v3, set_root. cbn [_currentPath v2]. unfold v2.
      cbn [_currentPath]. rewrite Hhere.
      pose proof (walk_modifyAt (init ++ [l]) []
                    (fun x => set_modifiedAt t2
                                (set_children
                                   (map_set f newFile (children x)) x))
                    r1 newDir Hw1) as Hw3.
      rewrite app_nil_r in Hw3. rewrite Hw3. reflexivity.
    + apply (writeFile_readFile_below_root t2 v2 v3 f s); [|exact Hwrite].
      intros Hroot. apply resolvePath_root_parts in Hroot.
      rewrite Ef in Hroot. destruct (init ++ [l]); discriminate.
Qed.

Lemma mkdir_cd_write_ls_witness :
  exists v2 v3,
    cd (snd (mkdir 1 (VFS.new 0) "/home/guest/p")) "/home/guest/p"
    = (true, v2)
    /\ writeFile 2 v2 "a.txt" EmptyString = (true, v3)
    /\ ls v3 None = Some [createNode 2 file "a.txt" EmptyString].
Proof.
  destruct (mkdir_cd_write_ls 1 2 (VFS.new 0)
              (snd (mkdir 1 (VFS.new 0) "/home/guest/p")) "/home/guest/p"
              "a.txt" EmptyString)
    as (v2 & v3 & H1 & _ & _ & H4 & H5 & _);
    [ vm_compute; discriminate | vm_compute; reflexivity
    | repeat split; (discriminate || reflexivity) | discriminate | ].
  exists v2, v3. auto.
Defined.

End SessionFacts.

(** ** The tokenizer and the registry *)

Section TokenizerFacts.
Import Js CLI.

Lemma Forall_snoc {A : Type} (P : A -> Prop) (l : list A) (x : A) :
  Forall P l -> P x -> Forall P (l ++ [x]).
Proof. intros Hl Hx. apply Forall_app. split; [exact Hl|now constructor]. Qed.

Lemma tokenizeStep_tokens (st : TokenizerState) (c : ascii) :
  Forall (fun t => t <> EmptyString) (tokens st) ->
  Forall (fun t => t <> EmptyString) (tokens (tokenizeStep st c)).
Proof.
  intros H. unfold tokenizeStep.
  destruct (escaped st); [exact H|].
  destruct (Ascii.eqb c backslash); [exact H|].
  destruct (Ascii.eqb c dquote || Ascii.eqb c squote).
  - destruct (inQuote st) as [q|]; [|exact H].
    destruct (Ascii.eqb q c); exact H.
  - destruct (Ascii.eqb c space
              && match inQuote st with Some _ => false | None => true end);
      [|exact H].
    destruct (truthy (current st)) eqn:E; [|exact H].
    cbn [tokens]. apply Forall_snoc; [exact H|]. now apply truthy_spec.
Qed.

Lemma tokenizeLoop_tokens (input : string) (st : TokenizerState) :
  Forall (fun t => t <> EmptyString) (tokens st) ->
  Forall (fun t => t <> EmptyString) (tokens (tokenizeLoop input st)).
Proof.
  revert st. induction input as [|c r IH]; intros st H; [exact H|].
  cbn [tokenizeLoop]. apply IH. now apply tokenizeStep_tokens.
Qed.

(** X15: [tokenize] never yields an empty token, whatever the input:
    runs of spaces, leading and trailing spaces and empty quotes add
    nothing.  So the command name of [parseInput] is empty only when
    there is no token at all. *)
Theorem tokenize_yields_no_empty_token (input : string) :
  Forall (fun t => t <> EmptyString) (tokenize input)
  /\ (command (parseInput input) = EmptyString <-> tokenize input = []).
Proof.
  assert (HF : Forall (fun t => t <> EmptyString) (tokenize input)).
  { unfold tokenize.
    pose proof (tokenizeLoop_tokens input (mkTok [] EmptyString None false)
                  (List.Forall_nil _)) as H.
    destruct (truthy (current (tokenizeLoop input _))) eqn:E; [|exact H].
    apply Forall_snoc; [exact H|]. now apply truthy_spec. }
  split; [exact HF|].
  unfold parseInput.
  destruct (fold_left parseToken (tl (tokenize input)) ([], [])).
  cbn [command]. destruct (tokenize input) as [|t0 ts]; [tauto|].
  inversion HF as [|? ? Ht0 _]; subst. unfold orElse.
  apply truthy_spec in Ht0. rewrite Ht0.
  apply truthy_spec in Ht0. split; [contradiction|discriminate].
Qed.

(** The tokens still to come from a plain input, given the token under
    construction. *)
Lemma tokenizeLoop_plain (input : string) :
  forall (toks : list string) (cur : string),
    Js.forallb isPlain input = true ->
    flush (tokenizeLoop input (mkTok toks cur None false))
    = toks ++ List.filter truthy
                (match split space input with
                 | h :: t => (cur +:+ h) :: t
                 | [] => [cur]
                 end).
Proof.
  induction input as [|c r IH]; intros toks cur Hp.
  - unfold flush. cbn [tokenizeLoop split current tokens].
    rewrite append_empty_r.
    cbn [List.filter]. destruct (truthy cur); [reflexivity|].
    now rewrite app_nil_r.
  - cbn [Js.forallb] in Hp. apply andb_true_iff in Hp as [Hc Hr].
    unfold isPlain in Hc. apply negb_true_iff in Hc.
    apply orb_false_iff in Hc as [Hc Hsq].
    apply orb_false_iff in Hc as [Hbs Hdq].
    cbn [tokenizeLoop]. unfold tokenizeStep at 1.
    cbn [escaped inQuote current tokens]. rewrite Hbs, Hdq, Hsq.
    cbn [orb]. cbn [split].
    destruct (Ascii.eqb c space) eqn:Hsp; cbn [andb].
    + destruct (truthy cur) eqn:Hcur.
      * rewrite (IH _ _ Hr). rewrite append_empty_r. cbn [List.filter].
        rewrite Hcur. rewrite <- app_assoc. cbn [app]. f_equal. f_equal.
        pose proof (split_not_nil space r) as Hne.
        destruct (split space r); [congruence|reflexivity].
      * rewrite (IH _ _ Hr). rewrite append_empty_r. cbn [List.filter].
        rewrite Hcur. apply truthy_false in Hcur. subst cur.
        f_equal. f_equal.
        pose proof (split_not_nil space r) as Hne.
        destruct (split space r); [congruence|reflexivity].
    + rewrite (IH _ _ Hr). unfold addChar.
      pose proof (split_not_nil space r) as Hne.
      destruct (split space r) as [|h t]; [congruence|].
      now rewrite append_assoc.
Qed.

Lemma forallb_append (P : ascii -> bool) (a b : string) :
  Js.forallb P (a +:+ b) = Js.forallb P a && Js.forallb P b.
Proof.
  induction a as [|c a IH]; [reflexivity|].
  change (String c a +:+ b) with (String c (a +:+ b)).
  cbn [Js.forallb]. now rewrite IH, andb_assoc.
Qed.

Lemma forallb_join (P : ascii -> bool) (sep : string) (l : list string) :
  Js.forallb P sep = true ->
  Forall (fun t => Js.forallb P t = true) l ->
  Js.forallb P (join sep l) = true.
Proof.
  intros Hsep HF. unfold join. induction HF as [|x l Hx Hl IH];
    [reflexivity|].
  destruct l as [|y l]; [exact Hx|].
  change (String.concat sep (x :: y :: l))
    with (x +:+ sep +:+ String.concat sep (y :: l)).
  now rewrite !forallb_append, Hx, Hsep, IH.
Qed.

Lemma tokenize_plain (input : string) :
  Js.forallb isPlain input = true ->
  tokenize input = List.filter truthy (split space input).
Proof.
  intros Hp.
  change (tokenize input)
    with (flush (tokenizeLoop input (mkTok [] EmptyString None false))).
  rewrite (tokenizeLoop_plain input [] EmptyString Hp). cbn [app].
  pose proof (split_not_nil space input) as Hne.
  destruct (split space input); [congruence|reflexivity].
Qed.

(** X16: on an input without quote or backslash, [tokenize] is the split
    on spaces with the empty pieces dropped; so tokens without space,
    quote or backslash, joined by single spaces, tokenize back to
    themselves. *)
Theorem tokenize_plain_input :
  (forall input : string,
      Js.forallb isPlain input = true ->
      tokenize input = List.filter truthy (split space input))
  /\ (forall toks : list string,
         Forall (fun t => t <> EmptyString
                          /\ Js.forallb isPlain t = true
                          /\ includes space t = false) toks ->
         tokenize (join " " toks) = toks).
Proof.
  assert (Hplain : forall input : string,
             Js.forallb isPlain input = true ->
             tokenize input = List.filter truthy (split space input)).
  { exact tokenize_plain. }
  split; [exact Hplain|].
  intros toks HF. destruct toks as [|t0 ts]; [reflexivity|].
  rewrite Hplain.
  - change " " with (String space EmptyString).
    rewrite split_join; [|discriminate|].
    + induction HF as [|x l (Hx & _) _ IH]; [reflexivity|].
      cbn [List.filter]. apply truthy_spec in Hx. rewrite Hx.
      now rewrite IH.
    + eapply List.Forall_impl; [|exact HF]. intros a (_ & _ & H). exact H.
  - apply forallb_join; [reflexivity|].
    eapply List.Forall_impl; [|exact HF]. intros a (_ & H & _). exact H.
Qed.

Lemma tokenize_plain_input_witness :
  tokenize "  rm   -rf  /tmp/x " = ["rm"; "-rf"; "/tmp/x"]
  /\ tokenize (join " " ["ls"; "-l"; "docs"]) = ["ls"; "-l"; "docs"].
Proof.
  destruct tokenize_plain_input as [Hsplit Hjoin]. split.
  - rewrite Hsplit; reflexivity.
  - apply Hjoin. repeat constructor; discriminate.
Defined.

(** X17: the registry behaves as a map keyed by command name:
    [registerCommand] makes the command the one found under its name,
    replaces a command of the same name in place (same names, same
    order) and leaves every other name as it was; [unregisterCommand]
    reports whether the name was registered, removes it and leaves every
    other name as it was. *)
Theorem registry_is_a_map (cli : CLI.t) (c : CommandDefinition) :
  getCommand (registerCommand cli c) (cmd_name c) = Some c
  /\ hasCommand (registerCommand cli c) (cmd_name c) = true
  /\ (forall n : string,
         n <> cmd_name c ->
         getCommand (registerCommand cli c) n = getCommand cli n)
  /\ (hasCommand cli (cmd_name c) = true ->
      map_keys (commands (registerCommand cli c)) = map_keys (commands cli))
  /\ (forall n : string,
         fst (unregisterCommand cli n) = hasCommand cli n
         /\ hasCommand (snd (unregisterCommand cli n)) n = false
         /\ (forall m : string,
                m <> n ->
                getCommand (snd (unregisterCommand cli n)) m
                = getCommand cli m)).
Proof.
  unfold getCommand, hasCommand, registerCommand, unregisterCommand.
  cbn [commands fst snd].
  split; [apply map_get_set_same|].
  split; [unfold map_has; now rewrite map_get_set_same|].
  split; [intros n Hn; now apply map_get_set_other|].
  split.
  - unfold map_has, map_keys.
    destruct (map_get (cmd_name c) (commands cli)) as [o|] eqn:E;
      [|discriminate].
    intros _. now apply (map_set_present _ _ o).
  - intros n. split; [reflexivity|]. split.
    + unfold map_has. now rewrite map_get_delete_same.
    + intros m Hm. now apply map_get_delete_other.
Qed.

Lemma registry_is_a_map_witness :
  getCommand (registerCommand (CLI.new (VFS.new 0) FakeShell.defaultEnv)
                Commands.pwd) "ls" = None
  /\ map_keys
       (commands
          (registerCommand
             (registerCommand (CLI.new (VFS.new 0) FakeShell.defaultEnv)
                Commands.pwd)
             Commands.pwd))
     = ["pwd"].
Proof.
  destruct (registry_is_a_map (CLI.new (VFS.new 0) FakeShell.defaultEnv)
              Commands.pwd) as (_ & _ & Hother & _).
  destruct (registry_is_a_map
              (registerCommand (CLI.new (VFS.new 0) FakeShell.defaultEnv)
                 Commands.pwd)
              Commands.pwd) as (_ & _ & _ & Hsame & _).
  split.
  - rewrite Hother; [reflexivity|discriminate].
  - rewrite Hsame; reflexivity.
Defined.

End TokenizerFacts.

(** ** Dispatch *)

Section ExecuteFacts.
Import Js CLI.

Lemma trimStart_blank (s : string) :
  Js.forallb isWhiteSpace s = true -> trimStart s = EmptyString.
Proof.
  induction s as [|c s IH]; [reflexivity|]. cbn [Js.forallb trimStart].
  intros H. apply andb_true_iff in H as [Hc Hs]. rewrite Hc. now apply IH.
Qed.

(** A line made of whitespace only (the empty line included) is
    dispatched to nothing: [execute] returns 0 and leaves the dispatcher,
    its sink and the filesystem exactly as they were. *)
Lemma execute_blank_line (cli : CLI.t) (input : string) :
  Js.forallb isWhiteSpace input = true ->
  execute cli input = (0%Z, cli).
Proof.
  intros H. unfold execute, trim. now rewrite (trimStart_blank _ H).
Qed.

(** What [execute] does once the command is found. *)
Lemma execute_found (cli : CLI.t) (input : string) (cmd : CommandDefinition) :
  commandNameOf input <> EmptyString ->
  map_get (commandNameOf input) (commands cli) = Some cmd ->
  execute cli input
  = match outcome (cmd_execute cmd (contextOf cli input)) with
    | Returned code =>
        (code,
         mkCLI (commands cli)
               (vfsAfter (cmd_execute cmd (contextOf cli input)))
               (env cli)
               (output cli
                ++ emitted (cmd_execute cmd (contextOf cli input))))
    | Thrown message =>
        (1%Z,
         mkCLI (commands cli)
               (vfsAfter (cmd_execute cmd (contextOf cli input)))
               (env cli)
               ((output cli
                 ++ emitted (cmd_execute cmd (contextOf cli input)))
                ++ [Error (commandNameOf input +:+ ": " +:+
                           match message with
                           | Some m => m
                           | None => "Unknown error"
                           end)]))
    end.
Proof.
  unfold commandNameOf, contextOf, contextEnvOf, commandLineOf, execute.
  intros Hne Hget.
  destruct (truthy (trim input)) eqn:Et; cbn [negb].
  - destruct (matchAssignment (trim input)) as [[[n v] rest]|].
    + apply truthy_spec in Hne. rewrite Hne. cbn [negb].
      rewrite assignmentBlock_never_returns, Hget.
      destruct (outcome _); reflexivity.
    + apply truthy_spec in Hne. rewrite Hne. cbn [negb].
      rewrite assignmentBlock_never_returns, Hget.
      destruct (outcome _); reflexivity.
  - apply truthy_false in Et. rewrite Et in Hne. now contradiction Hne.
Qed.

(** X18: when the command name of a line is registered, [execute] calls
    its handler once, on the current filesystem and on the global
    environment overlaid with the one-shot assignment of the line; the
    name ["__proto__"] makes no overlay, the handler then sees the global
    environment as it is.  If the handler returns a code, that code is the
    exit status and the sink receives exactly what the handler printed; if
    it throws, the status is 1 and the sink receives what the handler
    printed followed by one error line, the command name, a colon and the
    message.  The filesystem becomes the one the handler left. *)
Theorem execute_runs_the_handler (cli : CLI.t) (input : string)
    (cmd : CommandDefinition) :
  commandNameOf input <> EmptyString ->
  map_get (commandNameOf input) (commands cli) = Some cmd ->
  (forall code : Z,
      outcome (cmd_execute cmd (contextOf cli input)) = Returned code ->
      fst (execute cli input) = code
      /\ output (snd (execute cli input))
         = output cli ++ emitted (cmd_execute cmd (contextOf cli input)))
  /\ (forall message : option string,
         outcome (cmd_execute cmd (contextOf cli input)) = Thrown message ->
         fst (execute cli input) = 1%Z
         /\ output (snd (execute cli input))
            = output cli
              ++ emitted (cmd_execute cmd (contextOf cli input))
              ++ [Error (commandNameOf input +:+ ": "
                         +:+ default "Unknown error" message)])
  /\ vfs (snd (execute cli input))
     = vfsAfter (cmd_execute cmd (contextOf cli input))
  /\ ctx_vfs (contextOf cli input) = vfs cli
  /\ ctx_cwd (contextOf cli input) = VFS.pwd (vfs cli)
  /\ (forall (n v rest : string),
         matchAssignment (trim input) = Some (n, v, rest) ->
         ctx_args (contextOf cli input) = args (parseInput rest)
         /\ (n <> "__proto__" ->
             ctx_env (contextOf cli input) !! n = Some v
             /\ (forall k : string,
                    k <> n ->
                    ctx_env (contextOf cli input) !! k = env cli !! k))
         /\ (n = "__proto__" ->
             ctx_env (contextOf cli input) = env cli))
  /\ (matchAssignment (trim input) = None ->
      ctx_env (contextOf cli input) = env cli).
Proof.
  intros Hne Hget. rewrite (execute_found _ _ _ Hne Hget).
  split; [|split; [|split; [|split; [|split; [|split]]]]].
  - intros code Hc. rewrite Hc. split; reflexivity.
  - intros message Hm. rewrite Hm. cbn [fst snd output].
    split; [reflexivity|]. rewrite <- app_assoc. now destruct message.
  - destruct (outcome _); reflexivity.
  - reflexivity.
  - reflexivity.
  - intros n v rest Hm. unfold contextOf, contextEnvOf, commandLineOf.
    rewrite Hm. cbn [ctx_env ctx_args]. unfold localEnvOf.
    split; [reflexivity|]. split.
    + intros Hn. apply String.eqb_neq in Hn. rewrite Hn. split.
      * apply lookup_union_Some_l. apply lookup_insert_eq.
      * intros k Hk. rewrite lookup_union_r; [reflexivity|].
        rewrite lookup_insert_ne by congruence. apply lookup_empty.
    + intros ->. cbn. apply (left_id_L ∅ (∪)).
  - intros Hm. unfold contextOf, contextEnvOf. rewrite Hm. cbn [ctx_env].
    apply (left_id_L ∅ (∪)).
Qed.

Lemma execute_runs_the_handler_witness :
  fst (execute
         (registerCommand (CLI.new (VFS.new 0) FakeShell.defaultEnv)
            Commands.whoami)
         "USER=root whoami")
  = 0%Z
  /\ output
       (snd (execute
               (registerCommand (CLI.new (VFS.new 0) FakeShell.defaultEnv)
                  Commands.whoami)
               "USER=root whoami"))
     = [Println "root"]
  /\ ctx_env
       (contextOf
          (registerCommand (CLI.new (VFS.new 0) FakeShell.defaultEnv)
             Commands.whoami)
          "__proto__=x whoami")
     = FakeShell.defaultEnv.
Proof.
  destruct (execute_runs_the_handler
              (registerCommand (CLI.new (VFS.new 0) FakeShell.defaultEnv)
                 Commands.whoami)
              "USER=root whoami" Commands.whoami)
    as (Hret & _ & _ & _ & _ & Hone & _);
    [discriminate | reflexivity |].
  destruct (Hone "USER" "root" "whoami" eq_refl) as (_ & Hset & _).
  destruct (Hset ltac:(discriminate)) as [Huser _].
  assert (Hcode : outcome
                    (cmd_execute Commands.whoami
                       (contextOf
                          (registerCommand
                             (CLI.new (VFS.new 0) FakeShell.defaultEnv)
                             Commands.whoami)
                          "USER=root whoami"))
                  = Returned 0) by reflexivity.
  destruct (Hret 0%Z Hcode) as [Hfst Hout].
  split; [exact Hfst|]. split.
  - rewrite Hout. cbn [Commands.whoami cmd_execute emitted CLI.new
                       registerCommand output app].
    now rewrite Huser.
  - destruct (execute_runs_the_handler
                (registerCommand (CLI.new (VFS.new 0) FakeShell.defaultEnv)
                   Commands.whoami)
                "__proto__=x whoami" Commands.whoami)
      as (_ & _ & _ & _ & _ & Hproto & _);
      [discriminate | reflexivity |].
    destruct (Hproto "__proto__" "x" "whoami" eq_refl) as (_ & _ & Hsame).
    now apply Hsame.
Defined.

Lemma endsWithChar_absent (c : ascii) (s : string) :
  includes c s = false -> endsWithChar c s = false.
Proof.
  induction s as [|a s IH]; [reflexivity|]. cbn [includes].
  intros H. apply orb_false_iff in H as [Ha Hs].
  cbn [endsWithChar]. destruct s; [exact Ha|now apply IH].
Qed.

Lemma parseInput_plain_word (w : string) :
  w <> EmptyString -> Js.forallb isPlain w = true ->
  includes space w = false ->
  parseInput w = mkParsed w [] [].
Proof.
  intros Hw Hp Hs. unfold parseInput.
  rewrite (tokenize_plain _ Hp), (split_without_sep _ _ Hs).
  cbn [List.filter]. apply truthy_spec in Hw. rewrite Hw.
  cbn [tl fold_left]. unfold orElse. now rewrite Hw.
Qed.

(** X20: completion of a bare word.  For the empty input [complete]
    returns every registered name, in registration order; for a word
    without space, quote or backslash it returns the registered names
    that start with the word, in that order, whatever the filesystem. *)
Theorem complete_bare_word (cli : CLI.t) :
  complete cli EmptyString = map_keys (commands cli)
  /\ (forall w : string,
         w <> EmptyString -> Js.forallb isPlain w = true ->
         includes space w = false ->
         complete cli w
         = List.filter (fun nm => startsWith w nm) (map_keys (commands cli))).
Proof.
  split.
  - unfold complete. cbn.
    induction (map_keys (commands cli)) as [|k ks IH]; [reflexivity|].
    cbn [List.filter]. unfold startsWith in *. rewrite prefix_empty.
    f_equal. exact IH.
  - intros w Hw Hp Hs. unfold complete.
    rewrite (parseInput_plain_word w Hw Hp Hs). cbn [args command].
    now rewrite (endsWithChar_absent _ _ Hs).
Qed.

Lemma complete_bare_word_witness :
  complete
    (registerCommands (CLI.new (VFS.new 0) FakeShell.defaultEnv)
       [Commands.pwd; Commands.whoami; Commands.history])
    "w"
  = ["whoami"].
Proof.
  destruct (complete_bare_word
              (registerCommands (CLI.new (VFS.new 0) FakeShell.defaultEnv)
                 [Commands.pwd; Commands.whoami; Commands.history]))
    as [_ H].
  rewrite H; [reflexivity | discriminate | reflexivity | reflexivity].
Defined.

End ExecuteFacts.

(** ** The file commands *)

Section CommandFacts.
Import Js VFS CLI.

Lemma resolvePath_same_cwd (v v' : VFS.t) (p : string) :
  _currentPath v' = _currentPath v -> resolvePath v' p = resolvePath v p.
Proof. intros E. unfold resolvePath. now rewrite E. Qed.

Lemma getNode_same_place (vfs : VFS.t) (p q : string) :
  resolvePath vfs q = resolvePath vfs p -> getNode vfs q = getNode vfs p.
Proof.
  intros E. destruct vfs as [r c].
  pose proof (getNode_resolved (mkVFS r c) c p) as Hp.
  pose proof (getNode_resolved (mkVFS r c) c q) as Hq.
  cbn [root] in Hp, Hq. rewrite <- Hp, <- Hq. now rewrite E.
Qed.

Lemma readFile_same_place (vfs : VFS.t) (p q : string) :
  resolvePath vfs q = resolvePath vfs p -> readFile vfs q = readFile vfs p.
Proof. intros E. unfold readFile. now rewrite (getNode_same_place _ _ _ E). Qed.

Lemma root_parts_not_empty_name (currentPath q : string)
    (rest : list string) :
  resolvedParts currentPath q <> [] ++ EmptyString :: rest.
Proof.
  intros Eq. pose proof (resolvedParts_clean currentPath q) as HF.
  rewrite Eq in HF. inversion HF as [|? ? (Hne & _) _]. now apply Hne.
Qed.

Lemma writeFile_at_root_frame (now : Z) (vfs : VFS.t) (p s q : string) :
  resolvePath vfs p = "/" ->
  readFile (snd (writeFile now vfs p s)) q = readFile vfs q.
Proof.
  intros Hroot. unfold writeFile. rewrite Hroot.
  change (parentPathOf "/") with "/". change (baseNameOf "/") with EmptyString.
  rewrite getNode_root, nodeAddress_root.
  destruct (negb (FileType_eqb (type (root vfs)) directory)); [reflexivity|].
  destruct (map_get EmptyString (children (root vfs))) as [existing|].
  - destruct (negb (FileType_eqb (type existing) file)); [reflexivity|].
    cbn [snd]. rewrite !readFile_view, getNode_set_root, getNode_parts.
    rewrite (walk_frame EmptyString (map_set EmptyString _) now
               (fun k m Hk => map_get_set_other _ _ _ _ Hk) [] (root vfs));
      [reflexivity|]. apply root_parts_not_empty_name.
  - cbn [snd]. rewrite !readFile_view, getNode_set_root, getNode_parts.
    rewrite (walk_frame EmptyString (map_set EmptyString _) now
               (fun k m Hk => map_get_set_other _ _ _ _ Hk) [] (root vfs));
      [reflexivity|]. apply root_parts_not_empty_name.
Qed.

Lemma writeFile_refused (now : Z) (vfs : VFS.t) (p s : string) :
  fst (writeFile now vfs p s) = false -> snd (writeFile now vfs p s) = vfs.
Proof.
  unfold writeFile.
  destruct (getNode vfs (parentPathOf (resolvePath vfs p))) as [parent|];
    [|reflexivity].
  destruct (negb (FileType_eqb (type parent) directory)); [reflexivity|].
  destruct (map_get _ (children parent)) as [existing|]; [|discriminate].
  destruct (negb (FileType_eqb (type existing) file));
    [reflexivity|discriminate].
Qed.

(** What writing [s] to [p] does to the file read at the place of [p]. *)
Lemma writeFile_at_place (now : Z) (vfs : VFS.t) (p s : string) :
  readFile (snd (writeFile now vfs p s)) p = readFile vfs p
  \/ readFile (snd (writeFile now vfs p s)) p = Some s.
Proof.
  destruct (String.eqb_spec (resolvePath vfs p) "/") as [Hroot|Hbelow].
  - left. now apply writeFile_at_root_frame.
  - destruct (writeFile now vfs p s) as [[|] v'] eqn:Hwf.
    + right. cbn [snd]. exact (writeFile_readFile_below_root _ _ _ _ _
                                 Hbelow Hwf).
    + left. pose proof (writeFile_refused now vfs p s) as Hw.
      rewrite Hwf in Hw. cbn [fst snd] in *. now rewrite Hw.
Qed.

Lemma currentPath_touchStep (now : Z) (v : VFS.t) (p : string) :
  _currentPath (Commands.touchStep now v p) = _currentPath v.
Proof.
  unfold Commands.touchStep.
  destruct (readFile v p); apply currentPath_writeFile.
Qed.

(** One round of the loop of [touch]: at any path, the file read is as
    before, or an empty file has appeared at the place of the operand. *)
Lemma touchStep_effect (now : Z) (v : VFS.t) (p q : string) :
  readFile (Commands.touchStep now v p) q = readFile v q
  \/ (readFile v q = None
      /\ readFile (Commands.touchStep now v p) q = Some EmptyString
      /\ resolvePath v p = resolvePath v q).
Proof.
  unfold Commands.touchStep.
  destruct (String.eqb_spec (resolvePath v q) (resolvePath v p)) as [E|Hne].
  - assert (Hafter : forall s,
               readFile (snd (writeFile now v p s)) q
               = readFile (snd (writeFile now v p s)) p).
    { intros s. apply readFile_same_place.
      now rewrite !(resolvePath_same_cwd v _ _ (currentPath_writeFile _ _ _ _)). }
    rewrite (readFile_same_place _ _ _ E).
    destruct (readFile v p) as [existing|] eqn:Hr.
    + left. rewrite Hafter.
      destruct (writeFile_at_place now v p existing) as [H|H]; congruence.
    + rewrite Hafter.
      destruct (writeFile_at_place now v p EmptyString) as [H|H].
      * left. congruence.
      * right. auto.
  - left. destruct (readFile v p); now apply writeFile_frame.
Qed.

Lemma touch_loop (now : Z) (paths : list string) :
  forall (v : VFS.t) (q : string),
    _currentPath (fold_left (Commands.touchStep now) paths v)
    = _currentPath v
    /\ (readFile (fold_left (Commands.touchStep now) paths v) q
        = readFile v q
        \/ (readFile v q = None
            /\ readFile (fold_left (Commands.touchStep now) paths v) q
               = Some EmptyString
            /\ Exists (fun a => resolvePath v a = resolvePath v q) paths)).
Proof.
  induction paths as [|a paths IH]; intros v q; cbn [fold_left].
  - split; [reflexivity|now left].
  - destruct (IH (Commands.touchStep now v a) q) as [Hcur Hread].
    pose proof (currentPath_touchStep now v a) as Hstep.
    split; [congruence|].
    destruct (touchStep_effect now v a q) as [Hs|(Hnone & Hsome & Hat)];
      destruct Hread as [Hr|(Hnone' & Hsome' & Hex)].
    + left. congruence.
    + right. split; [congruence|]. split; [exact Hsome'|].
      apply Exists_cons_tl.
      apply List.Exists_exists in Hex as (x & Hin & Hx).
      apply List.Exists_exists. exists x. split; [exact Hin|].
      now rewrite !(resolvePath_same_cwd v _ _ Hstep) in Hx.
    + right. split; [exact Hnone|]. split; [congruence|].
      now apply Exists_cons_hd.
    + congruence.
Qed.

(** X21: the [touch] command only ever adds empty files.  Whatever its
    operands, the working directory is unchanged, and at every path the
    file read afterwards is the one read before, same content included,
    unless no file was read there before and the path is the place of an
    operand, where an empty file may have appeared.  With operands the
    command prints nothing and returns 0, whether or not the files could
    be created. *)
Theorem touch_only_adds_empty_files (now : Z) (ctx : CommandContext)
    (q : string) :
  pwd (vfsAfter (cmd_execute (Commands.touch now) ctx)) = pwd (ctx_vfs ctx)
  /\ (readFile (vfsAfter (cmd_execute (Commands.touch now) ctx)) q
      = readFile (ctx_vfs ctx) q
      \/ (readFile (ctx_vfs ctx) q = None
          /\ readFile (vfsAfter (cmd_execute (Commands.touch now) ctx)) q
             = Some EmptyString
          /\ Exists (fun a => resolvePath (ctx_vfs ctx) a
                              = resolvePath (ctx_vfs ctx) q)
                    (ctx_args ctx)))
  /\ (ctx_args ctx <> [] ->
      outcome (cmd_execute (Commands.touch now) ctx) = Returned 0
      /\ emitted (cmd_execute (Commands.touch now) ctx) = []).
Proof.
  cbn [Commands.touch cmd_execute]. unfold pwd.
  destruct (ctx_args ctx) as [|a rest] eqn:Ha.
  - cbn [vfsAfter]. split; [reflexivity|]. split; [now left|congruence].
  - cbn [vfsAfter outcome emitted].
    destruct (touch_loop now (a :: rest) (ctx_vfs ctx) q) as [Hcur Hread].
    split; [exact Hcur|]. split; [exact Hread|]. intros _. now split.
Qed.

Lemma touch_only_adds_empty_files_witness :
  outcome
    (cmd_execute (Commands.touch 1)
       (mkContext (VFS.new 0) ∅ "/home/guest" ["readme.txt"; "new.txt"] []))
  = Returned 0
  /\ emitted
       (cmd_execute (Commands.touch 1)
          (mkContext (VFS.new 0) ∅ "/home/guest" ["readme.txt"; "new.txt"]
             []))
     = [].
Proof.
  destruct (touch_only_adds_empty_files 1
              (mkContext (VFS.new 0) ∅ "/home/guest"
                 ["readme.txt"; "new.txt"] [])
              "/etc/motd") as (_ & _ & Hret).
  apply Hret. cbn [ctx_args]. discriminate.
Defined.

Lemma currentPath_mkdir (now : Z) (vfs : VFS.t) (p : string) :
  _currentPath (snd (mkdir now vfs p)) = _currentPath vfs.
Proof.
  unfold mkdir.
  destruct (getNode vfs (parentPathOf (resolvePath vfs p))) as [parent|];
    [|reflexivity].
  destruct (negb (FileType_eqb (type parent) directory)); [reflexivity|].
  destruct (map_has _ (children parent)); reflexivity.
Qed.

(** [mkdir] leaves every node that was reachable where it was, with its
    type and content. *)
Lemma mkdir_view (now : Z) (vfs : VFS.t) (p q : string) (d : FileNode) :
  getNode vfs q = Some d ->
  fileView (getNode (snd (mkdir now vfs p)) q) = fileView (Some d).
Proof.
  intros Hq. rewrite <- Hq. unfold mkdir.
  rewrite (getNode_walk vfs (parentPathOf _)).
  set (addr := nodeAddress vfs (parentPathOf (resolvePath vfs p))).
  set (l := baseNameOf (resolvePath vfs p)).
  destruct (walk addr (root vfs)) as [parent|] eqn:Hw; [|reflexivity].
  destruct (negb (FileType_eqb (type parent) directory)); [reflexivity|].
  destruct (map_has l (children parent)) eqn:Hhas; [reflexivity|].
  apply map_has_get in Hhas. cbn [snd].
  rewrite getNode_set_root, (getNode_parts vfs q).
  rewrite getNode_parts in Hq.
  apply (walk_frame l (map_set l (createNode now directory l EmptyString))
           now).
  - intros k m Hk. now apply map_get_set_other.
  - intros rest E. rewrite E, (walk_app addr), Hw in Hq.
    cbn [walk] in Hq. now rewrite Hhas in Hq.
Qed.

(** A [mkdir] that reports success leaves a directory at the path. *)
Lemma mkdir_made (now : Z) (vfs : VFS.t) (p : string) :
  fst (mkdir now vfs p) = true ->
  exists d, getNode (snd (mkdir now vfs p)) p = Some d /\ type d = directory.
Proof.
  intros Hok.
  destruct (String.eqb_spec (resolvePath vfs p) "/") as [Hroot|Hbelow].
  - rewrite (mkdir_at_root _ _ _ Hroot) in *.
    destruct (type (root vfs)) eqn:Ht; cbn [FileType_eqb negb] in *;
      [discriminate|].
    destruct (map_has EmptyString (children (root vfs))); [discriminate|].
    cbn [snd]. eexists. split.
    + apply getNode_at_root. exact Hroot.
    + cbn [set_root root set_modifiedAt set_children type]. exact Ht.
  - destruct (resolved_below_root vfs p Hbelow) as (init & l & E & Hi & Hl).
    destruct (locate vfs p init l E Hi Hl) as [Hpar Haddr Hname _ _].
    unfold mkdir in *. rewrite Hpar, Haddr, Hname in *.
    destruct (walk init (root vfs)) as [parent|] eqn:Hw; [|discriminate].
    destruct (negb (FileType_eqb (type parent) directory)); [discriminate|].
    destruct (map_has l (children parent)); [discriminate|].
    cbn [snd]. rewrite (getNode_after_modify vfs p init l _ parent E Hw).
    cbn [set_modifiedAt set_children children].
    rewrite map_get_set_same. eexists. split; reflexivity.
Qed.

Lemma mkdirStep_cases (now : Z) (p0 : Commands.Progress) (a : string) :
  Commands.pr_vfs (Commands.mkdirStep now p0 a)
  = snd (mkdir now (Commands.pr_vfs p0) a)
  /\ ((fst (mkdir now (Commands.pr_vfs p0) a) = true
       /\ Commands.pr_out (Commands.mkdirStep now p0 a) = Commands.pr_out p0
       /\ Commands.pr_code (Commands.mkdirStep now p0 a)
          = Commands.pr_code p0)
      \/ (exists e,
             Commands.pr_out (Commands.mkdirStep now p0 a)
             = Commands.pr_out p0 ++ [e]
             /\ Commands.pr_code (Commands.mkdirStep now p0 a) = 1%Z)).
Proof.
  unfold Commands.mkdirStep.
  destruct (mkdir now (Commands.pr_vfs p0) a) as [[|] v'];
    cbn [Commands.pr_vfs Commands.pr_out Commands.pr_code fst snd].
  - split; [reflexivity|]. left. auto.
  - split; [reflexivity|]. right. eauto.
Qed.

Lemma mkdir_loop (now : Z) (paths : list string) :
  forall p0 : Commands.Progress,
    _currentPath (Commands.pr_vfs (fold_left (Commands.mkdirStep now) paths p0))
    = _currentPath (Commands.pr_vfs p0)
    /\ (forall q,
           readFile
             (Commands.pr_vfs (fold_left (Commands.mkdirStep now) paths p0)) q
           = readFile (Commands.pr_vfs p0) q)
    /\ (forall q d,
           getNode (Commands.pr_vfs p0) q = Some d ->
           fileView
             (getNode
                (Commands.pr_vfs
                   (fold_left (Commands.mkdirStep now) paths p0)) q)
           = fileView (Some d))
    /\ exists more,
         Commands.pr_out (fold_left (Commands.mkdirStep now) paths p0)
         = Commands.pr_out p0 ++ more
         /\ ((more = []
              /\ Commands.pr_code
                   (fold_left (Commands.mkdirStep now) paths p0)
                 = Commands.pr_code p0
              /\ Forall
                   (fun a =>
                      exists d,
                        getNode
                          (Commands.pr_vfs
                             (fold_left (Commands.mkdirStep now) paths p0)) a
                        = Some d
                        /\ type d = directory)
                   paths)
             \/ (more <> []
                 /\ Commands.pr_code
                      (fold_left (Commands.mkdirStep now) paths p0)
                    = 1%Z)).
Proof.
  induction paths as [|a paths IH]; intros p0; cbn [fold_left].
  - split; [reflexivity|]. split; [reflexivity|].
    split; [intros q d ->; reflexivity|].
    exists []. split; [now rewrite app_nil_r|]. left. auto.
  - destruct (IH (Commands.mkdirStep now p0 a))
      as (Hcur & Hread & Hview & more & Hout & Hcode).
    destruct (mkdirStep_cases now p0 a) as (Hvfs & Hstep).
    set (final := fold_left (Commands.mkdirStep now) paths
                    (Commands.mkdirStep now p0 a)) in *.
    rewrite Hvfs in *.
    split; [now rewrite Hcur, currentPath_mkdir|].
    split; [intros q; now rewrite Hread, mkdir_frame|].
    split.
    { intros q d Hq.
      pose proof (mkdir_view now _ a q d Hq) as Hst.
      destruct (getNode (snd (mkdir now (Commands.pr_vfs p0) a)) q)
        as [d1|] eqn:Hd1; [|discriminate].
      rewrite (Hview q d1 Hd1). exact Hst. }
    destruct Hstep as [(Hok & Ho & Hc)|(e & Ho & Hc)].
    + exists more. split; [now rewrite Hout, Ho|].
      destruct Hcode as [(Hm & Hc' & HF)|Hbad]; [left|now right].
      split; [exact Hm|]. split; [congruence|]. constructor; [|exact HF].
      destruct (mkdir_made now _ a Hok) as (d & Hd & Hty).
      pose proof (Hview a d Hd) as Hv.
      destruct (getNode (Commands.pr_vfs final) a) as [d2|]; [|discriminate].
      exists d2. split; [reflexivity|].
      cbn [fileView] in Hv. congruence.
    + exists (e :: more). split; [now rewrite Hout, Ho, <- app_assoc|].
      right. split; [discriminate|].
      destruct Hcode as [(_ & Hc' & _)|[_ Hc']]; congruence.
Qed.

(** X22: the [mkdir] command.  Whatever its operands, it changes no file
    and not the working directory.  It returns 0 or 1, and 0 exactly when
    it wrote nothing to the error stream; when it returns 0 there was at
    least one operand and every operand leads to a directory afterwards. *)
Theorem mkdir_command_reports_every_refusal (now : Z)
    (ctx : CommandContext) :
  (forall q,
      readFile (vfsAfter (cmd_execute (Commands.mkdir now) ctx)) q
      = readFile (ctx_vfs ctx) q)
  /\ pwd (vfsAfter (cmd_execute (Commands.mkdir now) ctx))
     = pwd (ctx_vfs ctx)
  /\ ((outcome (cmd_execute (Commands.mkdir now) ctx) = Returned 0
       /\ emitted (cmd_execute (Commands.mkdir now) ctx) = []
       /\ ctx_args ctx <> []
       /\ Forall
            (fun a =>
               exists d,
                 getNode (vfsAfter (cmd_execute (Commands.mkdir now) ctx)) a
                 = Some d
                 /\ type d = directory)
            (ctx_args ctx))
      \/ (outcome (cmd_execute (Commands.mkdir now) ctx) = Returned 1
          /\ emitted (cmd_execute (Commands.mkdir now) ctx) <> [])).
Proof.
  cbn [Commands.mkdir cmd_execute]. unfold pwd.
  destruct (ctx_args ctx) as [|a rest] eqn:Ha.
  - cbn [vfsAfter outcome emitted]. split; [reflexivity|].
    split; [reflexivity|]. right. split; [reflexivity|discriminate].
  - destruct (mkdir_loop now (a :: rest)
                (Commands.mkProgress (ctx_vfs ctx) [] 0))
      as (Hcur & Hread & _ & more & Hout & Hcode).
    unfold Commands.finish. cbn [vfsAfter outcome emitted].
    cbn [Commands.pr_vfs Commands.pr_out Commands.pr_code app] in *.
    split; [exact Hread|]. split; [exact Hcur|].
    destruct Hcode as [(Hm & Hc & HF)|(Hm & Hc)].
    + left. rewrite Hc, Hout, Hm. repeat split; [discriminate|exact HF].
    + right. rewrite Hc, Hout. now split.
Qed.

Lemma rm_view_frame (now : Z) (vfs : VFS.t) (p q : string)
    (recursive : bool) :
  resolvePath vfs p <> "/" ->
  (forall rest,
      resolvedParts (_currentPath vfs) q
      <> resolvedParts (_currentPath vfs) p ++ rest) ->
  fileView (getNode (snd (rm now vfs p recursive)) q)
  = fileView (getNode vfs q).
Proof.
  intros Hbelow Hout.
  destruct (resolved_below_root vfs p Hbelow) as (init & l & E & Hi & Hl).
  destruct (locate vfs p init l E Hi Hl) as [_ Haddr Hname _ _].
  unfold rm. rewrite (getNode_walk vfs (parentPathOf _)), Haddr, Hname.
  destruct (walk init (root vfs)) as [parent|]; [|reflexivity].
  destruct (getNode vfs (resolvePath vfs p)) as [node|]; [|reflexivity].
  destruct (FileType_eqb (type node) directory
            && (0 <? map_size (children node))%nat && negb recursive);
    [reflexivity|].
  cbn [snd]. rewrite getNode_set_root, getNode_parts.
  apply (walk_frame l (map_delete l) now).
  - intros k m Hk. now apply map_get_delete_other.
  - intros rest Eq. apply (Hout rest). rewrite Eq, E.
    now rewrite <- app_assoc.
Qed.

(** Removing a file leaves every directory where it was. *)
Lemma rm_file_spares_directories (now : Z) (vfs : VFS.t) (p q : string)
    (node d : FileNode) (recursive : bool) :
  wellFormed (root vfs) ->
  getNode vfs p = Some node -> type node = file ->
  getNode vfs q = Some d -> type d = directory ->
  exists d',
    getNode (snd (rm now vfs p recursive)) q = Some d'
    /\ type d' = directory.
Proof.
  intros Hwf Hp Hfile Hq Hdir.
  assert (Hleaf : children node = []).
  { rewrite getNode_parts in Hp.
    pose proof (wellFormed_walk _ _ _ Hwf Hp) as Hn.
    apply wellFormed_unfold in Hn as (Hn & _). now apply Hn. }
  assert (Hout : forall rest,
             resolvedParts (_currentPath vfs) q
             <> resolvedParts (_currentPath vfs) p ++ rest).
  { intros rest Eq. rewrite getNode_parts in Hp, Hq.
    rewrite Eq, walk_app, Hp in Hq. destruct rest as [|r rest].
    - cbn [walk] in Hq. congruence.
    - now rewrite (walk_through_leaf (r :: rest) node Hleaf) in Hq. }
  destruct (String.eqb_spec (resolvePath vfs p) "/") as [Hroot|Hbelow].
  - exfalso. apply (Hout (resolvedParts (_currentPath vfs) q)).
    pose proof (resolvePath_root_parts vfs p) as Hparts.
    apply Hparts in Hroot. now rewrite Hroot.
  - pose proof (rm_view_frame now vfs p q recursive Hbelow Hout) as Hv.
    rewrite Hq in Hv.
    destruct (getNode (snd (rm now vfs p recursive)) q) as [d'|];
      [|discriminate].
    exists d'. split; [reflexivity|]. cbn [fileView] in Hv. congruence.
Qed.

Lemma rmStep_cases (now : Z) (force : bool) (p0 : Commands.Progress)
    (a : string) :
  Commands.pr_vfs (Commands.rmStep now false force p0 a)
  = Commands.pr_vfs p0
  \/ exists node,
       getNode (Commands.pr_vfs p0) a = Some node /\ type node = file
       /\ Commands.pr_vfs (Commands.rmStep now false force p0 a)
          = snd (rm now (Commands.pr_vfs p0) a false).
Proof.
  unfold Commands.rmStep, stat.
  destruct (getNode (Commands.pr_vfs p0) a) as [node|] eqn:Hn.
  - cbn [st_type]. destruct (type node) eqn:Ht;
      cbn [FileType_eqb andb negb].
    + right. exists node. split; [reflexivity|]. split; [exact Ht|].
      destruct (rm now (Commands.pr_vfs p0) a false) as [[|] v'];
        reflexivity.
    + left. reflexivity.
  - left. destruct (negb force); reflexivity.
Qed.

Lemma rm_loop (now : Z) (force : bool) (paths : list string) :
  forall (p0 : Commands.Progress) (q : string) (d : FileNode),
    wellFormed (root (Commands.pr_vfs p0)) ->
    getNode (Commands.pr_vfs p0) q = Some d -> type d = directory ->
    exists d',
      getNode
        (Commands.pr_vfs
           (fold_left (Commands.rmStep now false force) paths p0)) q
      = Some d'
      /\ type d' = directory.
Proof.
  induction paths as [|a paths IH]; intros p0 q d Hwf Hq Hdir;
    cbn [fold_left]; [eauto|].
  destruct (rmStep_cases now force p0 a) as [Hsame|(node & Hn & Hf & Hrm)].
  - apply (IH _ q d); rewrite ?Hsame; assumption.
  - destruct (rm_file_spares_directories now _ a q node d false
                Hwf Hn Hf Hq Hdir) as (d1 & Hd1 & Hty1).
    apply (IH _ q d1); rewrite ?Hrm;
      [now apply wellFormed_rm|exact Hd1|exact Hty1].
Qed.

(** X23: without one of the flags [r], [R] and [recursive], the [rm]
    command removes no directory: on a well-formed tree, every path that
    led to a directory before the command leads to a directory after it,
    whatever the operands and the other flags. *)
Theorem rm_command_spares_directories (now : Z) (ctx : CommandContext)
    (q : string) (d : FileNode) :
  wellFormed (root (ctx_vfs ctx)) ->
  set_has "r" (ctx_flags ctx) = false ->
  set_has "R" (ctx_flags ctx) = false ->
  set_has "recursive" (ctx_flags ctx) = false ->
  getNode (ctx_vfs ctx) q = Some d -> type d = directory ->
  exists d',
    getNode (vfsAfter (cmd_execute (Commands.rm now) ctx)) q = Some d'
    /\ type d' = directory.
Proof.
  intros Hwf Hr HR Hrec Hq Hdir. cbn [Commands.rm cmd_execute].
  rewrite Hr, HR, Hrec. cbn [orb].
  destruct (ctx_args ctx) as [|a rest]; cbn [vfsAfter]; [eauto|].
  unfold Commands.finish. cbn [vfsAfter].
  now apply (rm_loop now _ (a :: rest)
               (Commands.mkProgress (ctx_vfs ctx) [] 0) q d).
Qed.

Lemma rm_command_spares_directories_witness :
  exists d',
    getNode
      (vfsAfter
         (cmd_execute (Commands.rm 1)
            (mkContext (VFS.new 0) ∅ "/home/guest"
               ["/etc/motd"; "/etc"; "/nowhere"] ["f"])))
      "/etc"
    = Some d'
    /\ type d' = directory.
Proof.
  lazymatch eval vm_compute in (getNode (VFS.new 0) "/etc") with
  | Some ?d =>
      apply (rm_command_spares_directories 1
               (mkContext (VFS.new 0) ∅ "/home/guest"
                  ["/etc/motd"; "/etc"; "/nowhere"] ["f"])
               "/etc" d)
  end.
  - cbn [ctx_vfs]. apply wellFormed_new.
  - reflexivity.
  - reflexivity.
  - reflexivity.
  - vm_compute. reflexivity.
  - reflexivity.
Defined.

Lemma catLoop_files (v : VFS.t) (paths : list string)
    (contents : list string) :
  Forall2 (fun p c => readFile v p = Some c) paths contents ->
  forall (tail : list string) (out : list OutputCall),
    Commands.catLoop v (paths ++ tail) out
    = Commands.catLoop v tail
        (out ++
         flat_map
           (fun c =>
              Print c ::
                (if endsWithChar Commands.newline c then []
                 else [Println EmptyString]))
           contents).
Proof.
  induction 1 as [|p c paths contents Hp _ IH]; intros tail out.
  - cbn [app flat_map]. now rewrite app_nil_r.
  - cbn [app Commands.catLoop flat_map]. rewrite Hp, IH.
    now rewrite <- !app_assoc.
Qed.

(** X24: the [cat] command prints the files in the order of its operands,
    each content as it is, followed by a newline when the content does
    not end with one.  If every operand is a file it returns 0.  At the
    first operand that is not a file it stops with status 1 and one error
    line, which says [Is a directory] for a directory and
    [No such file or directory] otherwise; the operands after it are
    not looked at.  The filesystem is never changed. *)
Theorem cat_prints_until_first_failure (ctx : CommandContext)
    (good : list string) (contents : list string) :
  Forall2 (fun p c => readFile (ctx_vfs ctx) p = Some c) good contents ->
  (ctx_args ctx = good -> good <> [] ->
   cmd_execute Commands.cat ctx
   = mkHandlerResult (Returned 0) (ctx_vfs ctx)
       (flat_map
          (fun c =>
             Print c ::
               (if endsWithChar Commands.newline c then []
                else [Println EmptyString]))
          contents))
  /\ (forall (bad : string) (rest : list string),
         ctx_args ctx = good ++ bad :: rest ->
         readFile (ctx_vfs ctx) bad = None ->
         cmd_execute Commands.cat ctx
         = mkHandlerResult (Returned 1) (ctx_vfs ctx)
             (flat_map
                (fun c =>
                   Print c ::
                     (if endsWithChar Commands.newline c then []
                      else [Println EmptyString]))
                contents
              ++ [Error
                    (if match getNode (ctx_vfs ctx) bad with
                        | Some n => FileType_eqb (type n) directory
                        | None => false
                        end
                     then "cat: " +:+ bad +:+ ": Is a directory"
                     else "cat: " +:+ bad
                          +:+ ": No such file or directory")])).
Proof.
  intros Hgood. split.
  - intros Ha Hne. cbn [Commands.cat cmd_execute]. rewrite Ha.
    destruct good as [|g good]; [congruence|].
    pose proof (catLoop_files _ _ _ Hgood [] []) as Hloop.
    rewrite app_nil_r in Hloop. rewrite Hloop.
    cbn [Commands.catLoop app]. reflexivity.
  - intros bad rest Ha Hbad. cbn [Commands.cat cmd_execute]. rewrite Ha.
    rewrite (catLoop_files _ _ _ Hgood (bad :: rest) []).
    cbn [Commands.catLoop app]. rewrite Hbad. unfold stat.
    destruct (good ++ bad :: rest) eqn:El;
      [now destruct good|].
    destruct (getNode (ctx_vfs ctx) bad) as [n|]; reflexivity.
Qed.

Lemma cat_prints_until_first_failure_witness :
  cmd_execute Commands.cat
    (mkContext (VFS.new 0) ∅ "/home/guest" ["/etc/motd"; "/etc"; "x"] [])
  = mkHandlerResult (Returned 1) (VFS.new 0)
      [Print ("Welcome to Midrai Terminal!" +:+ VFS.nl);
       Error "cat: /etc: Is a directory"].
Proof.
  destruct (cat_prints_until_first_failure
              (mkContext (VFS.new 0) ∅ "/home/guest"
                 ["/etc/motd"; "/etc"; "x"] [])
              ["/etc/motd"] ["Welcome to Midrai Terminal!" +:+ VFS.nl])
    as [_ Hbad].
  - constructor; [vm_compute; reflexivity|constructor].
  - rewrite (Hbad "/etc" ["x"]); [vm_compute; reflexivity | reflexivity |
                                  vm_compute; reflexivity].
Defined.

End CommandFacts.

(** ** Line editing *)

Section EditingFacts.
Import Js FakeShell.
Local Open Scope Z_scope.

Lemma substring_all (s : string) :
  String.substring 0 (String.length s) s = s.
Proof. induction s as [|c s IH]; simpl; congruence. Qed.

Lemma substring_none (n : nat) (s : string) :
  String.substring n 0 s = EmptyString.
Proof.
  revert n. induction s as [|c s IH]; intros [|n]; simpl; auto.
Qed.

Lemma substring_app_left (a b : string) :
  String.substring 0 (String.length a) (a +:+ b) = a.
Proof. induction a as [|c a IH]; simpl; [apply substring_none|congruence]. Qed.

Lemma substring_app_right (a b : string) (m : nat) :
  String.substring (String.length a) m (a +:+ b) = String.substring 0 m b.
Proof. induction a as [|c a IH]; simpl; auto. Qed.

Lemma substring_split (n : nat) (s : string) :
  (n <= String.length s)%nat ->
  String.substring 0 n s
  +:+ String.substring n (String.length s - n) s = s.
Proof.
  revert n. induction s as [|c s IH]; intros n Hn; simpl in Hn.
  - assert (n = 0%nat) by lia. now subst.
  - destruct n as [|n]; simpl.
    + now rewrite substring_all.
    + rewrite IH by lia. reflexivity.
Qed.

Lemma slice_split (n : Z) (s : string) :
  0 <= n <= len s -> slice 0 n s +:+ sliceFrom n s = s.
Proof.
  intros Hn. unfold sliceFrom, slice, relIndex, len in *.
  destruct (Z.ltb_spec n 0); [lia|].
  destruct (Z.ltb_spec 0 0); [lia|].
  destruct (Z.ltb_spec (Z.of_nat (String.length s)) 0); [lia|].
  replace (Z.to_nat (Z.min 0 (Z.of_nat (String.length s)))) with 0%nat
    by lia.
  replace (Z.to_nat
             (Z.max (Z.min n (Z.of_nat (String.length s))
                     - Z.min 0 (Z.of_nat (String.length s))) 0))
    with (Z.to_nat n) by lia.
  replace (Z.to_nat (Z.min n (Z.of_nat (String.length s))))
    with (Z.to_nat n) by lia.
  replace (Z.to_nat
             (Z.max (Z.min (Z.of_nat (String.length s))
                       (Z.of_nat (String.length s))
                     - Z.min n (Z.of_nat (String.length s))) 0))
    with (String.length s - Z.to_nat n)%nat by lia.
  apply substring_split. lia.
Qed.

Lemma slice_app_left (a b : string) : slice 0 (len a) (a +:+ b) = a.
Proof.
  unfold slice, relIndex, len. rewrite length_append.
  destruct (Z.ltb_spec 0 0); [lia|].
  destruct (Z.ltb_spec (Z.of_nat (String.length a)) 0); [lia|].
  replace (Z.to_nat
             (Z.min 0 (Z.of_nat (String.length a + String.length b))))
    with 0%nat by lia.
  replace (Z.to_nat
             (Z.max
                (Z.min (Z.of_nat (String.length a))
                   (Z.of_nat (String.length a + String.length b))
                 - Z.min 0 (Z.of_nat (String.length a + String.length b)))
                0))
    with (String.length a) by lia.
  apply substring_app_left.
Qed.

Lemma sliceFrom_app_right (a b : string) : sliceFrom (len a) (a +:+ b) = b.
Proof.
  unfold sliceFrom, slice, relIndex, len. rewrite length_append.
  destruct (Z.ltb_spec (Z.of_nat (String.length a)) 0); [lia|].
  destruct (Z.ltb_spec (Z.of_nat (String.length a + String.length b)) 0);
    [lia|].
  replace (Z.to_nat
             (Z.min (Z.of_nat (String.length a))
                (Z.of_nat (String.length a + String.length b))))
    with (String.length a) by lia.
  replace (Z.to_nat
             (Z.max
                (Z.min (Z.of_nat (String.length a + String.length b))
                   (Z.of_nat (String.length a + String.length b))
                 - Z.min (Z.of_nat (String.length a))
                     (Z.of_nat (String.length a + String.length b)))
                0))
    with (String.length b) by lia.
  rewrite substring_app_right. apply substring_all.
Qed.

(** The buffer after a one-character insertion, cut at the old cursor. *)
Lemma insertChar_shape (sh : t) (a : ascii) :
  0 <= cursorPosition sh <= len (inputBuffer sh) ->
  insertChar sh (String a EmptyString)
  = setBuffer sh
      ((slice 0 (cursorPosition sh) (inputBuffer sh)
        +:+ String a EmptyString)
       +:+ sliceFrom (cursorPosition sh) (inputBuffer sh))
      (len (slice 0 (cursorPosition sh) (inputBuffer sh)
            +:+ String a EmptyString))
  /\ len (slice 0 (cursorPosition sh) (inputBuffer sh))
     = cursorPosition sh.
Proof.
  intros Hb.
  assert (Hl : len (slice 0 (cursorPosition sh) (inputBuffer sh))
               = cursorPosition sh) by (rewrite len_slice; lia).
  split; [|exact Hl]. unfold insertChar.
  rewrite len_append, Hl, append_assoc. reflexivity.
Qed.

Lemma handleInput_printable (sh : t) (a : ascii) :
  isProcessing sh = false -> printable a = true ->
  handleInput sh (String a EmptyString)
  = Some (insertChar sh (String a EmptyString)).
Proof.
  intros Hidle Hp. unfold handleInput. rewrite Hidle.
  destruct a as [[] [] [] [] [] [] [] []];
    first [ discriminate Hp | reflexivity ].
Qed.

Lemma handleInput_keys (sh : t) :
  isProcessing sh = false ->
  handleInput sh keyDel = Some (handleBackspace sh)
  /\ handleInput sh keyBackspace = Some (handleBackspace sh)
  /\ handleInput sh keyDelete = Some (handleDelete sh)
  /\ handleInput sh keyLeft = Some (handleCursorLeft sh)
  /\ handleInput sh keyDown = handleHistoryDown sh.
Proof.
  intros Hidle. unfold handleInput. rewrite Hidle. repeat split.
Qed.

Lemma handleInput_inserted (sh : t) (data : string) :
  isProcessing sh = false -> isInserted data = true ->
  handleInput sh data = Some (insertChar sh data).
Proof.
  intros Hidle Hins. unfold isInserted in Hins.
  apply andb_true_iff in Hins as [Hkeys Hcode].
  apply negb_true_iff in Hkeys. unfold isOneOf in Hkeys.
  cbn [existsb] in Hkeys. repeat rewrite orb_false_iff in Hkeys.
  destruct Hkeys as
    (K1 & K2 & K3 & K4 & K5 & K6 & K7 & K8 & K9 & K10 & K11 & K12 & K13
     & K14 & K15 & _).
  unfold handleInput, isOneOf. cbn [existsb].
  now rewrite Hidle, K1, K2, K3, K4, K5, K6, K7, K8, K9, K10, K11, K12, K13,
    K14, K15, Hcode.
Qed.

(** The buffer after an insertion, cut after the first inserted unit: the
    cursor stands there, whatever the length of the data. *)
Lemma insertData_shape (sh : t) (a : ascii) (rest : string) :
  0 <= cursorPosition sh <= len (inputBuffer sh) ->
  insertChar sh (String a rest)
  = setBuffer sh
      ((slice 0 (cursorPosition sh) (inputBuffer sh)
        +:+ String a EmptyString)
       +:+ (rest +:+ sliceFrom (cursorPosition sh) (inputBuffer sh)))
      (len (slice 0 (cursorPosition sh) (inputBuffer sh)
            +:+ String a EmptyString))
  /\ len (slice 0 (cursorPosition sh) (inputBuffer sh))
     = cursorPosition sh.
Proof.
  intros Hb.
  assert (Hl : len (slice 0 (cursorPosition sh) (inputBuffer sh))
               = cursorPosition sh) by (rewrite len_slice; lia).
  split; [|exact Hl]. unfold insertChar.
  rewrite len_append, Hl, append_assoc. reflexivity.
Qed.

(** Backspace after an insertion removes the first inserted unit. *)
Lemma insert_then_backspace (sh : t) (a : ascii) (rest : string) :
  0 <= cursorPosition sh <= len (inputBuffer sh) ->
  handleBackspace (insertChar sh (String a rest))
  = setBuffer sh
      (slice 0 (cursorPosition sh) (inputBuffer sh)
       +:+ rest +:+ sliceFrom (cursorPosition sh) (inputBuffer sh))
      (cursorPosition sh).
Proof.
  intros Hb. destruct (insertData_shape sh a rest Hb) as [Hins Hl].
  rewrite Hins. unfold handleBackspace, setBuffer.
  cbn [cursorPosition inputBuffer cli commandHistory historyIndex
       isProcessing].
  rewrite len_append. change (len (String a EmptyString)) with 1.
  destruct (Z.ltb_spec 0
              (len (slice 0 (cursorPosition sh) (inputBuffer sh)) + 1));
    [|lia].
  replace (len (slice 0 (cursorPosition sh) (inputBuffer sh)) + 1 - 1)
    with (len (slice 0 (cursorPosition sh) (inputBuffer sh))) by lia.
  rewrite append_assoc at 1. rewrite slice_app_left.
  replace (len (slice 0 (cursorPosition sh) (inputBuffer sh)) + 1)
    with (len (slice 0 (cursorPosition sh) (inputBuffer sh)
               +:+ String a EmptyString))
    by (rewrite len_append; reflexivity).
  rewrite sliceFrom_app_right. now rewrite Hl.
Qed.

(** So do Left and Delete. *)
Lemma insert_left_delete (sh : t) (a : ascii) (rest : string) :
  0 <= cursorPosition sh <= len (inputBuffer sh) ->
  handleDelete (handleCursorLeft (insertChar sh (String a rest)))
  = setBuffer sh
      (slice 0 (cursorPosition sh) (inputBuffer sh)
       +:+ rest +:+ sliceFrom (cursorPosition sh) (inputBuffer sh))
      (cursorPosition sh).
Proof.
  intros Hb. destruct (insertData_shape sh a rest Hb) as [Hins Hl].
  rewrite Hins. unfold handleCursorLeft, handleDelete, setBuffer.
  cbn [cursorPosition inputBuffer cli commandHistory historyIndex
       isProcessing].
  rewrite len_append. change (len (String a EmptyString)) with 1.
  destruct (Z.ltb_spec 0
              (len (slice 0 (cursorPosition sh) (inputBuffer sh)) + 1));
    [|lia].
  cbn [cursorPosition inputBuffer cli commandHistory historyIndex
       isProcessing].
  replace (len (slice 0 (cursorPosition sh) (inputBuffer sh)) + 1 - 1)
    with (len (slice 0 (cursorPosition sh) (inputBuffer sh))) by lia.
  rewrite !len_append. change (len (String a EmptyString)) with 1.
  pose proof (len_nonneg rest) as Hrest.
  pose proof (len_nonneg (sliceFrom (cursorPosition sh) (inputBuffer sh)))
    as Hafter.
  destruct (Z.ltb_spec
              (len (slice 0 (cursorPosition sh) (inputBuffer sh)))
              (len (slice 0 (cursorPosition sh) (inputBuffer sh)) + 1
               + (len rest
                  + len (sliceFrom (cursorPosition sh) (inputBuffer sh)))));
    [|lia].
  cbn [cursorPosition inputBuffer cli commandHistory historyIndex
       isProcessing].
  rewrite append_assoc at 1. rewrite slice_app_left.
  replace (len (slice 0 (cursorPosition sh) (inputBuffer sh)) + 1)
    with (len (slice 0 (cursorPosition sh) (inputBuffer sh)
               +:+ String a EmptyString))
    by (rewrite len_append; reflexivity).
  rewrite sliceFrom_app_right. now rewrite Hl.
Qed.

(** The state after the removal is the one before the insertion exactly
    when nothing but the removed unit was inserted. *)
Lemma removal_restores (sh : t) (rest : string) :
  0 <= cursorPosition sh <= len (inputBuffer sh) ->
  setBuffer sh
    (slice 0 (cursorPosition sh) (inputBuffer sh)
     +:+ rest +:+ sliceFrom (cursorPosition sh) (inputBuffer sh))
    (cursorPosition sh) = sh
  <-> rest = EmptyString.
Proof.
  intros Hb. split.
  - intros E. apply (f_equal inputBuffer) in E.
    cbn [setBuffer inputBuffer] in E.
    apply (f_equal len) in E. rewrite !len_append in E.
    rewrite len_slice, len_sliceFrom in E by lia.
    destruct rest as [|c rest]; [reflexivity|].
    rewrite len_cons in E. pose proof (len_nonneg rest). lia.
  - intros ->. cbn [String.append]. rewrite slice_split by exact Hb.
    now destruct sh.
Qed.

(** X25: Backspace takes back one code unit, not one keystroke.  In an
    idle editor whose cursor is within the buffer, after any data that is
    inserted (one code unit of 32 or more other than DEL, or several code
    units at once: a character outside the basic plane, an input-method
    commit, a paste), pressing Backspace (either code), or Left and then
    Delete, removes the first inserted unit only: the buffer is the one
    before the keystroke with the rest of the data at the cursor, and the
    cursor is where it was.  So the editor is back in the state before the
    keystroke exactly when the data was a single code unit. *)
Theorem backspace_takes_back_one_code_unit (sh : t) (a : ascii)
    (rest : string) :
  isProcessing sh = false ->
  0 <= cursorPosition sh <= len (inputBuffer sh) ->
  isInserted (String a rest) = true ->
  run sh [Data (String a rest); Data keyDel]
  = Some (setBuffer sh
            (slice 0 (cursorPosition sh) (inputBuffer sh)
             +:+ rest +:+ sliceFrom (cursorPosition sh) (inputBuffer sh))
            (cursorPosition sh))
  /\ run sh [Data (String a rest); Data keyBackspace]
     = run sh [Data (String a rest); Data keyDel]
  /\ run sh [Data (String a rest); Data keyLeft; Data keyDelete]
     = run sh [Data (String a rest); Data keyDel]
  /\ (run sh [Data (String a rest); Data keyDel] = Some sh
      <-> rest = EmptyString).
Proof.
  intros Hidle Hb Hins.
  assert (Hdel : run sh [Data (String a rest); Data keyDel]
                 = Some (setBuffer sh
                           (slice 0 (cursorPosition sh) (inputBuffer sh)
                            +:+ rest
                            +:+ sliceFrom (cursorPosition sh)
                                  (inputBuffer sh))
                           (cursorPosition sh))).
  { unfold run. cbn [fold_left step].
    rewrite (handleInput_inserted sh _ Hidle Hins).
    destruct (handleInput_keys (insertChar sh (String a rest)) Hidle)
      as (Hk & _).
    now rewrite Hk, (insert_then_backspace sh a rest Hb). }
  rewrite Hdel. split; [reflexivity|]. split; [|split].
  - unfold run. cbn [fold_left step].
    rewrite (handleInput_inserted sh _ Hidle Hins).
    destruct (handleInput_keys (insertChar sh (String a rest)) Hidle)
      as (_ & Hk & _).
    now rewrite Hk, (insert_then_backspace sh a rest Hb).
  - unfold run. cbn [fold_left step].
    rewrite (handleInput_inserted sh _ Hidle Hins).
    destruct (handleInput_keys (insertChar sh (String a rest)) Hidle)
      as (_ & _ & _ & Hleft & _).
    rewrite Hleft.
    assert (Hidle2 : isProcessing
                       (handleCursorLeft (insertChar sh (String a rest)))
                     = false).
    { unfold handleCursorLeft. destruct (0 <? _); exact Hidle. }
    destruct (handleInput_keys _ Hidle2) as (_ & _ & Hdelete & _).
    now rewrite Hdelete, (insert_left_delete sh a rest Hb).
  - split.
    + intros E. inversion E as [E']. now apply (removal_restores sh rest Hb).
    + intros E. f_equal. now apply (removal_restores sh rest Hb).
Qed.

Lemma backspace_takes_back_one_code_unit_witness :
  run (mkShell (CLI.new (VFS.new 0) ∅) "ls" 1 [] (-1) false)
      [Data "xy"; Data keyDel]
  = Some (mkShell (CLI.new (VFS.new 0) ∅) "lys" 1 [] (-1) false)
  /\ run (mkShell (CLI.new (VFS.new 0) ∅) "ls" 1 [] (-1) false)
         [Data "x"; Data keyDel]
     = Some (mkShell (CLI.new (VFS.new 0) ∅) "ls" 1 [] (-1) false).
Proof.
  split.
  - destruct (backspace_takes_back_one_code_unit
                (mkShell (CLI.new (VFS.new 0) ∅) "ls" 1 [] (-1) false)
                "x" "y") as (H & _);
      [reflexivity | unfold len; simpl; lia | reflexivity |].
    rewrite H. reflexivity.
  - destruct (backspace_takes_back_one_code_unit
                (mkShell (CLI.new (VFS.new 0) ∅) "ls" 1 [] (-1) false)
                "x" EmptyString) as (_ & _ & _ & H);
      [reflexivity | unfold len; simpl; lia | reflexivity |].
    now apply H.
Defined.

Lemma run_none (events : list Event) :
  fold_left
    (fun st ev =>
       match st with
       | Some sh' => step sh' ev
       | None => None
       end)
    events None = None.
Proof. induction events as [|e events IH]; [reflexivity|exact IH]. Qed.

Lemma run_cons (sh : t) (ev : Event) (events : list Event) :
  run sh (ev :: events)
  = match step sh ev with
    | Some sh' => run sh' events
    | None => None
    end.
Proof.
  unfold run. cbn [fold_left].
  destruct (step sh ev); [reflexivity|apply run_none].
Qed.

Lemma run_app (sh : t) (l1 l2 : list Event) :
  run sh (l1 ++ l2)
  = match run sh l1 with
    | Some sh' => run sh' l2
    | None => None
    end.
Proof.
  revert sh. induction l1 as [|e l1 IH]; intros sh; [reflexivity|].
  cbn [app]. rewrite !run_cons. destruct (step sh e); [apply IH|reflexivity].
Qed.

Lemma slice_all (s : string) : slice 0 (len s) s = s.
Proof.
  pose proof (slice_app_left s EmptyString) as H.
  now rewrite append_empty_r in H.
Qed.

Lemma sliceFrom_end (s : string) : sliceFrom (len s) s = EmptyString.
Proof.
  pose proof (sliceFrom_app_right s EmptyString) as H.
  now rewrite append_empty_r in H.
Qed.

(** Printable characters typed at the end of the buffer are appended. *)
Lemma type_chars (s : string) :
  forall sh : t,
    isProcessing sh = false ->
    cursorPosition sh = len (inputBuffer sh) ->
    Js.forallb printable s = true ->
    run sh (map Data (chars s))
    = Some (setBuffer sh (inputBuffer sh +:+ s)
              (len (inputBuffer sh +:+ s))).
Proof.
  induction s as [|a s IH]; intros sh Hidle Hcur Hp.
  - cbn [chars map]. unfold run. cbn [fold_left].
    rewrite append_empty_r, <- Hcur. now destruct sh.
  - cbn [Js.forallb] in Hp. apply andb_true_iff in Hp as [Ha Hs].
    cbn [chars map]. rewrite run_cons. cbn [step].
    rewrite (handleInput_printable sh a Hidle Ha).
    assert (Hb : 0 <= cursorPosition sh <= len (inputBuffer sh))
      by (rewrite Hcur; unfold len; lia).
    destruct (insertChar_shape sh a Hb) as [Hins _].
    rewrite Hins, Hcur, slice_all, sliceFrom_end, append_empty_r.
    rewrite IH; [|exact Hidle|reflexivity|exact Hs].
    unfold setBuffer.
    cbn [cursorPosition inputBuffer cli commandHistory historyIndex
         isProcessing].
    now rewrite append_assoc.
Qed.

Lemma drop_while_processing (sh : t) (ahead : list string) :
  isProcessing sh = true -> run sh (map Data ahead) = Some sh.
Proof.
  intros Hbusy. induction ahead as [|d ahead IH]; [reflexivity|].
  cbn [map]. rewrite run_cons. cbn [step]. unfold handleInput.
  now rewrite Hbusy.
Qed.

(** Data inserted at the end of the buffer: the buffer grows by the data,
    the cursor by one. *)
Lemma insert_at_end (c : CLI.t) (buf : string) (history : list string)
    (idx : Z) (a : ascii) (rest : string) :
  insertChar (mkShell c buf (len buf) history idx false) (String a rest)
  = mkShell c (buf +:+ String a rest) (len buf + 1) history idx false.
Proof.
  unfold insertChar, setBuffer.
  cbn [cursorPosition inputBuffer cli commandHistory historyIndex
       isProcessing].
  now rewrite slice_all, sliceFrom_end, append_empty_r.
Qed.

(** X26: what is typed is what runs, one code unit at a time.  From a new
    shell, typing [s] as one data per code unit (each 32 or more, not DEL)
    leaves [s] in the buffer with the cursor at its end.  Enter then does
    nothing but clear the line if [s] is blank; otherwise it appends the
    trimmed line to the history and hands it to the dispatcher, except
    for [exit], which is recorded but not run, the line staying in the
    buffer.  While the command is in flight every key is dropped, and
    when it settles the buffer is empty again.  A data of several code
    units (a character outside the basic plane, an input-method commit, a
    paste) is inserted whole but moves the cursor by one only: the cursor
    is then short of the end, and the next unit typed lands inside the
    inserted data, after its first unit. *)
Theorem typed_line_is_executed (c : CLI.t) (s : string)
    (ahead : list string) :
  Js.forallb printable s = true ->
  run (new c) (map Data (chars s)) = Some (mkShell c s (len s) [] (-1) false)
  /\ (trim s = EmptyString ->
      run (new c) (map Data (chars s) ++ [Data keyEnter]) = Some (new c))
  /\ (trim s = "exit" ->
      run (new c) (map Data (chars s) ++ [Data keyEnter])
      = Some (mkShell c s (len s) ["exit"] (-1) false))
  /\ (trim s <> EmptyString -> trim s <> "exit" ->
      run (new c) (map Data (chars s) ++ Data keyEnter :: map Data ahead)
      = Some (mkShell (snd (CLI.execute c (trim s))) s (len s) [trim s]
                (-1) true)
      /\ run (new c)
           (map Data (chars s)
            ++ Data keyEnter :: map Data ahead ++ [Settled])
         = Some (mkShell (snd (CLI.execute c (trim s))) EmptyString 0
                   [trim s] (-1) false))
  /\ (forall (a0 : ascii) (rest : string),
         isInserted (String a0 rest) = true ->
         run (new c) (map Data (chars s) ++ [Data (String a0 rest)])
         = Some (mkShell c (s +:+ String a0 rest) (len s + 1) [] (-1)
                   false)
         /\ (forall a : ascii,
                printable a = true ->
                run (new c)
                    (map Data (chars s)
                     ++ [Data (String a0 rest);
                         Data (String a EmptyString)])
                = Some (mkShell c (s +:+ String a0 (String a rest))
                          (len s + 2) [] (-1) false))).
Proof.
  intros Hp.
  assert (Htyped : run (new c) (map Data (chars s))
                   = Some (mkShell c s (len s) [] (-1) false)).
  { rewrite (type_chars s (new c) eq_refl eq_refl Hp). reflexivity. }
  split; [exact Htyped|].
  assert (Henter : forall rest,
             run (new c) (map Data (chars s) ++ Data keyEnter :: rest)
             = run (executeCommand (mkShell c s (len s) [] (-1) false))
                 rest).
  { intros rest. rewrite run_app, Htyped, run_cons. cbn [step].
    now rewrite handleInput_enter. }
  split; [|split; [|split]].
  - intros Hblank. rewrite Henter. unfold executeCommand.
    cbn [inputBuffer]. rewrite Hblank. reflexivity.
  - intros Hexit. rewrite Henter. unfold executeCommand.
    cbn [inputBuffer]. rewrite Hexit. reflexivity.
  - intros Hne Hnx.
    assert (Hexec : executeCommand (mkShell c s (len s) [] (-1) false)
                    = mkShell (snd (CLI.execute c (trim s))) s (len s)
                        [trim s] (-1) true).
    { unfold executeCommand. cbn [inputBuffer cli cursorPosition
                                  commandHistory app].
      apply truthy_spec in Hne. rewrite Hne.
      apply String.eqb_neq in Hnx. rewrite Hnx.
      now destruct (CLI.execute c (trim s)). }
    split.
    + rewrite Henter, Hexec. now apply drop_while_processing.
    + rewrite Henter, Hexec, run_app.
      rewrite drop_while_processing by reflexivity. reflexivity.
  - intros a0 rest Hins.
    assert (Hmulti : run (new c)
                       (map Data (chars s) ++ [Data (String a0 rest)])
                     = Some (mkShell c (s +:+ String a0 rest) (len s + 1) []
                               (-1) false)).
    { rewrite run_app, Htyped, run_cons. cbn [step].
      rewrite (handleInput_inserted (mkShell c s (len s) [] (-1) false) _
                 eq_refl Hins), insert_at_end.
      reflexivity. }
    split; [exact Hmulti|]. intros a Ha.
    change [Data (String a0 rest); Data (String a EmptyString)]
      with ([Data (String a0 rest)] ++ [Data (String a EmptyString)]).
    rewrite app_assoc, run_app, Hmulti, run_cons. cbn [step].
    rewrite (handleInput_printable
               (mkShell c (s +:+ String a0 rest) (len s + 1) [] (-1) false)
               a eq_refl Ha).
    unfold insertChar, setBuffer, run.
    cbn [cursorPosition inputBuffer cli commandHistory historyIndex
         isProcessing fold_left].
    replace (s +:+ String a0 rest)
      with ((s +:+ String a0 EmptyString) +:+ rest)
      by (now rewrite append_assoc).
    replace (len s + 1) with (len (s +:+ String a0 EmptyString))
      by (rewrite len_append; reflexivity).
    rewrite slice_app_left, sliceFrom_app_right.
    rewrite len_append. change (len (String a0 EmptyString)) with 1.
    replace (len s + 1 + 1) with (len s + 2) by lia.
    now rewrite !append_assoc.
Qed.

Lemma typed_line_is_executed_witness :
  exists sh,
    run (new (CLI.registerCommand (CLI.new (VFS.new 0) ∅) Commands.pwd))
        (map Data (chars " pwd") ++ Data keyEnter :: map Data ["x"]
         ++ [Settled])
    = Some sh
    /\ inputBuffer sh = EmptyString
    /\ commandHistory sh = ["pwd"]
    /\ CLI.output (cli sh) = [CLI.Println "/home/guest"]
    /\ isProcessing sh = false.
Proof.
  destruct (typed_line_is_executed
              (CLI.registerCommand (CLI.new (VFS.new 0) ∅) Commands.pwd)
              " pwd" ["x"] eq_refl) as (_ & _ & _ & Hrun & _).
  destruct Hrun as [_ Hsettled]; [discriminate | discriminate |].
  eexists. split; [exact Hsettled|].
  repeat split; vm_compute; reflexivity.
Defined.

Lemma nth_error_rev_at (l : list string) (k : nat) (e : string) :
  nth_error (rev l) k = Some e ->
  (k < List.length l)%nat
  /\ nth_error l (List.length l - 1 - k) = Some e.
Proof.
  intros H.
  assert (Hk : (k < List.length l)%nat).
  { rewrite <- length_rev. apply nth_error_Some. congruence. }
  split; [exact Hk|].
  apply (nth_error_nth _ _ EmptyString) in H.
  rewrite (rev_nth _ _ Hk) in H.
  replace (List.length l - 1 - k)%nat with (List.length l - S k)%nat by lia.
  rewrite (nth_error_nth' l EmptyString) by lia. now f_equal.
Qed.

Lemma up_once (sh : t) (entry : string) :
  -1 <= historyIndex sh ->
  nth_error (rev (commandHistory sh)) (Z.to_nat (historyIndex sh + 1))
  = Some entry ->
  handleHistoryUp sh
  = Some (mkShell (cli sh) entry (len entry) (commandHistory sh)
            (historyIndex sh + 1) (isProcessing sh)).
Proof.
  intros Hidx Hnth. apply nth_error_rev_at in Hnth as [Hk Hnth].
  unfold handleHistoryUp, browseTo, historyAt.
  destruct (Z.ltb_spec (historyIndex sh)
              (Z.of_nat (List.length (commandHistory sh)) - 1)); [|lia].
  destruct (Z.ltb_spec
              (Z.of_nat (List.length (commandHistory sh)) - 1
               - (historyIndex sh + 1)) 0); [lia|].
  replace (Z.to_nat
             (Z.of_nat (List.length (commandHistory sh)) - 1
              - (historyIndex sh + 1)))
    with (List.length (commandHistory sh) - 1
          - Z.to_nat (historyIndex sh + 1))%nat by lia.
  now rewrite Hnth.
Qed.

Lemma up_steps (k : nat) :
  forall (sh : t) (entry : string),
    isProcessing sh = false -> historyIndex sh = -1 ->
    nth_error (rev (commandHistory sh)) k = Some entry ->
    run sh (repeat (Data keyUp) (S k))
    = Some (mkShell (cli sh) entry (len entry) (commandHistory sh)
              (Z.of_nat k) false).
Proof.
  induction k as [|k IH]; intros sh entry Hidle Hidx Hnth.
  - cbn [repeat]. rewrite run_cons. cbn [step].
    rewrite (handleInput_up sh Hidle).
    rewrite (up_once sh entry); [|lia|now rewrite Hidx].
    now rewrite Hidx, Hidle.
  - destruct (nth_error (rev (commandHistory sh)) k) as [prev|] eqn:Hprev.
    + change (repeat (Data keyUp) (S (S k)))
        with (Data keyUp :: repeat (Data keyUp) (S k)).
      rewrite repeat_cons, run_app, (IH sh prev Hidle Hidx Hprev).
      rewrite run_cons. cbn [step].
      rewrite handleInput_up by reflexivity.
      rewrite (up_once _ entry);
        cbn [historyIndex commandHistory cli isProcessing]; [|lia|].
      * replace (Z.of_nat k + 1) with (Z.of_nat (S k)) by lia. reflexivity.
      * replace (Z.to_nat (Z.of_nat k + 1)) with (S k) by lia. exact Hnth.
    + apply nth_error_None in Hprev.
      assert (nth_error (rev (commandHistory sh)) (S k) = None)
        by (apply nth_error_None; lia).
      congruence.
Qed.

Lemma up_at_oldest (n : nat) (sh : t) :
  isProcessing sh = false ->
  historyIndex sh = Z.of_nat (List.length (commandHistory sh)) - 1 ->
  run sh (repeat (Data keyUp) n) = Some sh.
Proof.
  intros Hidle Hidx. induction n as [|n IH]; [reflexivity|].
  cbn [repeat]. rewrite run_cons. cbn [step].
  rewrite (handleInput_up sh Hidle). unfold handleHistoryUp.
  destruct (Z.ltb_spec (historyIndex sh)
              (Z.of_nat (List.length (commandHistory sh)) - 1)); [lia|].
  exact IH.
Qed.

(** X27: browsing the history.  In an idle editor that is not browsing,
    pressing Up [k+1] times loads the [k]-th most recent command, with the
    cursor at its end, and leaves the history as it is; pressing Up more
    often than there are commands stays on the oldest one.  Down from the
    most recent command gives an empty line: the line that was being
    typed before Up is not brought back. *)
Theorem history_browsing (sh : t) :
  isProcessing sh = false -> historyIndex sh = -1 ->
  (forall (k : nat) (entry : string),
      nth_error (rev (commandHistory sh)) k = Some entry ->
      run sh (repeat (Data keyUp) (S k))
      = Some (mkShell (cli sh) entry (len entry) (commandHistory sh)
                (Z.of_nat k) false))
  /\ (forall n : nat,
         (List.length (commandHistory sh) <= n)%nat ->
         run sh (repeat (Data keyUp) n)
         = run sh (repeat (Data keyUp) (List.length (commandHistory sh))))
  /\ (commandHistory sh <> [] ->
      run sh [Data keyUp; Data keyDown]
      = Some (mkShell (cli sh) EmptyString 0 (commandHistory sh) (-1)
                false)).
Proof.
  intros Hidle Hidx.
  split; [intros k entry; now apply up_steps|]. split.
  - intros n Hn.
    replace n with (List.length (commandHistory sh)
                    + (n - List.length (commandHistory sh)))%nat by lia.
    rewrite repeat_app, run_app.
    destruct (List.length (commandHistory sh)) as [|k] eqn:Hlen.
    + cbn [repeat]. unfold run at 1 3. cbn [fold_left].
      apply up_at_oldest; [exact Hidle|]. rewrite Hlen, Hidx. reflexivity.
    + destruct (nth_error (rev (commandHistory sh)) k) as [entry|] eqn:Hnth.
      * rewrite (up_steps k sh entry Hidle Hidx Hnth).
        apply up_at_oldest; [reflexivity|].
        cbn [historyIndex commandHistory]. rewrite Hlen. lia.
      * apply nth_error_None in Hnth. rewrite length_rev in Hnth. lia.
  - intros Hne.
    destruct (nth_error (rev (commandHistory sh)) 0) as [entry|] eqn:Hnth.
    + change [Data keyUp; Data keyDown]
        with (repeat (Data keyUp) 1 ++ [Data keyDown]).
      rewrite run_app, (up_steps 0 sh entry Hidle Hidx Hnth).
      rewrite run_cons. cbn [step].
      destruct (handleInput_keys
                  (mkShell (cli sh) entry (len entry) (commandHistory sh)
                     (Z.of_nat 0) false) eq_refl) as (_ & _ & _ & _ & Hdown).
      rewrite Hdown. reflexivity.
    + apply nth_error_None in Hnth. rewrite length_rev in Hnth.
      destruct (commandHistory sh); [congruence|simpl in Hnth; lia].
Qed.

Lemma history_browsing_witness :
  run (mkShell (CLI.new (VFS.new 0) ∅) "dra" 3 ["ls"; "pwd"] (-1) false)
      [Data keyUp; Data keyDown]
  = Some (mkShell (CLI.new (VFS.new 0) ∅) EmptyString 0 ["ls"; "pwd"] (-1)
            false).
Proof.
  destruct (history_browsing
              (mkShell (CLI.new (VFS.new 0) ∅) "dra" 3 ["ls"; "pwd"] (-1)
                 false) eq_refl eq_refl) as (_ & _ & H).
  apply H. discriminate.
Defined.

Lemma trimEnd_idempotent (s : string) : trimEnd (trimEnd s) = trimEnd s.
Proof.
  induction s as [|c s IH]; [reflexivity|]. cbn [trimEnd].
  destruct (isWhiteSpace c && negb (truthy (trimEnd s))) eqn:E;
    [reflexivity|].
  cbn [trimEnd]. now rewrite IH, E.
Qed.

Lemma trimStart_fixed (c : ascii) (r : string) :
  isWhiteSpace c = false -> trimStart (String c r) = String c r.
Proof. intros H. cbn [trimStart]. now rewrite H. Qed.

Lemma trimStart_shape (s : string) :
  trimStart s = EmptyString
  \/ exists c r, trimStart s = String c r /\ isWhiteSpace c = false.
Proof.
  induction s as [|c s IH]; [now left|]. cbn [trimStart].
  destruct (isWhiteSpace c) eqn:E; [exact IH|]. right. eauto.
Qed.

Lemma trim_idempotent (s : string) : trim (trim s) = trim s.
Proof.
  unfold trim. destruct (trimStart_shape s) as [->|(c & r & -> & Hc)];
    [reflexivity|].
  cbn [trimEnd]. rewrite Hc. cbn [andb].
  rewrite (trimStart_fixed c _ Hc). cbn [trimEnd]. rewrite Hc. cbn [andb].
  now rewrite trimEnd_idempotent.
Qed.

(** An event leaves the history alone or appends the trimmed buffer. *)
Lemma step_history (sh sh' : t) (ev : Event) :
  step sh ev = Some sh' ->
  commandHistory sh' = commandHistory sh
  \/ (trim (inputBuffer sh) <> EmptyString
      /\ commandHistory sh'
         = commandHistory sh ++ [trim (inputBuffer sh)]).
Proof.
  destruct ev as [data|]; cbn [step].
  - unfold handleInput.
    repeat match goal with
           | |- (if ?c then _ else _) = _ -> _ => destruct c
           end;
      intros H;
      try (inversion H; subst sh'; clear H).
    + now left.
    + unfold executeCommand.
      destruct (truthy (trim (inputBuffer sh))) eqn:Et; [|now left].
      right. split; [now apply truthy_spec|].
      destruct (String.eqb (trim (inputBuffer sh)) "exit"); [reflexivity|].
      now destruct (CLI.execute (cli sh) (trim (inputBuffer sh))).
    + left. unfold handleBackspace. now destruct (0 <? cursorPosition sh).
    + left. unfold handleDelete. now destruct (_ <? _).
    + left. unfold handleHistoryUp, browseTo in H.
      destruct (_ <? _) in H; [|now inversion H].
      destruct (historyAt sh _); now inversion H.
    + left. unfold handleHistoryDown, browseTo in H.
      destruct (0 <? historyIndex sh) in H.
      * destruct (historyAt sh _); now inversion H.
      * destruct (historyIndex sh =? 0) in H; now inversion H.
    + left. unfold handleCursorRight. now destruct (_ <? _).
    + left. unfold handleCursorLeft. now destruct (_ <? _).
    + now left.
    + now left.
    + now left.
    + left. unfold handleTab.
      destruct (CLI.complete (cli sh) (inputBuffer sh)) as [|only [|x l]];
        reflexivity.
    + now left.
    + now left.
    + now left.
  - intros H. inversion H; subst sh'. left. unfold resumeCommand.
    now destruct (isProcessing sh).
Qed.

Lemma run_reachable (sh : t) (events : list Event) :
  forall sh' : t, reachable sh -> run sh events = Some sh' -> reachable sh'.
Proof.
  revert sh. induction events as [|ev events IH]; intros sh sh' Hr Hrun.
  - inversion Hrun; now subst.
  - rewrite run_cons in Hrun.
    destruct (step sh ev) as [sh1|] eqn:Hstep; [|discriminate].
    apply (IH sh1 sh'); [|exact Hrun].
    now apply (reachable_step sh sh1 ev).
Qed.

(** X28: the history is append-only and holds trimmed commands.  An event
    leaves the history as it is or appends one entry, the trimmed buffer,
    which is then not empty; so in every state the editor can reach, each
    history entry is non-empty and has no leading or trailing whitespace. *)
Theorem history_holds_trimmed_commands :
  (forall (sh sh' : t) (ev : Event),
      step sh ev = Some sh' ->
      commandHistory sh' = commandHistory sh
      \/ (trim (inputBuffer sh) <> EmptyString
          /\ commandHistory sh'
             = commandHistory sh ++ [trim (inputBuffer sh)]))
  /\ (forall sh : t,
         reachable sh ->
         Forall (fun e => e <> EmptyString /\ trim e = e)
                (commandHistory sh)).
Proof.
  split; [exact step_history|].
  intros sh Hr. induction Hr as [c|sh sh' ev _ IH Hstep].
  - constructor.
  - destruct (step_history _ _ _ Hstep) as [->|(Hne & ->)]; [exact IH|].
    apply Forall_app. split; [exact IH|].
    constructor; [|constructor]. split; [exact Hne|apply trim_idempotent].
Qed.

Lemma history_holds_trimmed_commands_witness :
  exists sh,
    run (new (CLI.new (VFS.new 0) ∅))
        [Data " "; Data "l"; Data "s"; Data " "; Data keyEnter; Settled;
         Data " "; Data keyEnter; Data "p"; Data "w"; Data "d";
         Data keyEnter]
    = Some sh
    /\ commandHistory sh = ["ls"; "pwd"]
    /\ Forall (fun e => e <> EmptyString /\ trim e = e) (commandHistory sh).
Proof.
  destruct history_holds_trimmed_commands as [_ Hall].
  lazymatch eval vm_compute in
    (run (new (CLI.new (VFS.new 0) ∅))
         [Data " "; Data "l"; Data "s"; Data " "; Data keyEnter; Settled;
          Data " "; Data keyEnter; Data "p"; Data "w"; Data "d";
          Data keyEnter]) with
  | Some ?sh =>
      exists sh; split; [vm_compute; reflexivity|];
      split; [reflexivity|]; apply Hall;
      apply (run_reachable (new (CLI.new (VFS.new 0) ∅))
               [Data " "; Data "l"; Data "s"; Data " "; Data keyEnter;
                Settled; Data " "; Data keyEnter; Data "p"; Data "w";
                Data "d"; Data keyEnter]);
      [apply reachable_new|vm_compute; reflexivity]
  end.
Defined.

End EditingFacts.

(** ** A command line from end to end *)

Section PipelineFacts.
Import Js CLI.

Lemma word_is_plain (w : string) :
  Js.forallb isWordChar w = true ->
  Js.forallb isPlain w = true /\ includes space w = false
  /\ trimEnd w = w.
Proof.
  induction w as [|c w IH]; [auto|]. cbn [Js.forallb includes trimEnd].
  intros H. apply andb_true_iff in H as [Hc Hw].
  destruct (IH Hw) as (Hp & Hs & Ht). unfold isWordChar in Hc.
  apply andb_true_iff in Hc as [Hpl Hws]. apply negb_true_iff in Hws.
  rewrite Hpl, Hp, Hs, Ht, Hws. cbn [andb orb]. repeat split.
  destruct (Ascii.eqb_spec c space) as [->|]; [discriminate Hws|reflexivity].
Qed.

Lemma trimEnd_before_word (a w : string) :
  w <> EmptyString -> trimEnd w = w -> trimEnd (a +:+ w) = a +:+ w.
Proof.
  intros Hne Hw. induction a as [|c a IH]; [exact Hw|].
  change (String c a +:+ w) with (String c (a +:+ w)).
  cbn [trimEnd]. rewrite IH.
  assert (Ht : truthy (a +:+ w) = true).
  { apply truthy_spec. destruct a; [exact Hne|discriminate]. }
  rewrite Ht. cbn [negb]. now rewrite andb_false_r.
Qed.

Lemma startsWith_dashdash_no_dash (w : string) :
  startsWith "-" w = false -> startsWith "--" w = false.
Proof.
  destruct w as [|c1 [|c2 w]]; [reflexivity| |].
  - intros _. apply startsWith_dashdash_short.
  - rewrite startsWith_dash, startsWith_dashdash. now intros ->.
Qed.

(** The line [cd w], for a bare word [w], is the command [cd] with the one
    argument [w]. *)
Lemma cd_line (w : string) :
  w <> EmptyString -> Js.forallb isWordChar w = true ->
  startsWith "-" w = false ->
  trim ("cd " +:+ w) = "cd " +:+ w
  /\ matchAssignment ("cd " +:+ w) = None
  /\ parseInput ("cd " +:+ w) = mkParsed "cd" [w] [].
Proof.
  intros Hne Hword Hdash.
  destruct (word_is_plain w Hword) as (Hp & Hs & Ht).
  split; [|split].
  - unfold trim. change (trimStart ("cd " +:+ w)) with ("cd " +:+ w).
    now apply trimEnd_before_word.
  - reflexivity.
  - unfold parseInput. rewrite tokenize_plain by exact Hp.
    change (split space ("cd " +:+ w)) with ("cd" :: split space w).
    rewrite (split_without_sep _ _ Hs). cbn [List.filter].
    apply truthy_spec in Hne. rewrite Hne.
    change (truthy "cd") with true. cbn [tl fold_left parseToken].
    rewrite (startsWith_dashdash_no_dash _ Hdash), Hdash. reflexivity.
Qed.

(** X29: the line [cd w] from end to end.  With the [cd] command
    registered and [w] a bare word that does not start with a dash,
    [execute] moves the working directory when [w] leads to a directory,
    returning 0 and printing nothing; otherwise it returns 1, changes
    nothing in the filesystem and prints one error line naming [w]. *)
Theorem execute_cd_line (cli : CLI.t) (w : string) :
  map_get "cd" (commands cli) = Some Commands.cd ->
  w <> EmptyString -> Js.forallb isWordChar w = true ->
  startsWith "-" w = false ->
  execute cli ("cd " +:+ w)
  = if fst (VFS.cd (vfs cli) w)
    then (0%Z,
          mkCLI (commands cli)
                (VFS.mkVFS (VFS.root (vfs cli)) (VFS.resolvePath (vfs cli) w))
                (env cli) (output cli))
    else (1%Z,
          mkCLI (commands cli) (vfs cli) (env cli)
                (output cli
                 ++ [Error ("cd: " +:+ w
                            +:+ ": No such file or directory")])).
Proof.
  intros Hcd Hne Hword Hdash.
  destruct (cd_line w Hne Hword Hdash) as (Htrim & Hmatch & Hparse).
  assert (Hname : commandNameOf ("cd " +:+ w) = "cd").
  { unfold commandNameOf. now rewrite Htrim, Hmatch, Hparse. }
  rewrite (execute_found cli _ Commands.cd);
    [|rewrite Hname; discriminate|now rewrite Hname].
  assert (Hctx : ctx_vfs (contextOf cli ("cd " +:+ w)) = vfs cli
                 /\ ctx_args (contextOf cli ("cd " +:+ w)) = [w]).
  { unfold contextOf, commandLineOf. rewrite Htrim, Hmatch, Hparse.
    now split. }
  destruct Hctx as [Hv Ha].
  cbn [Commands.cd cmd_execute]. unfold Commands.cdPath.
  rewrite Hv, Ha. apply truthy_spec in Hne. rewrite Hne.
  change (default EmptyString (Some w)) with w.
  change (default "undefined" (Some w)) with w. unfold VFS.cd.
  destruct (VFS.getNode (vfs cli) (VFS.resolvePath (vfs cli) w)) as [node|];
    cbn [fst outcome vfsAfter emitted].
  - destruct (negb (VFS.FileType_eqb (VFS.type node) VFS.directory));
      cbn [fst outcome vfsAfter emitted]; [reflexivity|].
    now rewrite app_nil_r.
  - reflexivity.
Qed.

Lemma execute_cd_line_witness :
  execute
    (registerCommand (CLI.new (VFS.new 0) ∅) Commands.cd) ("cd " +:+ "/etc")
  = (0%Z,
     mkCLI [("cd", Commands.cd)]
           (VFS.mkVFS (VFS.root (VFS.new 0)) "/etc") ∅ []).
Proof.
  rewrite (execute_cd_line
             (registerCommand (CLI.new (VFS.new 0) ∅) Commands.cd) "/etc");
    [|reflexivity|discriminate|reflexivity|reflexivity].
  reflexivity.
Defined.

End PipelineFacts.

(** ** The prompt *)

Section PromptFacts.
Import Js PromptManager.

Lemma formatPath_idempotent (user : option string) (path : string) :
  formatPath user (formatPath user path) = formatPath user path.
Proof.
  unfold formatPath.
  destruct (String.eqb path ("/home/" +:+ textOf user)) eqn:E1;
    [reflexivity|].
  destruct (startsWith (("/home/" +:+ textOf user) +:+ "/") path) eqn:E2;
    [reflexivity|].
  now rewrite E1, E2.
Qed.

Lemma last_split_after_sep (a b : string) :
  last (split VFS.slash (a +:+ String VFS.slash b))
  = last (split VFS.slash b).
Proof.
  rewrite split_append_sep, last_app.
  pose proof (split_not_nil VFS.slash b) as Hne.
  destruct (split VFS.slash b) as [|x l] using rev_ind; [congruence|].
  now rewrite last_snoc.
Qed.

Lemma prefix_split (a s : string) :
  String.prefix a s = true -> exists b, s = a +:+ b.
Proof.
  revert s. induction a as [|c a IH]; intros s H; [now exists s|].
  destruct s as [|d s]; [discriminate|].
  rewrite prefix_cons in H. apply andb_true_iff in H as [Hc Hs].
  apply Ascii.eqb_eq in Hc as ->. destruct (IH s Hs) as (b & ->).
  now exists b.
Qed.

(** The last segment survives the abbreviation of the home directory. *)
Lemma getShortPath_last (user : option string) (dir l : string) :
  l <> EmptyString -> includes VFS.slash l = false ->
  dir +:+ String VFS.slash l <> "/home/" +:+ textOf user ->
  getShortPath user (dir +:+ String VFS.slash l) = l.
Proof.
  intros Hne Hl Hhome.
  assert (Hlast : forall x, last (split VFS.slash (x +:+ String VFS.slash l))
                            = Some l).
  { intros x. rewrite last_split_after_sep, (split_without_sep _ _ Hl).
    reflexivity. }
  assert (Hshort : forall f,
             f <> "~" -> f <> "/" -> last (split VFS.slash f) = Some l ->
             (if String.eqb f "~" || String.eqb f "/" then f
              else orElse (default EmptyString (last (split VFS.slash f)))
                     "/") = l).
  { intros f H1 H2 H3. apply String.eqb_neq in H1, H2. rewrite H1, H2, H3.
    cbn [orb]. change (default EmptyString (Some l)) with l.
    unfold orElse. apply truthy_spec in Hne. now rewrite Hne. }
  unfold getShortPath, formatPath.
  apply String.eqb_neq in Hhome. rewrite Hhome.
  destruct (startsWith (("/home/" +:+ textOf user) +:+ "/")
              (dir +:+ String VFS.slash l)) eqn:Hunder.
  - apply prefix_split in Hunder as (z & Hz).
    rewrite Hz, append_assoc, substringFrom_suffix.
    change ("/" +:+ z) with (String VFS.slash z).
    apply Hshort.
    + discriminate.
    + discriminate.
    + change ("~" +:+ String VFS.slash z)
        with ("~" +:+ String VFS.slash z).
      rewrite last_split_after_sep.
      rewrite <- (last_split_after_sep ("/home/" +:+ textOf user) z).
      change (String VFS.slash z) with ("/" +:+ z).
      rewrite <- append_assoc, <- Hz. apply Hlast.
  - apply Hshort; [| |apply Hlast].
    + intros E. apply (f_equal (includes VFS.slash)) in E.
      rewrite includes_append in E. cbn in E.
      now rewrite orb_true_r in E.
    + intros E. apply (f_equal String.length) in E.
      rewrite length_append in E. destruct l; [congruence|].
      simpl in E. lia.
Qed.

(** X30: the default prompt is [user@host:dir] followed by the sign and a
    space, where [dir] is [~] in the home directory of the user, [/] at
    the root, and otherwise only the last segment of the working
    directory; the sign is [#] for the user [root] and [$] for anyone
    else.  A variable that is not set prints as [undefined]. *)
Theorem prompt_shows_last_segment (vfs : VFS.t) (env : gmap string string) :
  (VFS.pwd vfs = "/home/" +:+ textOf (env !! "USER") ->
   generate vfs env
   = textOf (env !! "USER") +:+ "@" +:+ textOf (env !! "HOSTNAME") +:+ ":"
     +:+ "~"
     +:+ (if match env !! "USER" with
             | Some u => String.eqb u "root"
             | None => false
             end then "#" else "$") +:+ " ")
  /\ (VFS.pwd vfs = "/" ->
      generate vfs env
      = textOf (env !! "USER") +:+ "@" +:+ textOf (env !! "HOSTNAME")
        +:+ ":" +:+ "/"
        +:+ (if match env !! "USER" with
                | Some u => String.eqb u "root"
                | None => false
                end then "#" else "$") +:+ " ")
  /\ (forall dir l : string,
         VFS.pwd vfs = dir +:+ "/" +:+ l ->
         l <> EmptyString -> includes VFS.slash l = false ->
         VFS.pwd vfs <> "/home/" +:+ textOf (env !! "USER") ->
         generate vfs env
         = textOf (env !! "USER") +:+ "@" +:+ textOf (env !! "HOSTNAME")
           +:+ ":" +:+ l
           +:+ (if match env !! "USER" with
                   | Some u => String.eqb u "root"
                   | None => false
                   end then "#" else "$") +:+ " ").
Proof.
  assert (Hgen : forall short,
             getShortPath (env !! "USER") (VFS.pwd vfs) = short ->
             generate vfs env
             = textOf (env !! "USER") +:+ "@"
               +:+ textOf (env !! "HOSTNAME") +:+ ":" +:+ short
               +:+ (if match env !! "USER" with
                       | Some u => String.eqb u "root"
                       | None => false
                       end then "#" else "$") +:+ " ").
  { intros short Hs. unfold generate.
    replace (getShortPath (env !! "USER")
               (formatPath (env !! "USER") (VFS.pwd vfs)))
      with (getShortPath (env !! "USER") (VFS.pwd vfs))
      by (unfold getShortPath; now rewrite formatPath_idempotent).
    now rewrite Hs. }
  split; [|split].
  - intros Hhome. apply Hgen. unfold getShortPath, formatPath.
    rewrite Hhome, String.eqb_refl. reflexivity.
  - intros Hroot. apply Hgen. unfold getShortPath, formatPath.
    rewrite Hroot. destruct (textOf (env !! "USER")); reflexivity.
  - intros dir l Hpwd Hne Hl Hhome. apply Hgen. rewrite Hpwd in *.
    now apply getShortPath_last.
Qed.

Lemma prompt_shows_last_segment_witness :
  generate (snd (VFS.cd (VFS.new 0) "/etc")) FakeShell.defaultEnv
  = "guest@midrai:etc$ ".
Proof.
  destruct (prompt_shows_last_segment (snd (VFS.cd (VFS.new 0) "/etc"))
              FakeShell.defaultEnv) as (_ & _ & H).
  rewrite (H EmptyString "etc");
    [reflexivity|reflexivity|discriminate|reflexivity|].
  vm_compute. discriminate.
Defined.

End PromptFacts.
